(** * Sudoku: the board primitives, the backtracking enumerator, the moves
      list and the game engine, embedded from the C sources.

    Conventions of the embedding.
    - A C [int] is a [Z].  Where the program computes an [int] that the
      input alone can drive out of the 32-bit range, the wrap-around is
      written out with [int_wrap]: the count of [backTrack] and the dimension
      [N] that [load_game] computes from the header of a file.  Elsewhere the
      arithmetic is on cell coordinates, cell values and counts of cells and
      is kept exact.
    - A C [double] is a binary64 number ([PrimFloat.float]) with the
      arithmetic of the machine.
    - An [int **] table of dimension N is a [list (list Z)]; reading and
      writing go through [tget] and [tset].  The sources never index outside a
      table; the model reads 0 there and ignores the write.
    - [malloc]/[calloc] are assumed to succeed, so the [ALLOC_FAIL] branches
      that follow them do not appear, but for the one request no memory can
      meet: [alloc_table] with a negative [N], which [load_game] makes on a
      file whose header gives a negative dimension.  The statuses returned by
      the external optimiser are kept. *)

From Stdlib Require Import ZArith List Lia Bool Ascii String DecimalString Permutation.
From Stdlib Require Import Uint63 PrimFloat FloatOps.
Import ListNotations.
Open Scope Z_scope.

Abbreviation length := Datatypes.length.

(** ** definitions_db.h *)

Inductive RETURN_STATUS : Set :=
| ALLOC_SUCCESS | ALLOC_FAIL
| FILL_SUCCESS | FILL_FAIL
| GENERATE_SUCCESS | GENERATE_FAIL
| IO_SUCCESS | IO_FAIL
| ILP_FAIL | ILP_SUCCESS
| LP_FAIL | LP_SUCCESS
| BOARD_SOLVABLE | BOARD_UNSOLVABLE
| LEGAL_VALUE | NOT_LEGAL_VALUE
| SAFE_EXIT | ERRONEOUS_EXIT
| PROCESS_SUCCESS | PROCESS_FAIL
| LEGAL_LENGTH_LINE | ILLEGAL_LENGTH_LINE | BLANK_LINE | REACHED_EOF.

Definition status_eqb (a b : RETURN_STATUS) : bool :=
  match a, b with
  | ALLOC_SUCCESS, ALLOC_SUCCESS | ALLOC_FAIL, ALLOC_FAIL
  | FILL_SUCCESS, FILL_SUCCESS | FILL_FAIL, FILL_FAIL
  | GENERATE_SUCCESS, GENERATE_SUCCESS | GENERATE_FAIL, GENERATE_FAIL
  | IO_SUCCESS, IO_SUCCESS | IO_FAIL, IO_FAIL
  | ILP_FAIL, ILP_FAIL | ILP_SUCCESS, ILP_SUCCESS
  | LP_FAIL, LP_FAIL | LP_SUCCESS, LP_SUCCESS
  | BOARD_SOLVABLE, BOARD_SOLVABLE | BOARD_UNSOLVABLE, BOARD_UNSOLVABLE
  | LEGAL_VALUE, LEGAL_VALUE | NOT_LEGAL_VALUE, NOT_LEGAL_VALUE
  | SAFE_EXIT, SAFE_EXIT | ERRONEOUS_EXIT, ERRONEOUS_EXIT
  | PROCESS_SUCCESS, PROCESS_SUCCESS | PROCESS_FAIL, PROCESS_FAIL
  | LEGAL_LENGTH_LINE, LEGAL_LENGTH_LINE
  | ILLEGAL_LENGTH_LINE, ILLEGAL_LENGTH_LINE
  | BLANK_LINE, BLANK_LINE | REACHED_EOF, REACHED_EOF => true
  | _, _ => false
  end.

(** ** Tables ([int **]) *)

Definition table := list (list Z).

(** [for(i=0; i<n; i++)]: the values the loop variable takes. *)
Definition zseq (n : Z) : list Z := map Z.of_nat (seq 0 (Z.to_nat n)).

Fixpoint upd {A : Type} (l : list A) (n : nat) (x : A) : list A :=
  match l, n with
  | [], _ => []
  | _ :: t, O => x :: t
  | h :: t, S m => h :: upd t m x
  end.

(** [t[i][j]] *)
Definition tget (t : table) (i j : Z) : Z :=
  nth (Z.to_nat j) (nth (Z.to_nat i) t []) 0.

(** [t[i][j] = v] *)
Definition tset (t : table) (i j v : Z) : table :=
  upd t (Z.to_nat i) (upd (nth (Z.to_nat i) t []) (Z.to_nat j) v).

(** [alloc_table]: N pointers, each to N integers cleared by [calloc]. *)
Definition alloc_table (N : Z) : table :=
  repeat (repeat 0 (Z.to_nat N)) (Z.to_nat N).

(** When [alloc_table] returns [ALLOC_FAIL]: a negative [N] asks [malloc]
    for [N * sizeof(int * )] bytes, which as a [size_t] is more than any
    memory holds.  For the other [N] the memory is taken to be there
    ([malloc(0)] giving a pointer). *)
Definition alloc_table_fails (N : Z) : bool := N <? 0.

(** [copy_table]: [dst[i][j] = src[i][j]] for all [i, j < N]. *)
Definition copy_table (dst src : table) (N : Z) : table :=
  fold_left (fun d i => fold_left (fun d' j => tset d' i j (tget src i j)) (zseq N) d)
            (zseq N) dst.

(** ** Back_Tracking_Solver.c *)

Record node : Set := mk_node { row : Z; col : Z; value : Z }.

Definition stack := list node.

(** [get_box_start]: C division truncates. *)
Definition get_box_start (row_x col_y block_rows block_cols : Z) : Z * Z :=
  (Z.quot row_x block_rows, Z.quot col_y block_cols).

Definition is_legal_value (Board : table) (row_x col_y value block_rows block_cols : Z)
  : RETURN_STATUS :=
  let N := block_cols * block_rows in
  if existsb (fun i => (tget Board i col_y =? value) || (tget Board row_x i =? value))
             (zseq N)
  then NOT_LEGAL_VALUE
  else
    let '(i, j) := get_box_start row_x col_y block_rows block_cols in
    if existsb (fun l =>
                  existsb (fun m => tget Board (i * block_rows + l) (j * block_cols + m) =? value)
                          (zseq block_cols))
               (zseq block_rows)
    then NOT_LEGAL_VALUE
    else LEGAL_VALUE.

(** The [while] of [get_next_cell]; [None] when the fuel runs out. *)
Fixpoint get_next_cell_loop (fuel : nat) (Board : table) (N i j : Z) : option (Z * Z) :=
  match fuel with
  | O => None
  | S f =>
      if negb ((j =? 0) && (i =? N)) && negb (tget Board i j =? 0)
      then if j <? N - 1
           then get_next_cell_loop f Board N i (j + 1)
           else get_next_cell_loop f Board N (i + 1) 0
      else Some (i, j)
  end.

(** [get_next_cell]: a scan visits at most N*N cells plus the end mark. *)
Definition get_next_cell (Board : table) (N x y : Z) : option (Z * Z) :=
  match get_next_cell_loop (S (Z.to_nat (N * N))) Board N x y with
  | None => None
  | Some (i, j) => if (j =? 0) && (i =? N) then Some (-1, -1) else Some (i, j)
  end.

(** An [int] has 32 bits: [int_wrap z] is what an [int] holds after an
    operation whose exact result is [z], the result wrapping around in two's
    complement when it does not fit (what the machine does; the C standard
    leaves the overflow of a signed operation undefined). *)
Definition INT_MAX : Z := 2147483647.

Definition int_wrap (z : Z) : Z := (z + 2147483648) mod 4294967296 - 2147483648.

(** The state the loop of [backTrack] works on; [bt_sum] is [int sum]. *)
Record bt_state : Type := mk_bt { board_updates : stack; bt_board : table; bt_sum : Z }.

(** One iteration of the [while(!is_empty(board_updates))] loop, for a
    non-empty stack with head [hd] and rest [tl]. *)
Definition backTrack_iter (block_rows block_cols : Z) (hd : node) (tl : stack)
           (board : table) (sum : Z) : option bt_state :=
  let N := block_rows * block_cols in
  let i := row hd in
  let j := col hd in
  let num := value hd in
  if i =? -1 then Some (mk_bt tl board (int_wrap (sum + 1)))
  else
    let board := tset board i j 0 in
    if num =? N + 1 then Some (mk_bt tl board sum)
    else if status_eqb (is_legal_value board i j num block_rows block_cols) LEGAL_VALUE
    then
      let board := tset board i j num in
      match get_next_cell board N i j with
      | None => None
      | Some (i', j') =>
          Some (mk_bt (mk_node i' j' 1 :: mk_node i j (num + 1) :: tl) board sum)
      end
    else Some (mk_bt (mk_node i j (num + 1) :: tl) board sum).

Fixpoint backTrack_loop (fuel : nat) (block_rows block_cols : Z) (s : bt_state)
  : option bt_state :=
  match fuel with
  | O => None
  | S f =>
      match board_updates s with
      | [] => Some s
      | hd :: tl =>
          match backTrack_iter block_rows block_cols hd tl (bt_board s) (bt_sum s) with
          | None => None
          | Some s' => backTrack_loop f block_rows block_cols s'
          end
      end
  end.

(** [backTrack]: the status, [*num_of_solutions] and the board on exit. *)
Definition backTrack (fuel : nat) (board : table) (block_rows block_cols : Z)
  : option (RETURN_STATUS * Z * table) :=
  let N := block_rows * block_cols in
  match (if negb (tget board 0 0 =? 0) then get_next_cell board N 0 0 else Some (0, 0)) with
  | None => None
  | Some (i, j) =>
      match backTrack_loop fuel block_rows block_cols (mk_bt [mk_node i j 1] board 0) with
      | None => None
      | Some s =>
          Some (if bt_sum s =? 0 then BOARD_UNSOLVABLE else BOARD_SOLVABLE,
                bt_sum s, bt_board s)
      end
  end.

(** ** Moves_Linked_List.c

    The ring of [move_node]s is kept as the list of its non-sentinel nodes,
    in [next] order starting after the sentinel.  [curr_pointer] is the
    position of the node it points to: 0 is the sentinel, [k > 0] the k-th
    move.  A [move_node] is its list of changes from [changes_list_head] to
    [changes_list_tail]. *)

Record change_node : Set :=
  mk_change { cell_rows : Z; cell_cols : Z; z1 : Z; z2 : Z }.

Definition move_node := list change_node.

Record moves_list : Set := mk_moves { moves : list move_node; curr_pointer : nat }.

(** [alloc_move_node]: no changes yet. *)
Definition alloc_move_node : move_node := [].

Definition add_change_to_move (m_node : move_node) (cell_rows cell_cols z1 z2 : Z)
  : move_node :=
  m_node ++ [mk_change cell_rows cell_cols z1 z2].

(** The nodes after the current one are deleted, the new node is linked in
    before the sentinel and becomes the current one. *)
Definition add_move_node_to_list (m_list : moves_list) (m_node : move_node) : moves_list :=
  mk_moves (firstn (curr_pointer m_list) (moves m_list) ++ [m_node])
           (S (curr_pointer m_list)).

(** [curr_pointer->next != &sentinel] *)
Definition can_redo (m_list : moves_list) : bool :=
  (curr_pointer m_list <? length (moves m_list))%nat.

(** [curr_pointer != &sentinel] *)
Definition can_undo (m_list : moves_list) : bool :=
  negb (curr_pointer m_list =? 0)%nat.

(** [curr_pointer = curr_pointer->next]; the last node is followed by the
    sentinel. *)
Definition inc_curr_pointer (m_list : moves_list) : moves_list :=
  mk_moves (moves m_list)
           (if can_redo m_list then S (curr_pointer m_list) else O).

(** [curr_pointer = curr_pointer->prev]; the sentinel is preceded by the
    last node. *)
Definition dec_curr_pointer (m_list : moves_list) : moves_list :=
  mk_moves (moves m_list)
           (match curr_pointer m_list with
            | O => length (moves m_list)
            | S k => k
            end).

(** The sentinel has no changes. *)
Definition get_curr_pointer_changes_iter (m_list : moves_list) : list change_node :=
  match curr_pointer m_list with
  | O => []
  | S k => nth k (moves m_list) []
  end.

Definition init_moves_list : moves_list := mk_moves [] O.

Definition free_moves_list (m_list : moves_list) : moves_list := mk_moves [] O.

(** ** The game state (definitions_db.h) *)

Record game_board : Set := mk_board {
  board : table;
  err : table;
  fixed : table;
  block_cols : Z;
  block_rows : Z;
  N : Z;
  empty_cells_num : Z
}.

Inductive GAME_MODE : Set := Init | Solve | Edit.

Definition mode_eqb (a b : GAME_MODE) : bool :=
  match a, b with
  | Init, Init | Solve, Solve | Edit, Edit => true
  | _, _ => false
  end.

Record game_state : Set := mk_state {
  mode : GAME_MODE;
  mark_errors : Z;
  m_list : moves_list;
  g_board : game_board;
  valid : Z
}.

Definition with_board (gb : game_board) (t : table) : game_board :=
  mk_board t (err gb) (fixed gb) (block_cols gb) (block_rows gb) (N gb) (empty_cells_num gb).

Definition with_err (gb : game_board) (t : table) : game_board :=
  mk_board (board gb) t (fixed gb) (block_cols gb) (block_rows gb) (N gb) (empty_cells_num gb).

Definition with_fixed (gb : game_board) (t : table) : game_board :=
  mk_board (board gb) (err gb) t (block_cols gb) (block_rows gb) (N gb) (empty_cells_num gb).

Definition with_empty_cells_num (gb : game_board) (n : Z) : game_board :=
  mk_board (board gb) (err gb) (fixed gb) (block_cols gb) (block_rows gb) (N gb) n.

Definition with_g_board (g : game_state) (gb : game_board) : game_state :=
  mk_state (mode g) (mark_errors g) (m_list g) gb (valid g).

Definition with_m_list (g : game_state) (l : moves_list) : game_state :=
  mk_state (mode g) (mark_errors g) l (g_board g) (valid g).

Definition with_mark_errors (g : game_state) (m : Z) : game_state :=
  mk_state (mode g) m (m_list g) (g_board g) (valid g).

(** ** The environment of the game

    The optimiser behind [solve_board_with_ILP] and [solve_board_with_LP],
    the C library's [rand] and the file system are outside the program.
    [solve_board_with_ILP board block_rows block_cols] gives the status and
    the contents of [board] after the call; [solve_board_with_LP] gives in
    addition the contents of the score array after the call.  [rand k] is the
    value of the k-th call of [rand()].  [fopen_w path] tells whether [path]
    can be opened for writing. *)

(** A [double] is a binary64 number, with the arithmetic of the machine. *)
Definition double : Set := PrimFloat.float.

(** [(double) z] for an [int] [z]. *)
Definition double_of_int (z : Z) : double :=
  match z with
  | Z0 => PrimFloat.zero
  | Zpos _ => PrimFloat.of_uint63 (Uint63.of_Z z)
  | Zneg p => PrimFloat.opp (PrimFloat.of_uint63 (Uint63.of_Z (Zpos p)))
  end.

Class Environment : Type := {
  solve_board_with_ILP : table -> Z -> Z -> RETURN_STATUS * table;
  solve_board_with_LP : table -> Z -> Z -> RETURN_STATUS * table * list double;
  rand : nat -> Z;
  RAND_MAX : Z;
  fopen_w : string -> bool
}.

(** What a puzzle file holds: the integers [fscanf] reads, each with the
    character [fgetc] returns right after it (-1 at the end of the file). *)
Definition file := list (Z * Z).

Definition EOF : Z := -1.
Definition dot : Z := 46.
Definition space : Z := 32.

(** What the program writes on the standard output. *)
Inductive output : Type :=
| Printf (text : string)
| Printf_d (format : string) (args : list Z)
| Printf_s (format : string) (arg : string)
| Printf_score (value : Z) (score : double)
| Board_print (board fixed err : table) (block_rows block_cols mark_errors : Z).

(** The game state together with what lives outside it. *)
Record world : Type := mk_world {
  g_state : game_state;
  files : list (string * file);
  rand_calls : nat;
  stdout : list output
}.

(** Functions that take [game_state *g_state_p] and may print or call
    [rand()] are state transformers on [world]. *)
Definition M (A : Type) : Type := world -> A * world.

Definition ret {A : Type} (a : A) : M A := fun w => (a, w).

Definition bind {A B : Type} (m : M A) (k : A -> M B) : M B :=
  fun w => let (a, w') := m w in k a w'.

Declare Scope game_scope.
Delimit Scope game_scope with game.
Notation "x <- c1 ;; c2" := (bind c1 (fun x => c2))
  (at level 61, c1 at next level, right associativity) : game_scope.
Notation "c1 ;;; c2" := (bind c1 (fun _ => c2))
  (at level 61, right associativity) : game_scope.
Open Scope game_scope.

Definition get_state : M game_state := fun w => (g_state w, w).

Definition put_state (g : game_state) : M unit :=
  fun w => (tt, mk_world g (files w) (rand_calls w) (stdout w)).

Definition printf (o : output) : M unit :=
  fun w => (tt, mk_world (g_state w) (files w) (rand_calls w) (stdout w ++ [o])).

Definition call_rand {E : Environment} : M Z :=
  fun w => (rand (rand_calls w),
            mk_world (g_state w) (files w) (S (rand_calls w)) (stdout w)).

Fixpoint lookup_file (fs : list (string * file)) (path : string) : option file :=
  match fs with
  | [] => None
  | (p, f) :: rest => if String.eqb p path then Some f else lookup_file rest path
  end.

(** [fopen(file_path, "r")] *)
Definition fopen_r (path : string) : M (option file) :=
  fun w => (lookup_file (files w) path, w).

Definition write_file (path : string) (f : file) : M unit :=
  fun w => (tt, mk_world (g_state w) ((path, f) :: files w) (rand_calls w) (stdout w)).

(** ** Game.c *)

(** Two nested [for] loops over [0 <= i, j < n], the body acting on [s]. *)
Definition for2 {S : Type} (n : Z) (body : Z -> Z -> S -> S) (s : S) : S :=
  fold_left (fun s i => fold_left (fun s' j => body i j s') (zseq n) s) (zseq n) s.

(** The cells of a board of dimension [n], row by row. *)
Definition all_cells (n : Z) : list (Z * Z) :=
  flat_map (fun i => map (fun j => (i, j)) (zseq n)) (zseq n).

(** After [free_table] the three tables dangle; the model keeps them. *)
Definition free_game (g : game_state) : game_state :=
  mk_state Init (mark_errors g)
           (if negb (valid g =? 0) then free_moves_list (m_list g) else m_list g)
           (g_board g) 0.

(** The body of the loops of [update_erroneous], on
    [(is_erroneous, board, err)]. *)
Definition update_erroneous_cell (fixed : table) (block_rows block_cols i j : Z)
           (s : Z * table * table) : Z * table * table :=
  let '(is_erroneous, board, err) := s in
  let err := tset err i j 0 in
  let temp := tget board i j in
  if negb (temp =? 0) then
    let board := tset board i j 0 in
    let '(is_erroneous, err) :=
      if status_eqb (is_legal_value board i j temp block_rows block_cols) NOT_LEGAL_VALUE
      then (1, if tget fixed i j =? 0 then tset err i j 1 else err)
      else (is_erroneous, err) in
    let board := tset board i j temp in
    (is_erroneous, board, err)
  else (is_erroneous, board, err).

Definition update_erroneous (g : game_state) : Z * game_state :=
  let gb := g_board g in
  let '(is_erroneous, board', err') :=
    for2 (N gb) (update_erroneous_cell (fixed gb) (block_rows gb) (block_cols gb))
         (0, board gb, err gb) in
  (is_erroneous, with_g_board g (with_err (with_board gb board') err')).

(** File_IO.c: the loops of [load_game] over the cells, on
    [(board, fixed_tabel, empty_cells)]; [None] when [fscanf] fails. *)
Fixpoint load_cells (tokens : file) (cells : list (Z * Z)) (set_fixed : bool)
         (s : table * table * Z) {struct cells} : option (table * table * Z) :=
  match cells with
  | [] => Some s
  | (i, j) :: rest =>
      match tokens with
      | [] => None
      | (v, ch) :: tokens' =>
          let '(board, fixed_tabel, empty_cells) := s in
          let board := tset board i j v in
          let empty_cells := if v =? 0 then empty_cells + 1 else empty_cells in
          let fixed_tabel :=
            if negb (ch =? EOF) && (set_fixed && (ch =? dot))
            then tset fixed_tabel i j 1 else fixed_tabel in
          load_cells tokens' rest set_fixed (board, fixed_tabel, empty_cells)
      end
  end.

(** [load_game]: the filled [game_board], or the failure status. *)
Definition load_game (file_path : string) (set_fixed : bool)
  : M (game_board + RETURN_STATUS) :=
  fp <- fopen_r file_path ;;
  match fp with
  | None => ret (inr IO_FAIL)
  | Some [] =>
      printf (Printf_s "File %s not formatted correctly!" file_path) ;;; ret (inr IO_FAIL)
  | Some [_] =>
      printf (Printf_s "File %s not formatted correctly!" file_path) ;;; ret (inr IO_FAIL)
  | Some ((block_rows, _) :: (block_cols, _) :: tokens) =>
      let N := int_wrap (block_rows * block_cols) in
      if alloc_table_fails N then ret (inr ALLOC_FAIL)
      else
        match load_cells tokens (all_cells N) set_fixed
                         (alloc_table N, alloc_table N, 0) with
        | None =>
            printf (Printf_s "File %s not formatted correctly!" file_path) ;;;
            ret (inr IO_FAIL)
        | Some (board, fixed_tabel, empty_cells) =>
            ret (inl (mk_board board (alloc_table N) fixed_tabel block_cols block_rows
                               N empty_cells))
        end
  end.

(** [save_game]: what is written, read back as integers and the characters
    after them. *)
Definition save_game {E : Environment} (gb : game_board) (file_path : string)
  : M RETURN_STATUS :=
  if fopen_w file_path then
    write_file file_path
      ((block_rows gb, space) :: (block_cols gb, 10) ::
       map (fun c => (tget (board gb) (fst c) (snd c),
                      if negb (tget (fixed gb) (fst c) (snd c) =? 0) then dot else space))
           (all_cells (N gb))) ;;;
    ret IO_SUCCESS
  else ret IO_FAIL.

Definition print_board : M unit :=
  g <- get_state ;;
  let eff_mark_errors := if mode_eqb (mode g) Solve then mark_errors g else 1 in
  let g := if negb (eff_mark_errors =? 0) then snd (update_erroneous g) else g in
  put_state g ;;;
  printf (Board_print (board (g_board g)) (fixed (g_board g)) (err (g_board g))
                      (block_rows (g_board g)) (block_cols (g_board g)) eff_mark_errors).

Definition solve (file_path : string) : M RETURN_STATUS :=
  r <- load_game file_path true ;;
  match r with
  | inr status =>
      if status_eqb status IO_FAIL then
        printf (Printf "Error: File doesn't exist or cannot be opened") ;;;
        ret PROCESS_SUCCESS
      else
        printf (Printf_s "Couldn't allocate space for boards when loading the board from file:%s"
                         file_path) ;;;
        printf (Printf "Exiting game without freeing resources...") ;;;
        ret PROCESS_FAIL
  | inl dummy_g_board =>
      g <- get_state ;;
      let g := free_game g in
      put_state (mk_state Solve (mark_errors g) init_moves_list dummy_g_board 1) ;;;
      print_board ;;;
      ret PROCESS_SUCCESS
  end.

Definition edit (file_path : option string) : M RETURN_STATUS :=
  r <- match file_path with
       | Some path => load_game path false
       | None => ret (inl (mk_board (alloc_table 9) (alloc_table 9) (alloc_table 9)
                                    3 3 9 81))
       end ;;
  match r with
  | inr status =>
      if status_eqb status IO_FAIL then
        printf (Printf "Error: File cannot be opened") ;;; ret PROCESS_SUCCESS
      else
        printf (Printf_s "Couldn't allocate space for boards when loading the board from file:%s"
                         (match file_path with Some path => path | None => EmptyString end)) ;;;
        printf (Printf "Exiting game without freeing resources...") ;;;
        ret PROCESS_FAIL
  | inl dummy_g_board =>
      g <- get_state ;;
      let g := free_game g in
      put_state (mk_state Edit (mark_errors g) init_moves_list dummy_g_board 1) ;;;
      print_board ;;;
      ret PROCESS_SUCCESS
  end.

(** A C truth value. *)
Definition b2z (b : bool) : Z := if b then 1 else 0.

Definition set_cell (g : game_state) (cell_rows cell_cols z2 : Z) : game_state :=
  let gb := g_board g in
  let z1 := tget (board gb) cell_rows cell_cols in
  let before_filled := b2z (negb (z1 =? 0)) in
  let after_filled := b2z (negb (z2 =? 0)) in
  let m_node := add_change_to_move alloc_move_node cell_rows cell_cols z1 z2 in
  let m_list' := add_move_node_to_list (m_list g) m_node in
  let gb := with_board gb (tset (board gb) cell_rows cell_cols z2) in
  let gb := with_empty_cells_num gb (empty_cells_num gb - (after_filled - before_filled)) in
  mk_state (mode g) (mark_errors g) m_list' gb (valid g).

Definition is_valid_board {E : Environment} (g : game_state) : RETURN_STATUS :=
  let gb := g_board g in
  let aux_board := copy_table (alloc_table (N gb)) (board gb) (N gb) in
  let '(status, _) := solve_board_with_ILP aux_board (block_rows gb) (block_cols gb) in
  if status_eqb status ALLOC_FAIL || status_eqb status ILP_FAIL
  then PROCESS_FAIL else status.

(** The check made once every cell is filled, shared by [set] and
    [autofill]. *)
Definition check_filled_board {E : Environment} : M RETURN_STATUS :=
  g <- get_state ;;
  let status := is_valid_board g in
  if status_eqb status PROCESS_FAIL then
    printf (Printf "Fatal error while validating board after all cells were filled.") ;;;
    printf (Printf "Exiting program without freeing resources..") ;;;
    ret PROCESS_FAIL
  else if status_eqb status BOARD_UNSOLVABLE then
    printf (Printf "Puzzle solution erroneous") ;;; ret PROCESS_SUCCESS
  else
    printf (Printf "Puzzle solved successfully") ;;;
    put_state (free_game g) ;;;
    ret PROCESS_SUCCESS.

Definition set {E : Environment} (x y z : Z) : M RETURN_STATUS :=
  let cell_rows := y - 1 in
  let cell_cols := x - 1 in
  g <- get_state ;;
  if negb (tget (fixed (g_board g)) cell_rows cell_cols =? 0) then
    printf (Printf "Error: cell is fixed") ;;; ret PROCESS_SUCCESS
  else
    put_state (set_cell g cell_rows cell_cols z) ;;;
    print_board ;;;
    g <- get_state ;;
    if mode_eqb (mode g) Solve && (empty_cells_num (g_board g) =? 0)
    then check_filled_board
    else ret PROCESS_SUCCESS.

Definition validate {E : Environment} : M RETURN_STATUS :=
  g <- get_state ;;
  let '(is_erroneous, g) := update_erroneous g in
  put_state g ;;;
  if negb (is_erroneous =? 0) then
    printf (Printf "Error: board contains erroneous values") ;;; ret PROCESS_SUCCESS
  else
    let status := is_valid_board g in
    if status_eqb status PROCESS_FAIL then
      printf (Printf "Fatal error while validating board.") ;;;
      printf (Printf "Exiting program without freeing resources..") ;;;
      ret PROCESS_FAIL
    else if status_eqb status BOARD_UNSOLVABLE then
      printf (Printf "Validation failed: board is unsolvable") ;;; ret PROCESS_SUCCESS
    else
      printf (Printf "Validation passed: board is solvable") ;;; ret PROCESS_SUCCESS.

(** [compare], the order [qsort] sorts the scores by. *)
Definition compare (a b : double) : Z :=
  if PrimFloat.ltb b a then 1
  else if PrimFloat.ltb a b then -1
  else 0.

Fixpoint insert_sorted (x : double) (l : list double) : list double :=
  match l with
  | [] => [x]
  | y :: t => if compare x y =? 1 then y :: insert_sorted x t else x :: y :: t
  end.

(** [qsort(arr, n, sizeof(double), compare)]: the scores in ascending
    order.  Scores that [compare] finds equal are the same number, so the
    order among them is of no consequence. *)
Definition qsort (arr : list double) : list double := fold_right insert_sorted [] arr.

(** The integral part of a [double] that is not negative, not a NaN and
    not infinite: below 1 it is 0, from 2^52 on the number is whole, and in
    between the bits of the mantissa under the binary point are cut off. *)
Definition trunc_abs (a : double) : double :=
  if PrimFloat.ltb a PrimFloat.one then PrimFloat.zero
  else
    let '(m, e) := FloatOps.Z.frexp a in
    if 53 <=? e then a
    else PrimFloat.of_uint63
           (Uint63.of_Z (Z.shiftr (Uint63.to_Z (PrimFloat.normfr_mantissa m)) (53 - e))).

(** The fractional part [modf] returns; it has the sign of its argument. *)
Definition modf_frac (x : double) : double :=
  if PrimFloat.is_nan x then x
  else
    let a := PrimFloat.abs x in
    let frac := if PrimFloat.is_infinity x then PrimFloat.zero
                else PrimFloat.sub a (trunc_abs a) in
    if PrimFloat.get_sign x then PrimFloat.opp frac else frac.

(** The inner [for (j=0;j<n;j++)] of [random_value]: the first [j] whose
    tagged score has the fractional part [a]. *)
Fixpoint random_value_find (p_arr : list double) (a : double) (j : Z) : option Z :=
  match p_arr with
  | [] => None
  | p :: rest =>
      if compare (modf_frac p) a =? 0 then Some (j + 1)
      else random_value_find rest a (j + 1)
  end.

(** The outer [for (i=0;i<n;i++)] of [random_value] over the sorted scores. *)
Fixpoint random_value_scan (sorted p_arr : list double) (random_value : double) : Z :=
  match sorted with
  | [] => 0
  | a :: rest =>
      if compare random_value a =? -1 then
        match random_value_find p_arr a 0 with
        | Some v => v
        | None => random_value_scan rest p_arr random_value
        end
      else random_value_scan rest p_arr (PrimFloat.sub random_value a)
  end.

(** [random_value(arr, p_arr, n)], where [r] is what [rand()] returns. *)
Definition random_value {E : Environment} (arr p_arr : list double) (n : Z) (r : Z) : Z :=
  let arr := firstn (Z.to_nat n) arr in
  let p_arr := firstn (Z.to_nat n) p_arr in
  let sum := fold_left PrimFloat.add arr PrimFloat.zero in
  let random_value :=
    PrimFloat.mul (PrimFloat.div (double_of_int r) (double_of_int RAND_MAX)) sum in
  random_value_scan (qsort arr) p_arr random_value.

(** The body of the loops of [random_guess] for the cell [(i, j)], on the
    board and the number of calls of [rand()] made so far. *)
Definition random_guess_cell {E : Environment} (block_rows block_cols : Z)
           (sol : list double) (x : double) (i j : Z) (s : table * nat) : table * nat :=
  let '(board, calls) := s in
  let N := block_cols * block_rows in
  let '(cnt, tmp, p_tmp) :=
    fold_left
      (fun (acc : Z * list double * list double) k =>
         let '(cnt, tmp, p_tmp) := acc in
         let score := nth (Z.to_nat (i * N * N + j * N + k)) sol PrimFloat.zero in
         if PrimFloat.leb x score && (tget board i j =? 0)
            && status_eqb (is_legal_value board i j (k + 1) block_rows block_cols)
                          LEGAL_VALUE
         then (cnt + 1, upd tmp (Z.to_nat k) score,
               upd p_tmp (Z.to_nat k) (PrimFloat.add score (double_of_int k)))
         else acc)
      (zseq N) (0, repeat PrimFloat.zero (Z.to_nat N), repeat PrimFloat.zero (Z.to_nat N)) in
  if cnt =? 0 then (board, calls)
  else if cnt =? 1 then
    (fold_left (fun b k => if PrimFloat.ltb PrimFloat.zero (nth (Z.to_nat k) tmp PrimFloat.zero)
                           then tset b i j (k + 1) else b)
               (zseq N) board,
     calls)
  else (tset board i j (random_value tmp p_tmp N (rand calls)), S calls).

Definition random_guess {E : Environment} (board : table) (block_rows block_cols : Z)
           (sol : list double) (x : double) (calls : nat) : table * nat :=
  for2 (block_cols * block_rows) (random_guess_cell block_rows block_cols sol x)
       (board, calls).

(** The changes a move is made of, for the cells [select] keeps. *)
Definition changes_between (n : Z) (select : Z -> Z -> bool) (old_board new_board : table)
  : move_node :=
  for2 n (fun cell_rows cell_cols m_node =>
            let o := tget old_board cell_rows cell_cols in
            let v := tget new_board cell_rows cell_cols in
            if select o v then add_change_to_move m_node cell_rows cell_cols o v
            else m_node)
       alloc_move_node.

Definition guess {E : Environment} (x : double) : M RETURN_STATUS :=
  g <- get_state ;;
  let block_rows := block_rows (g_board g) in
  let block_cols := block_cols (g_board g) in
  let N' := block_rows * block_cols in
  let old_board := copy_table (alloc_table N') (board (g_board g)) (N (g_board g)) in
  let '(is_erroneous, g) := update_erroneous g in
  put_state g ;;;
  if negb (is_erroneous =? 0) then
    printf (Printf "Error: board contains erroneous values") ;;; ret PROCESS_SUCCESS
  else
    let board0 := copy_table (alloc_table (N (g_board g))) (board (g_board g))
                             (N (g_board g)) in
    let '(status, _, sol) := solve_board_with_LP board0 block_rows block_cols in
    if status_eqb status ALLOC_FAIL || status_eqb status LP_FAIL then
      printf (Printf "Fatal error while in guess.") ;;;
      printf (Printf "Exiting program without freeing resources..") ;;;
      ret PROCESS_FAIL
    else
      (fun w =>
         let '(b, calls) := random_guess (board (g_board g)) block_rows block_cols
                                         sol x (rand_calls w) in
         (tt, mk_world (with_g_board g (with_board (g_board g) b)) (files w) calls
                       (stdout w))) ;;;
      print_board ;;;
      g <- get_state ;;
      let m_node := changes_between N' (fun o v => (o =? 0) && negb (v =? 0))
                                    old_board (board (g_board g)) in
      put_state (with_m_list g (add_move_node_to_list (m_list g) m_node)) ;;;
      ret PROCESS_SUCCESS.

(** [find_all_legal_values]: the number of legal values, the filled part of
    [legal_values_list] and the board on return. *)
Definition find_all_legal_values (board : table) (cell_rows cell_cols block_rows block_cols : Z)
  : Z * list Z * table :=
  let N := block_rows * block_cols in
  let tmp := tget board cell_rows cell_cols in
  let board := tset board cell_rows cell_cols 0 in
  let legal_values_list :=
    filter (fun val => status_eqb
                         (is_legal_value board cell_rows cell_cols val block_rows block_cols)
                         LEGAL_VALUE)
           (map (fun k => k + 1) (zseq N)) in
  let board := tset board cell_rows cell_cols tmp in
  (Z.of_nat (length legal_values_list), legal_values_list, board).

(** [randomly_extract_a_cell]: the cell, the list after the call and
    [len-1]. *)
Definition randomly_extract_a_cell {E : Environment} (cells_list : list (Z * Z)) (len : Z)
  : M ((Z * Z) * list (Z * Z) * Z) :=
  r <- call_rand ;;
  let chosen_indx := Z.rem r len in
  let cell := nth (Z.to_nat chosen_indx) cells_list (0, 0) in
  let cells_list :=
    if chosen_indx <? len - 1
    then upd cells_list (Z.to_nat chosen_indx) (nth (Z.to_nat (len - 1)) cells_list (0, 0))
    else cells_list in
  ret (cell, cells_list, len - 1).

(** The [while (x)] of [randomly_fill_a_legal_board]; [x] counts down. *)
Fixpoint randomly_fill_loop {E : Environment} (x : nat) (block_rows block_cols : Z)
         (board : table) (legal_cells_list : list (Z * Z)) (empty_cells_num : Z)
  : M (RETURN_STATUS * table) :=
  match x with
  | O => ret (FILL_SUCCESS, board)
  | S x' =>
      r <- randomly_extract_a_cell legal_cells_list empty_cells_num ;;
      let '(cell, legal_cells_list, empty_cells_num) := r in
      let '(num_legal_values, legal_values_list, board) :=
        find_all_legal_values board (fst cell) (snd cell) block_rows block_cols in
      if num_legal_values =? 0 then ret (FILL_FAIL, board)
      else
        r <- call_rand ;;
        let val := nth (Z.to_nat (Z.rem r num_legal_values)) legal_values_list 0 in
        randomly_fill_loop x' block_rows block_cols
                           (tset board (fst cell) (snd cell) val)
                           legal_cells_list empty_cells_num
  end.

(** [randomly_fill_a_legal_board], for [x >= 0] as [process_generate]
    guarantees. *)
Definition randomly_fill_a_legal_board {E : Environment} (board : table)
           (x block_rows block_cols : Z) : M (RETURN_STATUS * table) :=
  let N := block_rows * block_cols in
  if x =? 0 then ret (FILL_SUCCESS, board)
  else randomly_fill_loop (Z.to_nat x) block_rows block_cols board (all_cells N) (N * N).

Definition put_board (b : table) : M unit :=
  g <- get_state ;; put_state (with_g_board g (with_board (g_board g) b)).

(** The [while(maximal_num_of_tries)] of [randomly_generate_board]. *)
Fixpoint randomly_generate_loop {E : Environment} (maximal_num_of_tries : nat)
         (old_board : table) (x : Z) : M RETURN_STATUS :=
  match maximal_num_of_tries with
  | O => ret GENERATE_FAIL
  | S tries =>
      g <- get_state ;;
      let gb := g_board g in
      r <- randomly_fill_a_legal_board (board gb) x (block_rows gb) (block_cols gb) ;;
      let '(status, b) := r in
      put_board b ;;;
      if status_eqb status PROCESS_FAIL then ret status
      else
        again <-
          (if status_eqb status FILL_SUCCESS then
             let '(status, b) := solve_board_with_ILP b (block_rows gb) (block_cols gb) in
             put_board b ;;;
             if status_eqb status ALLOC_FAIL || status_eqb status ILP_FAIL
             then ret (Some PROCESS_FAIL)
             else if status_eqb status BOARD_SOLVABLE then ret (Some GENERATE_SUCCESS)
             else ret None
           else ret None) ;;
        match again with
        | Some status => ret status
        | None =>
            g <- get_state ;;
            put_board (copy_table (board (g_board g)) old_board (N gb)) ;;;
            randomly_generate_loop tries old_board x
        end
  end.

Definition randomly_generate_board {E : Environment} (x : Z) : M RETURN_STATUS :=
  g <- get_state ;;
  let n := N (g_board g) in
  let old_board := copy_table (alloc_table n) (board (g_board g)) n in
  randomly_generate_loop 1000 old_board x.

(** The [while(y)] of [partially_clear_board]. *)
Fixpoint choose_cells_to_keep {E : Environment} (y : nat) (legal_cells_list : list (Z * Z))
         (num_filled_cells : Z) : M (list (Z * Z)) :=
  match y with
  | O => ret legal_cells_list
  | S y' =>
      r <- randomly_extract_a_cell legal_cells_list num_filled_cells ;;
      let '(_, legal_cells_list, num_filled_cells) := r in
      choose_cells_to_keep y' legal_cells_list num_filled_cells
  end.

Definition partially_clear_board {E : Environment} (board : table) (y n : Z)
  : M (RETURN_STATUS * table) :=
  let num_filled_cells := n * n in
  let num_empty_cells := num_filled_cells - y in
  if y =? num_filled_cells then ret (PROCESS_SUCCESS, board)
  else
    legal_cells_list <- choose_cells_to_keep (Z.to_nat y) (all_cells n) num_filled_cells ;;
    ret (PROCESS_SUCCESS,
         fold_left (fun b i => let c := nth (Z.to_nat i) legal_cells_list (0, 0) in
                               tset b (fst c) (snd c) 0)
                   (zseq num_empty_cells) board).

Definition generate {E : Environment} (x y : Z) : M RETURN_STATUS :=
  g <- get_state ;;
  let n := N (g_board g) in
  if empty_cells_num (g_board g) <? x then
    printf (Printf "Error: number of empty cells too low") ;;; ret PROCESS_SUCCESS
  else
    let old_board := copy_table (alloc_table n) (board (g_board g)) n in
    status <- randomly_generate_board x ;;
    if status_eqb status PROCESS_FAIL then
      printf (Printf "Fatal error while generating board.") ;;;
      printf (Printf "Exiting program without freeing resources..") ;;;
      ret PROCESS_FAIL
    else if status_eqb status GENERATE_FAIL then
      printf (Printf "Error: puzzle generator failed") ;;; ret PROCESS_SUCCESS
    else
      g <- get_state ;;
      r <- partially_clear_board (board (g_board g)) y (N (g_board g)) ;;
      put_board (snd r) ;;;
      g <- get_state ;;
      let m_node := changes_between n (fun o v => negb (v =? 0) || negb (o =? 0))
                                    old_board (board (g_board g)) in
      (if y >? 0
       then put_state (with_m_list g (add_move_node_to_list (m_list g) m_node))
       else ret tt) ;;;
      print_board ;;;
      g <- get_state ;;
      put_state (with_g_board g (with_empty_cells_num (g_board g) (n * n - y))) ;;;
      ret PROCESS_SUCCESS.

Definition change_cell (g : game_state) (cell_rows cell_cols from to : Z) : game_state :=
  let before_filled := b2z (negb (from =? 0)) in
  let after_filled := b2z (negb (to =? 0)) in
  let gb := g_board g in
  let gb := with_board gb (tset (board gb) cell_rows cell_cols to) in
  let gb := with_empty_cells_num gb (empty_cells_num gb - (after_filled - before_filled)) in
  with_g_board g gb.

(** The [while(c_node_p)] loops of [undo] and [reset]: every change of the
    move is reverted, from the head of the list to its tail. *)
Definition revert_changes (g : game_state) (changes : list change_node) : game_state :=
  fold_left (fun g c => change_cell g (cell_rows c) (cell_cols c) (z2 c) (z1 c)) changes g.

(** The [while(c_node_p)] loop of [redo]. *)
Definition apply_changes (g : game_state) (changes : list change_node) : game_state :=
  fold_left (fun g c => change_cell g (cell_rows c) (cell_cols c) (z1 c) (z2 c)) changes g.

Fixpoint print_all (l : list output) : M unit :=
  match l with
  | [] => ret tt
  | o :: rest => printf o ;;; print_all rest
  end.

Definition undo : M RETURN_STATUS :=
  g <- get_state ;;
  if negb (can_undo (m_list g)) then
    printf (Printf "Error: no moves to undo") ;;; ret PROCESS_SUCCESS
  else
    put_state (revert_changes g (get_curr_pointer_changes_iter (m_list g))) ;;;
    print_board ;;;
    g <- get_state ;;
    print_all (map (fun c => Printf_d "Undo %d,%d: from %s to %s"
                                      [cell_cols c + 1; cell_rows c + 1; z2 c; z1 c])
                   (get_curr_pointer_changes_iter (m_list g))) ;;;
    put_state (with_m_list g (dec_curr_pointer (m_list g))) ;;;
    ret PROCESS_SUCCESS.

Definition redo : M RETURN_STATUS :=
  g <- get_state ;;
  if negb (can_redo (m_list g)) then
    printf (Printf "Error: no moves to redo") ;;; ret PROCESS_SUCCESS
  else
    let g := with_m_list g (inc_curr_pointer (m_list g)) in
    put_state (apply_changes g (get_curr_pointer_changes_iter (m_list g))) ;;;
    print_board ;;;
    g <- get_state ;;
    print_all (map (fun c => Printf_d "Redo %d,%d: from %s to %s"
                                      [cell_cols c + 1; cell_rows c + 1; z1 c; z2 c])
                   (get_curr_pointer_changes_iter (m_list g))) ;;;
    ret PROCESS_SUCCESS.

Definition save {E : Environment} (file_path : string) : M RETURN_STATUS :=
  g <- get_state ;;
  let tmp_fixed := fixed (g_board g) in
  proceed <-
    (if mode_eqb (mode g) Edit then
       let '(is_erroneous, g) := update_erroneous g in
       put_state g ;;;
       if negb (is_erroneous =? 0) then
         printf (Printf "Error: board contains erroneous values") ;;;
         ret (Some PROCESS_SUCCESS)
       else
         let status := is_valid_board g in
         if status_eqb status PROCESS_FAIL then
           printf (Printf "Fatal error while validating board.") ;;;
           printf (Printf "Exiting program without freeing resources..") ;;;
           ret (Some PROCESS_FAIL)
         else if status_eqb status BOARD_UNSOLVABLE then
           printf (Printf "Error: board validation failed") ;;; ret (Some PROCESS_SUCCESS)
         else
           put_state (with_g_board g (with_fixed (g_board g) (board (g_board g)))) ;;;
           ret None
     else ret None) ;;
  match proceed with
  | Some status => ret status
  | None =>
      g <- get_state ;;
      status <- save_game (g_board g) file_path ;;
      (if status_eqb status IO_FAIL
       then printf (Printf "Error: File cannot be created or modified")
       else printf (Printf_s "Saved in file: %s" file_path)) ;;;
      g <- get_state ;;
      put_state (with_g_board g (with_fixed (g_board g) tmp_fixed)) ;;;
      ret PROCESS_SUCCESS
  end.

Definition hint {E : Environment} (x y : Z) : M RETURN_STATUS :=
  let cell_rows := y - 1 in
  let cell_cols := x - 1 in
  g <- get_state ;;
  let '(is_erroneous, g) := update_erroneous g in
  put_state g ;;;
  if negb (is_erroneous =? 0) then
    printf (Printf "Error: board contains erroneous values") ;;; ret PROCESS_SUCCESS
  else if negb (tget (fixed (g_board g)) cell_rows cell_cols =? 0) then
    printf (Printf "Error: cell is fixed") ;;; ret PROCESS_SUCCESS
  else if negb (tget (board (g_board g)) cell_rows cell_cols =? 0) then
    printf (Printf "Error: cell already contains a value") ;;; ret PROCESS_SUCCESS
  else
    let n := N (g_board g) in
    let board0 := copy_table (alloc_table n) (board (g_board g)) n in
    let '(status, board0) :=
      solve_board_with_ILP board0 (block_rows (g_board g)) (block_cols (g_board g)) in
    if status_eqb status ALLOC_FAIL || status_eqb status ILP_FAIL then
      printf (Printf "Fatal error while getting a hint.") ;;;
      printf (Printf "Exiting program without freeing resources..") ;;;
      ret PROCESS_FAIL
    else if status_eqb status BOARD_SOLVABLE then
      printf (Printf_d "Hint: set cell to %d" [tget board0 cell_rows cell_cols]) ;;;
      ret PROCESS_SUCCESS
    else
      printf (Printf "Error: board is unsolvable") ;;; ret PROCESS_SUCCESS.

Definition guess_hint {E : Environment} (x y : Z) : M RETURN_STATUS :=
  g <- get_state ;;
  let block_rows := block_rows (g_board g) in
  let block_cols := block_cols (g_board g) in
  let cell_rows := y - 1 in
  let cell_cols := x - 1 in
  let N' := block_rows * block_cols in
  let '(is_erroneous, g) := update_erroneous g in
  put_state g ;;;
  if negb (is_erroneous =? 0) then
    printf (Printf "Error: board contains erroneous values") ;;; ret PROCESS_SUCCESS
  else if negb (tget (fixed (g_board g)) cell_rows cell_cols =? 0) then
    printf (Printf "Error: cell is fixed") ;;; ret PROCESS_SUCCESS
  else if negb (tget (board (g_board g)) cell_rows cell_cols =? 0) then
    printf (Printf "Error: cell already contains a value") ;;; ret PROCESS_SUCCESS
  else
    let n := N (g_board g) in
    let board0 := copy_table (alloc_table n) (board (g_board g)) n in
    let '(status, _, sol) := solve_board_with_LP board0 block_rows block_cols in
    if status_eqb status ALLOC_FAIL || status_eqb status LP_FAIL then
      printf (Printf "Fatal error while guessing hint.") ;;;
      printf (Printf "Exiting program without freeing resources..") ;;;
      ret PROCESS_FAIL
    else if status_eqb status BOARD_SOLVABLE then
      printf (Printf_d "The legal values (and their scores) for %d %d:"
                       [cell_cols + 1; cell_rows + 1]) ;;;
      print_all
        (flat_map (fun k =>
                     let score := nth (Z.to_nat (cell_rows * N' * N' + cell_cols * N' + k))
                                      sol PrimFloat.zero in
                     if PrimFloat.ltb PrimFloat.zero score
                     then [Printf_score (k + 1) score] else [])
                  (zseq N')) ;;;
      ret PROCESS_SUCCESS
    else
      printf (Printf "Error: board is unsolvable") ;;; ret PROCESS_SUCCESS.

(** [num_solutions]; [None] when [backTrack] has not returned within
    [fuel] iterations of its loop. *)
Definition num_solutions (fuel : nat) : world -> option (RETURN_STATUS * world) :=
  fun w =>
    let g := g_state w in
    let '(is_erroneous, g) := update_erroneous g in
    let w := snd (put_state g w) in
    if negb (is_erroneous =? 0) then
      Some ((printf (Printf "Error: board contains erroneous values") ;;;
             ret PROCESS_SUCCESS) w)
    else
      let n := N (g_board g) in
      let board0 := copy_table (alloc_table n) (board (g_board g)) n in
      match backTrack fuel board0 (block_rows (g_board g)) (block_cols (g_board g)) with
      | None => None
      | Some (_, num_of_solutions, _) =>
          Some ((printf (Printf_d "Number of solutions: %d" [num_of_solutions]) ;;;
                 ret PROCESS_SUCCESS) w)
      end.

(** The [while(can_undo(..))] of [reset]; every iteration moves the current
    pointer one node towards the sentinel, so [n] iterations are enough when
    the pointer is at position [n]. *)
Fixpoint reset_loop (n : nat) (g : game_state) : game_state :=
  match n with
  | O => g
  | S n' =>
      if can_undo (m_list g) then
        let g := revert_changes g (get_curr_pointer_changes_iter (m_list g)) in
        reset_loop n' (with_m_list g (dec_curr_pointer (m_list g)))
      else g
  end.

Definition reset : M RETURN_STATUS :=
  g <- get_state ;;
  put_state (reset_loop (curr_pointer (m_list g)) g) ;;;
  print_board ;;;
  ret PROCESS_SUCCESS.

(** The body of the loops of [autofill], on the game state, the snapshot
    [old_board], the move under construction and what has been printed. *)
Definition autofill_cell (cell_rows cell_cols : Z)
           (s : game_state * table * move_node * list output)
  : game_state * table * move_node * list output :=
  let '(g, old_board, m_node, out) := s in
  if tget old_board cell_rows cell_cols =? 0 then
    let '(num_legal_values, legal_values_list, old_board) :=
      find_all_legal_values old_board cell_rows cell_cols
                            (block_rows (g_board g)) (block_cols (g_board g)) in
    if num_legal_values =? 1 then
      let v := nth 0 legal_values_list 0 in
      (change_cell g cell_rows cell_cols 0 v, old_board,
       add_change_to_move m_node cell_rows cell_cols 0 v,
       out ++ [Printf_d "Cell <%d,%d> set to %d" [cell_cols + 1; cell_rows + 1; v]])
    else (g, old_board, m_node, out)
  else s.

(** The loops of [autofill] over the snapshot [old_board] and the update
    of the history that follows them: the game state they leave and what
    they print. *)
Definition autofill_changes (g : game_state) : game_state * list output :=
  let n := N (g_board g) in
  let old_board := copy_table (alloc_table n) (board (g_board g)) n in
  let '(g, _, m_node, out) := for2 n autofill_cell (g, old_board, alloc_move_node, []) in
  (match m_node with
   | [] => g
   | _ :: _ => with_m_list g (add_move_node_to_list (m_list g) m_node)
   end, out).

Definition autofill {E : Environment} : M RETURN_STATUS :=
  g <- get_state ;;
  let '(is_erroneous, g) := update_erroneous g in
  put_state g ;;;
  if negb (is_erroneous =? 0) then
    printf (Printf "Error: board contains erroneous values") ;;; ret PROCESS_SUCCESS
  else
    let '(g, out) := autofill_changes g in
    print_all out ;;;
    put_state g ;;;
    print_board ;;;
    g <- get_state ;;
    if empty_cells_num (g_board g) =? 0
    then check_filled_board
    else ret PROCESS_SUCCESS.

(** ** Game_Operator.c *)

Inductive COMMAND_TYPE : Set :=
| SOLVE | EDIT | MARK_ERRORS | PRINT_BOARD | SET | VALIDATE | GENERATE | UNDO | REDO
| SAVE | HINT | GUESS_HINT | GUESS | NUM_SOLUTIONS | AUTOFILL | RESET | EXIT
| INVALID_COMMAND | INVALID_PARA_NUM | DEFAULT_COMMAND.

Record command : Set := mk_command {
  cmd_type : COMMAND_TYPE;
  parameters : list Z;
  para : double;
  file_path : option string
}.

Definition parameter (cmd : command) (i : nat) : Z := nth i (parameters cmd) 0.

Definition print_invalid_mode (cmd : command) : M unit :=
  printf (Printf "ERROR: command unavailable in current mode, it is ") ;;;
  match cmd_type cmd with
  | PRINT_BOARD | VALIDATE | UNDO | REDO | NUM_SOLUTIONS | RESET | SAVE | SET =>
      printf (Printf "available in Solve and Edit modes")
  | GUESS_HINT | AUTOFILL | HINT | MARK_ERRORS | GUESS =>
      printf (Printf "available in Solve mode only")
  | GENERATE => printf (Printf "available in Edit mode only")
  | _ => printf (Printf "not supposed to be here.")
  end.

(** The range checks of [process_set], [process_generate], [process_hint]
    and [process_guess_hint]: parameter [i] must lie in [[lo i, hi]]. *)
Definition parameters_in_range (cmd : command) (count : nat) (lo : nat -> Z) (hi : Z) : bool :=
  forallb (fun i => negb (parameter cmd i <? lo i) && negb (parameter cmd i >? hi))
          (seq 0 count).

Definition process_set {E : Environment} (cmd : command) : M RETURN_STATUS :=
  g <- get_state ;;
  let n := N (g_board g) in
  if parameters_in_range cmd 3 (fun i => 1 - Z.quot (Z.of_nat i) 2) n
  then set (parameter cmd 0) (parameter cmd 1) (parameter cmd 2)
  else printf (Printf_d "Error: value not in range 0-%d" [n]) ;;; ret PROCESS_SUCCESS.

Definition process_generate {E : Environment} (cmd : command) : M RETURN_STATUS :=
  g <- get_state ;;
  let e := N (g_board g) * N (g_board g) in
  if parameters_in_range cmd 2 (fun _ => 0) e
  then generate (parameter cmd 0) (parameter cmd 1)
  else printf (Printf_d "Error: value not in range 0-%d" [e]) ;;; ret PROCESS_SUCCESS.

Definition process_hint {E : Environment} (cmd : command) : M RETURN_STATUS :=
  g <- get_state ;;
  let n := N (g_board g) in
  if parameters_in_range cmd 2 (fun _ => 1) n
  then hint (parameter cmd 0) (parameter cmd 1)
  else printf (Printf_d "Error: value not in range 1-%d" [n]) ;;; ret PROCESS_SUCCESS.

Definition process_guess_hint {E : Environment} (cmd : command) : M RETURN_STATUS :=
  g <- get_state ;;
  let n := N (g_board g) in
  if parameters_in_range cmd 2 (fun _ => 1) n
  then guess_hint (parameter cmd 0) (parameter cmd 1)
  else printf (Printf_d "Error: value not in range 1-%d" [n]) ;;; ret PROCESS_SUCCESS.

Definition process_mark_errors (cmd : command) : M RETURN_STATUS :=
  if (parameter cmd 0 =? 0) || (parameter cmd 0 =? 1) then
    g <- get_state ;; put_state (with_mark_errors g (parameter cmd 0)) ;;;
    ret PROCESS_SUCCESS
  else printf (Printf "Error: the value should be 0 or 1") ;;; ret PROCESS_SUCCESS.

Definition process_guess {E : Environment} (cmd : command) : M RETURN_STATUS :=
  if PrimFloat.ltb PrimFloat.one (para cmd) || PrimFloat.ltb (para cmd) PrimFloat.zero then
    printf (Printf "Error: the value should be from 0 to 1") ;;; ret PROCESS_SUCCESS
  else guess (para cmd).

(** [solve] is given the path the parser found; a missing path cannot be
    opened. *)
Definition path_of (cmd : command) : string :=
  match file_path cmd with
  | Some p => p
  | None => EmptyString
  end.

Definition process_command_init (cmd : command) : M RETURN_STATUS :=
  match cmd_type cmd with
  | SOLVE => solve (path_of cmd)
  | EDIT => edit (file_path cmd)
  | _ => print_invalid_mode cmd ;;; ret PROCESS_SUCCESS
  end.

Definition total {A : Type} (m : M A) : world -> option (A * world) :=
  fun w => Some (m w).

(** Only in the mode [m]. *)
Definition only_in (m : GAME_MODE) (cmd : command) (k : M RETURN_STATUS) : M RETURN_STATUS :=
  g <- get_state ;;
  if negb (mode_eqb (mode g) m)
  then print_invalid_mode cmd ;;; ret PROCESS_SUCCESS
  else k.

(** [process_command]; [fuel] bounds the loop of [backTrack]. *)
Definition process_command {E : Environment} (fuel : nat) (cmd : command)
  : world -> option (RETURN_STATUS * world) :=
  fun w =>
    if mode_eqb (mode (g_state w)) Init then total (process_command_init cmd) w
    else
      match cmd_type cmd with
      | SOLVE => total (solve (path_of cmd)) w
      | EDIT => total (edit (file_path cmd)) w
      | PRINT_BOARD => total (print_board ;;; ret PROCESS_SUCCESS) w
      | VALIDATE => total validate w
      | GUESS_HINT => total (only_in Solve cmd (process_guess_hint cmd)) w
      | UNDO => total undo w
      | REDO => total redo w
      | NUM_SOLUTIONS => num_solutions fuel w
      | RESET => total reset w
      | AUTOFILL => total (only_in Solve cmd autofill) w
      | SAVE => total (save (path_of cmd)) w
      | HINT => total (only_in Solve cmd (process_hint cmd)) w
      | GENERATE => total (only_in Edit cmd (process_generate cmd)) w
      | GUESS => total (only_in Solve cmd (process_guess cmd)) w
      | MARK_ERRORS => total (only_in Solve cmd (process_mark_errors cmd)) w
      | SET => total (process_set cmd) w
      | _ => total (printf (Printf "ERROR: invalid command") ;;; ret PROCESS_FAIL) w
      end.

Definition initialize_game_aux_struct (g : game_state) : game_state :=
  mk_state Init 1 (m_list g) (g_board g) 0.

(** ** Board_Print.c

    What [board_print] writes on the standard output, as the list of its
    lines; the newline that ends each line is left out. *)

(** The digits [printf("%d", v)] writes. *)
Definition print_d (v : Z) : string := NilZero.string_of_int (Z.to_int v).

(** [printf("%2d", v)]: the digits, after as many spaces as it takes to
    fill two characters. *)
Definition print_2d (v : Z) : string :=
  String.append
    (string_of_list_ascii (repeat " "%char (2 - String.length (print_d v))))
    (print_d v).

(** The dashes of [seprator_row]. *)
Definition seprator_row (N block_rows : Z) : string :=
  string_of_list_ascii (repeat "-"%char (Z.to_nat (4 * N + block_rows + 1))).

Definition cell_row (board fixed_tabel err_tabel : table) (row col mark_err : Z) : string :=
  String.append
    " "
    (String.append
       (if negb (tget board row col =? 0) then print_2d (tget board row col) else "  ")
       (if negb (tget fixed_tabel row col =? 0) && negb (tget board row col =? 0)
        then "."
        else if negb (tget err_tabel row col =? 0) && (tget fixed_tabel row col =? 0)
                && negb (mark_err =? 0) && negb (tget board row col =? 0)
             then "*"
             else " ")).

(** The line of the row [row]: for each of the [block_rows] blocks it
    crosses, a bar and the [block_cols] cells of the block; then a bar. *)
Definition board_row (board fixed_tabel err_tabel : table)
           (block_rows block_cols mark_err row : Z) : string :=
  String.append
    (String.concat
       ""
       (map (fun i =>
               String.append
                 "|"
                 (String.concat
                    ""
                    (map (fun col => cell_row board fixed_tabel err_tabel row
                                              (block_cols * i + col) mark_err)
                         (zseq block_cols))))
            (zseq block_rows)))
    "|".

Definition board_print (board fixed_tabel err_tabel : table)
           (block_rows block_cols mark_err : Z) : list string :=
  let N := block_cols * block_rows in
  seprator_row N block_rows
  :: flat_map (fun row =>
                 board_row board fixed_tabel err_tabel block_rows block_cols mark_err row
                 :: (if Z.rem (row + 1) block_rows =? 0
                     then [seprator_row N block_rows] else []))
              (zseq N).

(** ** What the properties are stated with *)

Definition in_range (n : Z) (c : Z * Z) : Prop :=
  0 <= fst c < n /\ 0 <= snd c < n.

(** A table of dimension [n]: [n] rows of [n] entries. *)
Definition table_of_dim (n : Z) (t : table) : Prop :=
  length t = Z.to_nat n /\ forall r, In r t -> length r = Z.to_nat n.

Definition cell_eqb (c c' : Z * Z) : bool :=
  (fst c =? fst c') && (snd c =? snd c').

(** [c'] lies in the row, in the column or in the block of [c]. *)
Definition same_unit (block_rows block_cols : Z) (c c' : Z * Z) : bool :=
  (fst c =? fst c') || (snd c =? snd c')
  || ((fst c / block_rows =? fst c' / block_rows)
      && (snd c / block_cols =? snd c' / block_cols)).

(** The value of the cell [(i, j)] duplicates the value of another cell of
    its row, column or block. *)
Definition conflicts (b : table) (block_rows block_cols i j : Z) : bool :=
  existsb (fun c' => negb (cell_eqb (i, j) c')
                     && same_unit block_rows block_cols (i, j) c'
                     && (tget b (fst c') (snd c') =? tget b i j))
          (all_cells (block_rows * block_cols)).

(** No filled cell duplicates a value of its row, column or block. *)
Definition no_duplicates (b : table) (block_rows block_cols : Z) : bool :=
  forallb (fun c => (tget b (fst c) (snd c) =? 0)
                    || negb (conflicts b block_rows block_cols (fst c) (snd c)))
          (all_cells (block_rows * block_cols)).

(** The empty cells of a board, row by row. *)
Definition empty_cells (b : table) (n : Z) : list (Z * Z) :=
  filter (fun c => tget b (fst c) (snd c) =? 0) (all_cells n).

(** The values [1..n]. *)
Definition values (n : Z) : list Z := map (fun k => k + 1) (zseq n).

(** All the ways to give [k] cells a value in [1..n] each. *)
Fixpoint assignments (n : Z) (k : nat) : list (list Z) :=
  match k with
  | O => [[]]
  | S k' => flat_map (fun v => map (cons v) (assignments n k')) (values n)
  end.

(** The board with the cells [cells] given the values [vs], in order. *)
Fixpoint fill (b : table) (cells : list (Z * Z)) (vs : list Z) : table :=
  match cells, vs with
  | c :: cells', v :: vs' => fill (tset b (fst c) (snd c) v) cells' vs'
  | _, _ => b
  end.

(** The assignments of [1..N] to the empty cells of [b] under which no row,
    column or block holds a value twice. *)
Definition completions (b : table) (block_rows block_cols : Z) : list (list Z) :=
  let n := block_rows * block_cols in
  filter (fun vs => no_duplicates (fill b (empty_cells b n) vs) block_rows block_cols)
         (assignments n (length (empty_cells b n))).

Definition count_completions (b : table) (block_rows block_cols : Z) : Z :=
  Z.of_nat (length (completions b block_rows block_cols)).

(** The number of cells [(i, j)] of a board of dimension [n] whose value
    is 0. *)
Definition count_empty (b : table) (n : Z) : Z :=
  Z.of_nat (length (empty_cells b n)).

(** The game board is made of three tables of dimension
    [N = block_rows * block_cols]. *)
Definition board_wf (gb : game_board) : Prop :=
  0 < block_rows gb /\ 0 < block_cols gb /\
  N gb = block_rows gb * block_cols gb /\
  table_of_dim (N gb) (board gb) /\
  table_of_dim (N gb) (err gb) /\
  table_of_dim (N gb) (fixed gb).

(** [undo] performed again and again until [can_undo] is false, at most
    [n] times. *)
Fixpoint undo_until_done (n : nat) (w : world) : world :=
  match n with
  | O => w
  | S n' =>
      if can_undo (m_list (g_state w))
      then undo_until_done n' (snd (undo w))
      else w
  end.

(** The commands the game loop hands to [process_command]. *)
Definition dispatched (cmd : command) : Prop :=
  cmd_type cmd <> EXIT /\ cmd_type cmd <> INVALID_COMMAND /\
  cmd_type cmd <> INVALID_PARA_NUM.

(** The states of the world the game loop can be in before it reads a
    command. *)
Inductive reachable {E : Environment} : world -> Prop :=
| reachable_start : forall g fs calls out,
    reachable (mk_world (initialize_game_aux_struct g) fs calls out)
| reachable_step : forall w fuel cmd w',
    reachable w -> dispatched cmd ->
    process_command fuel cmd w = Some (PROCESS_SUCCESS, w') ->
    reachable w'.

(** The commands of a list, one after the other, as long as none is
    fatal. *)
Fixpoint run {E : Environment} (fuel : nat) (cmds : list command) (w : world)
  : option world :=
  match cmds with
  | [] => Some w
  | cmd :: rest =>
      match process_command fuel cmd w with
      | Some (PROCESS_SUCCESS, w') => run fuel rest w'
      | _ => None
      end
  end.

(** The part of the recursion of the enumerator a stack frame stands for:
    the number of ways to fill the cells [cells] of [b], each value legal
    when it is written. *)
Fixpoint count_from (block_rows block_cols : Z) (cells : list (Z * Z)) (b : table) : Z :=
  match cells with
  | [] => 1
  | c :: cells' =>
      fold_right
        (fun v acc =>
           (if status_eqb (is_legal_value b (fst c) (snd c) v block_rows block_cols)
                          LEGAL_VALUE
            then count_from block_rows block_cols cells' (tset b (fst c) (snd c) v)
            else 0) + acc)
        0 (values (block_rows * block_cols))
  end.

(** The cell at position [p] of the row-by-row order. *)
Definition cell_of (n : Z) (p : nat) : Z * Z :=
  (Z.of_nat p / n, Z.of_nat p mod n).

(** The empty cells from position [p] on. *)
Definition empty_from (b : table) (n : Z) (p : nat) : list (Z * Z) :=
  filter (fun c => tget b (fst c) (snd c) =? 0)
         (map (cell_of n) (seq p (Z.to_nat (n * n) - p))).

(** The frame pushed for the next cell to fill. *)
Definition frame_of (cells : list (Z * Z)) : node :=
  match cells with
  | [] => mk_node (-1) (-1) 1
  | c :: _ => mk_node (fst c) (snd c) 1
  end.

(** The values [num, num+1, ..] still to try in a frame. *)
Definition values_from (num : Z) (len : nat) : list Z :=
  map (fun k => num + Z.of_nat k) (seq 0 len).

(** What the values [vs] contribute to the count for the cell [c]. *)
Definition sum_values (br bc : Z) (c : Z * Z) (cells : list (Z * Z)) (b : table)
           (vs : list Z) : Z :=
  fold_right
    (fun v acc =>
       (if status_eqb (is_legal_value b (fst c) (snd c) v br bc) LEGAL_VALUE
        then count_from br bc cells (tset b (fst c) (snd c) v)
        else 0) + acc)
    0 vs.

(** [runs br bc m s s']: [m] iterations of the loop of [backTrack] lead
    from [s] to [s']. *)
Definition runs (br bc : Z) (m : nat) (s s' : bt_state) : Prop :=
  forall f, backTrack_loop (m + f) br bc s = backTrack_loop f br bc s'.

(** The number of ways to give the cells [cells] of [b] a value in [1..N]
    each so that the board has no duplicate. *)
Definition count_fillings (br bc : Z) (cells : list (Z * Z)) (b : table) : Z :=
  Z.of_nat (length (filter (fun vs => no_duplicates (fill b cells vs) br bc)
                           (assignments (br * bc) (length cells)))).

(** Cells that can be filled one after the other: all different, on the
    board and empty. *)
Definition fillable (n : Z) (b : table) (cells : list (Z * Z)) : Prop :=
  NoDup cells /\
  forall c, In c cells -> in_range n c /\ tget b (fst c) (snd c) = 0.

(** The board values, the fixed table, [empty_cells_num], the mode and
    the history of [g'] are those of [g]. *)
Definition frame_kept (g g' : game_state) : Prop :=
  board (g_board g') = board (g_board g) /\
  fixed (g_board g') = fixed (g_board g) /\
  empty_cells_num (g_board g') = empty_cells_num (g_board g) /\
  mode g' = mode g /\
  m_list g' = m_list g.

(** What [undo], [redo] and [reset] work on: the board values,
    [empty_cells_num] and the history. *)
Definition core (g : game_state) : table * Z * moves_list :=
  (board (g_board g), empty_cells_num (g_board g), m_list g).

(** [g'] differs from [g] in the board values at most. *)
Definition only_board (g g' : game_state) : Prop :=
  g' = with_g_board g (with_board (g_board g) (board (g_board g'))).

(** From [g] to [g'] the mode and the fixed table are kept, or the game
    has left Edit mode, or no cell is fixed. *)
Definition fixed_step (g g' : game_state) : Prop :=
  (mode g' = mode g /\ fixed (g_board g') = fixed (g_board g))
  \/ mode g' <> Edit
  \/ (forall i j, tget (fixed (g_board g')) i j = 0).

(** In Edit mode no cell is fixed. *)
Definition edit_unfixed (g : game_state) : Prop :=
  mode g = Edit -> forall i j, tget (fixed (g_board g)) i j = 0.

(** [table_of_dim] and [board_wf], decided. *)
Definition table_of_dimb (n : Z) (t : table) : bool :=
  (length t =? Z.to_nat n)%nat && forallb (fun r => (length r =? Z.to_nat n)%nat) t.

Definition board_wfb (gb : game_board) : bool :=
  (0 <? block_rows gb) && (0 <? block_cols gb)
  && (N gb =? block_rows gb * block_cols gb)
  && table_of_dimb (N gb) (board gb)
  && table_of_dimb (N gb) (err gb)
  && table_of_dimb (N gb) (fixed gb).

(** The changes of a move that are about the cell [(i, j)]. *)
Definition changes_of_cell (m_node : move_node) (i j : Z) : list change_node :=
  filter (fun ch => cell_eqb (cell_rows ch, cell_cols ch) (i, j)) m_node.

(** The cells [generate] records a change for: those filled before or
    after. *)
Definition filled_before_or_after (o v : Z) : bool :=
  negb (v =? 0) || negb (o =? 0).

(** The two verdicts on a board whose cells are all filled. *)
Definition solved_message : output := Printf "Puzzle solved successfully".

Definition erroneous_message : output := Printf "Puzzle solution erroneous".

(** [g'] is [g] with its [err] marks refreshed at most. *)
Definition same_but_err (g g' : game_state) : Prop :=
  g' = with_g_board g (with_err (g_board g) (err (g_board g'))).

(** What the check of the filled board of [g1] leaves in the world [w']:
    on a solvable board the game is freed and back in Init mode, on an
    unsolvable one it stays as it is, in Solve mode; the verdict is the
    last thing printed. *)
Definition check_outcome {E : Environment} (g1 : game_state) (w' : world) : Prop :=
  (is_valid_board g1 = BOARD_SOLVABLE ->
   mode (g_state w') = Init /\ valid (g_state w') = 0
   /\ (exists g2, same_but_err g1 g2 /\ g_state w' = free_game g2)
   /\ exists out, stdout w' = out ++ [solved_message])
  /\ (is_valid_board g1 = BOARD_UNSOLVABLE ->
      mode (g_state w') = Solve /\ same_but_err g1 (g_state w')
      /\ exists out, stdout w' = out ++ [erroneous_message]).

(** The board after the cells of [changes] have been written in turn,
    each with the value [value] picks. *)
Definition write_all (value : change_node -> Z) (changes : list change_node)
           (b : table) : table :=
  fold_left (fun b ch => tset b (cell_rows ch) (cell_cols ch) (value ch)) changes b.

(** How many more cells are filled after [changes] than before. *)
Definition filled_delta (changes : list change_node) : Z :=
  fold_right (fun ch acc => b2z (negb (z2 ch =? 0)) - b2z (negb (z1 ch =? 0)) + acc)
             0 changes.

(** The current move of the history agrees with the board: the cells it
    changed are cells of the board and hold the values it left. *)
Definition move_agrees (g : game_state) : Prop :=
  forall ch, In ch (get_curr_pointer_changes_iter (m_list g)) ->
             in_range (N (g_board g)) (cell_rows ch, cell_cols ch)
             /\ tget (board (g_board g)) (cell_rows ch) (cell_cols ch) = z2 ch.

(** The move after the current one agrees with the board: the cells it
    changes are cells of the board and hold the values it changes them
    from. *)
Definition next_move_agrees (g : game_state) : Prop :=
  forall ch, In ch (get_curr_pointer_changes_iter (inc_curr_pointer (m_list g))) ->
             in_range (N (g_board g)) (cell_rows ch, cell_cols ch)
             /\ tget (board (g_board g)) (cell_rows ch) (cell_cols ch) = z1 ch.

(** The modes a command is available in, as [print_available_modes] words
    them: [solve] and [edit] in every mode, [generate] in Edit mode only,
    [mark_errors], [hint], [guess], [guess_hint] and [autofill] in Solve
    mode only, the others in Solve and Edit modes. *)
Definition available (m : GAME_MODE) (t : COMMAND_TYPE) : bool :=
  match t with
  | SOLVE | EDIT => true
  | GENERATE => mode_eqb m Edit
  | MARK_ERRORS | HINT | GUESS | GUESS_HINT | AUTOFILL => mode_eqb m Solve
  | PRINT_BOARD | VALIDATE | UNDO | REDO | NUM_SOLUTIONS | RESET | SAVE | SET =>
      negb (mode_eqb m Init)
  | EXIT | INVALID_COMMAND | INVALID_PARA_NUM | DEFAULT_COMMAND => true
  end.

(** What [autofill] leaves in the cell [(i, j)] of a board that held
    [old_board] before the command: the single legal value of the cell when
    the cell is empty and has exactly one, the value it had otherwise. *)
Definition autofill_value (old_board : table) (block_rows block_cols i j : Z) : Z :=
  if (tget old_board i j =? 0)
     && (fst (fst (find_all_legal_values old_board i j block_rows block_cols)) =? 1)
  then nth 0 (snd (fst (find_all_legal_values old_board i j block_rows block_cols))) 0
  else tget old_board i j.

(** ** A concrete environment and concrete games *)

(** An optimiser that is right on the boards it is given: it enumerates
    the completions and fills in the first one. *)
Definition exact_ILP (b : table) (br bc : Z) : RETURN_STATUS * table :=
  match completions b br bc with
  | vs :: _ => (BOARD_SOLVABLE, fill b (empty_cells b (br * bc)) vs)
  | [] => (BOARD_UNSOLVABLE, b)
  end.

(** The scores of the solution [exact_ILP] finds: 1 for the value of each
    cell, 0 for the others. *)
Definition exact_LP (b : table) (br bc : Z) : RETURN_STATUS * table * list double :=
  let '(status, solved) := exact_ILP b br bc in
  (status, b,
   flat_map (fun c => map (fun k => if tget solved (fst c) (snd c) =? k + 1
                                    then PrimFloat.one else PrimFloat.zero)
                          (zseq (br * bc)))
            (all_cells (br * bc))).

Definition example_env : Environment :=
  {| solve_board_with_ILP := exact_ILP;
     solve_board_with_LP := exact_LP;
     rand := fun _ => 0;
     RAND_MAX := 2147483647;
     fopen_w := fun _ => true |}.

(** Three puzzle files: a 1x1 board with its cell empty, a 1x1 board with
    its cell given as a clue, and a 2x2 board (blocks of 1x2) with three
    clues. *)
Definition example_files : list (string * file) :=
  [("empty1"%string, [(1, space); (1, 10); (0, space)]);
   ("clue1"%string, [(1, space); (1, 10); (1, dot)]);
   ("three2"%string, [(1, space); (2, 10); (1, dot); (2, dot); (2, dot); (0, space)])].

(** The world when the game starts. *)
Definition example_start : world :=
  mk_world (initialize_game_aux_struct
              (mk_state Init 0 init_moves_list (mk_board [] [] [] 0 0 0 0) 0))
           example_files 0 [].

Definition cmd_file (t : COMMAND_TYPE) (path : string) : command :=
  mk_command t [] PrimFloat.zero (Some path).

Definition cmd_ints (t : COMMAND_TYPE) (ps : list Z) : command :=
  mk_command t ps PrimFloat.zero None.

Definition cmd_guess (threshold : double) : command :=
  mk_command GUESS [] threshold None.

Arguments cmd_guess threshold%_float.
Arguments guess {E} x%_float.
Arguments random_guess {E} board block_rows%_Z block_cols%_Z sol x%_float calls%_nat.

(** The world after the commands [cmds], run from the start. *)
Definition example_after (cmds : list command) : world :=
  match run (E := example_env) 100 cmds example_start with
  | Some w => w
  | None => example_start
  end.

(** The same world with nothing printed yet. *)
Definition quiet (w : world) : world :=
  mk_world (g_state w) (files w) (rand_calls w) [].

(** The board [load_game] reads from the 2x2 puzzle file. *)
Definition three2_board : game_board :=
  mk_board [[1; 2]; [2; 0]] [[0; 0]; [0; 0]] [[1; 1]; [1; 0]] 2 1 2 1.

(** A 10x10 board with blocks of one row: the cells of the diagonal are
    empty and every other cell holds a value of its own, so that each empty
    cell takes any of the values 1..10, whatever the others hold. *)
Definition diagonal_board : table :=
  map (fun i => map (fun j => if i =? j then 0 else 100 + 10 * i + j) (zseq 10)) (zseq 10).

(** A board with two completions. *)
Definition example_board : table :=
  [[1; 2; 3; 4]; [3; 4; 0; 0]; [2; 1; 4; 3]; [4; 3; 0; 0]].

(* ================================================================== *)
(** * Properties *)

(** ** Loop ranges and tables *)

Lemma in_zseq (n i : Z) : In i (zseq n) <-> 0 <= i < n.
Proof.
  unfold zseq. rewrite in_map_iff. split.
  - intros [k [<- Hk]]. apply in_seq in Hk. lia.
  - intros H. exists (Z.to_nat i). split; [lia|]. apply in_seq. lia.
Qed.

Lemma zseq_nodup (n : Z) : NoDup (zseq n).
Proof.
  unfold zseq. apply NoDup_map_NoDup_ForallPairs.
  - intros a b _ _ H. lia.
  - apply seq_NoDup.
Qed.

Lemma zseq_length (n : Z) : length (zseq n) = Z.to_nat n.
Proof. unfold zseq. now rewrite length_map, length_seq. Qed.

Lemma zseq_nonpos (n : Z) : n <= 0 -> zseq n = [].
Proof. intros H. unfold zseq. replace (Z.to_nat n) with O by lia. reflexivity. Qed.

Lemma zseq_succ (n : Z) : 0 <= n -> zseq (n + 1) = zseq n ++ [n].
Proof.
  intros H. unfold zseq.
  replace (Z.to_nat (n + 1)) with (S (Z.to_nat n)) by lia.
  rewrite seq_S, map_app. simpl. now rewrite Z2Nat.id.
Qed.

Section Upd.
Context {A : Type}.
Implicit Types (l : list A) (n m : nat) (x y d : A).

Lemma length_upd l n x : length (upd l n x) = length l.
Proof. revert n; induction l; intros [|n]; simpl; auto. Qed.

Lemma nth_upd_same l n x d : (n < length l)%nat -> nth n (upd l n x) d = x.
Proof.
  revert n; induction l; intros [|n] H; simpl in *; try lia; auto.
  apply IHl. lia.
Qed.

Lemma nth_upd_other l n m x d : n <> m -> nth m (upd l n x) d = nth m l d.
Proof.
  revert n m; induction l; intros [|n] [|m] H; simpl; try congruence; auto.
Qed.

Lemma upd_nth_id l n d : upd l n (nth n l d) = l.
Proof. revert n; induction l; intros [|n]; simpl; auto. now rewrite IHl. Qed.

Lemma upd_upd l n x y : upd (upd l n x) n y = upd l n y.
Proof. revert n; induction l; intros [|n]; simpl; auto. now rewrite IHl. Qed.

Lemma upd_ge l n x : (length l <= n)%nat -> upd l n x = l.
Proof.
  revert n; induction l; intros [|n] H; simpl in *; try lia; auto.
  rewrite IHl; auto. lia.
Qed.

Lemma in_upd l n x y : In y (upd l n x) -> y = x \/ In y l.
Proof.
  revert n; induction l; intros [|n] H; simpl in *; auto.
  - destruct H; auto.
  - destruct H; auto. apply IHl in H. tauto.
Qed.
End Upd.

Lemma tget_tset_same (t : table) (i j v : Z) :
  (Z.to_nat i < length t)%nat ->
  (Z.to_nat j < length (nth (Z.to_nat i) t []))%nat ->
  tget (tset t i j v) i j = v.
Proof.
  intros Hi Hj. unfold tget, tset.
  rewrite nth_upd_same by assumption. now apply nth_upd_same.
Qed.

Lemma tget_tset_other (t : table) (i j v i' j' : Z) :
  0 <= i -> 0 <= j -> 0 <= i' -> 0 <= j' -> (i, j) <> (i', j') ->
  tget (tset t i j v) i' j' = tget t i' j'.
Proof.
  intros Hi Hj Hi' Hj' Hne. unfold tget, tset.
  destruct (Z.eq_dec i i') as [->|Hii].
  - destruct (Nat.lt_ge_cases (Z.to_nat i') (length t)) as [Hlt|Hge].
    + rewrite nth_upd_same by assumption.
      apply nth_upd_other. intros H. apply Hne. f_equal. lia.
    + rewrite upd_ge by assumption. reflexivity.
  - rewrite nth_upd_other by lia. reflexivity.
Qed.

Lemma tset_tset (t : table) (i j v v' : Z) :
  tset (tset t i j v) i j v' = tset t i j v'.
Proof.
  unfold tset.
  destruct (Nat.lt_ge_cases (Z.to_nat i) (length t)) as [Hlt|Hge].
  - rewrite nth_upd_same by assumption. now rewrite !upd_upd.
  - now rewrite !(upd_ge t) by assumption.
Qed.

Lemma tset_tget_id (t : table) (i j : Z) : tset t i j (tget t i j) = t.
Proof. unfold tset, tget. now rewrite !upd_nth_id. Qed.

Lemma tset_restore (t : table) (i j v : Z) :
  tset (tset t i j v) i j (tget t i j) = t.
Proof. rewrite tset_tset. apply tset_tget_id. Qed.

Lemma tset_empty_id (t : table) (i j : Z) : tget t i j = 0 -> tset t i j 0 = t.
Proof. intros H. rewrite <- H at 1. apply tset_tget_id. Qed.

Lemma table_of_dim_tset (n : Z) (t : table) (i j v : Z) :
  table_of_dim n t -> table_of_dim n (tset t i j v).
Proof.
  intros [Hl Hr]. unfold tset. split.
  - now rewrite length_upd.
  - intros r Hin.
    destruct (Nat.lt_ge_cases (Z.to_nat i) (length t)) as [Hlt|Hge].
    + apply in_upd in Hin. destruct Hin as [->|Hin]; auto.
      rewrite length_upd. apply Hr. now apply nth_In.
    + rewrite upd_ge in Hin by assumption. auto.
Qed.

Lemma table_of_dim_row (n : Z) (t : table) (i : Z) :
  table_of_dim n t -> 0 <= i < n -> length (nth (Z.to_nat i) t []) = Z.to_nat n.
Proof.
  intros [Hl Hr] Hi. apply Hr. apply nth_In. lia.
Qed.

Lemma tget_tset_in (n : Z) (t : table) (i j v : Z) :
  table_of_dim n t -> 0 <= i < n -> 0 <= j < n -> tget (tset t i j v) i j = v.
Proof.
  intros Ht Hi Hj. apply tget_tset_same.
  - destruct Ht as [Hl _]. lia.
  - rewrite (table_of_dim_row n t i Ht) by assumption. lia.
Qed.

Lemma table_of_dim_alloc (n : Z) : table_of_dim n (alloc_table n).
Proof.
  unfold alloc_table. split.
  - apply repeat_length.
  - intros r Hin. apply repeat_spec in Hin. subst. apply repeat_length.
Qed.

Lemma tget_alloc (n i j : Z) : tget (alloc_table n) i j = 0.
Proof.
  unfold tget, alloc_table.
  destruct (Nat.lt_ge_cases (Z.to_nat i) (Z.to_nat n)) as [Hlt|Hge].
  - rewrite nth_repeat_lt by assumption.
    destruct (Nat.lt_ge_cases (Z.to_nat j) (Z.to_nat n)) as [Hlt'|Hge'].
    + now rewrite nth_repeat_lt.
    + apply nth_overflow. now rewrite repeat_length.
  - rewrite (nth_overflow (repeat (repeat 0 (Z.to_nat n)) (Z.to_nat n)))
      by (now rewrite repeat_length).
    now destruct (Z.to_nat j).
Qed.

(** ** Cells, rows, columns and blocks *)

Lemma in_all_cells (n : Z) (c : Z * Z) : In c (all_cells n) <-> in_range n c.
Proof.
  unfold all_cells, in_range. rewrite in_flat_map. split.
  - intros [i [Hi Hc]]. apply in_map_iff in Hc. destruct Hc as [j [<- Hj]].
    apply in_zseq in Hi, Hj. simpl. lia.
  - intros [Hi Hj]. exists (fst c). split; [now apply in_zseq|].
    apply in_map_iff. exists (snd c). split; [now destruct c|now apply in_zseq].
Qed.

Lemma cell_eqb_eq (c c' : Z * Z) : cell_eqb c c' = true <-> c = c'.
Proof.
  unfold cell_eqb. rewrite andb_true_iff, !Z.eqb_eq.
  destruct c, c'; simpl. split; [intros [-> ->]; reflexivity|intros H; inversion H; auto].
Qed.

Lemma cell_eqb_neq (c c' : Z * Z) : cell_eqb c c' = false <-> c <> c'.
Proof.
  rewrite <- cell_eqb_eq. destruct (cell_eqb c c'); split; congruence.
Qed.

Lemma same_unit_sym (br bc : Z) (c c' : Z * Z) :
  same_unit br bc c c' = same_unit br bc c' c.
Proof.
  unfold same_unit.
  rewrite (Z.eqb_sym (fst c)), (Z.eqb_sym (snd c)),
          (Z.eqb_sym (fst c / br)), (Z.eqb_sym (snd c / bc)).
  reflexivity.
Qed.

Lemma block_index (b k l : Z) : 0 < b -> 0 <= l < b -> (k * b + l) / b = k.
Proof.
  intros Hb Hl. rewrite Z.add_comm, Z.div_add by lia.
  rewrite Z.div_small by lia. lia.
Qed.

Lemma block_rem (b k l : Z) : 0 < b -> 0 <= l < b -> (k * b + l) mod b = l.
Proof.
  intros Hb Hl. rewrite Z.add_comm, Z.mod_add by lia. apply Z.mod_small. lia.
Qed.

Lemma block_bound (br bc i : Z) :
  0 < br -> 0 < bc -> 0 <= i < br * bc -> 0 <= i / br < bc.
Proof.
  intros Hbr Hbc Hi. split.
  - apply Z.div_pos; lia.
  - apply Z.div_lt_upper_bound; lia.
Qed.

Lemma status_legal_cases (b : table) (i j v br bc : Z) :
  is_legal_value b i j v br bc = LEGAL_VALUE \/
  is_legal_value b i j v br bc = NOT_LEGAL_VALUE.
Proof.
  unfold is_legal_value, get_box_start.
  destruct (existsb _ (zseq (bc * br))); auto.
  destruct (existsb _ (zseq br)); auto.
Qed.

(** [is_legal_value] refuses a value exactly when a cell of the row, of the
    column or of the block holds it. *)
Lemma is_legal_value_spec (b : table) (i j v br bc : Z) :
  0 < br -> 0 < bc -> in_range (br * bc) (i, j) ->
  is_legal_value b i j v br bc = NOT_LEGAL_VALUE <->
  exists c', in_range (br * bc) c' /\ same_unit br bc (i, j) c' = true /\
             tget b (fst c') (snd c') = v.
Proof.
  intros Hbr Hbc [Hi Hj]. simpl in Hi, Hj.
  unfold is_legal_value, get_box_start.
  rewrite !Z.quot_div_nonneg by lia.
  rewrite (Z.mul_comm bc br).
  destruct (existsb _ (zseq (br * bc))) eqn:Hrc.
  - split; [intros _|reflexivity].
    apply existsb_exists in Hrc. destruct Hrc as [x [Hx Hv]].
    apply in_zseq in Hx. apply orb_true_iff in Hv.
    destruct Hv as [Hv|Hv]; apply Z.eqb_eq in Hv.
    + exists (x, j). unfold in_range, same_unit. simpl.
      rewrite (Z.eqb_refl j), orb_true_r. auto.
    + exists (i, x). unfold in_range, same_unit. simpl.
      rewrite (Z.eqb_refl i). auto.
  - destruct (existsb _ (zseq br)) eqn:Hblk.
    + split; [intros _|reflexivity].
      apply existsb_exists in Hblk. destruct Hblk as [l [Hl Hm]].
      apply existsb_exists in Hm. destruct Hm as [m [Hm Hv]].
      apply in_zseq in Hl, Hm. apply Z.eqb_eq in Hv.
      pose proof (block_bound br bc i Hbr Hbc Hi) as Hbi.
      pose proof (block_bound bc br j Hbc Hbr ltac:(lia)) as Hbj.
      exists (i / br * br + l, j / bc * bc + m).
      unfold in_range, same_unit. simpl.
      rewrite !block_index by lia. rewrite !Z.eqb_refl, orb_true_r.
      repeat split; auto; nia.
    + split; [discriminate|]. intros [[i' j'] [[Hi' Hj'] [Hu Hv]]].
      simpl in Hi', Hj', Hv. exfalso.
      unfold same_unit in Hu. simpl in Hu.
      rewrite !orb_true_iff, andb_true_iff, !Z.eqb_eq in Hu.
      destruct Hu as [[Hu|Hu]|[Hu1 Hu2]].
      * subst i'. rewrite <- not_true_iff_false in Hrc. apply Hrc.
        apply existsb_exists. exists j'. split; [apply in_zseq; lia|].
        apply orb_true_iff. right. now apply Z.eqb_eq.
      * subst j'. rewrite <- not_true_iff_false in Hrc. apply Hrc.
        apply existsb_exists. exists i'. split; [apply in_zseq; lia|].
        apply orb_true_iff. left. now apply Z.eqb_eq.
      * rewrite <- not_true_iff_false in Hblk. apply Hblk.
        apply existsb_exists. exists (i' mod br). split.
        { apply in_zseq. apply Z.mod_pos_bound. lia. }
        apply existsb_exists. exists (j' mod bc). split.
        { apply in_zseq. apply Z.mod_pos_bound. lia. }
        apply Z.eqb_eq. rewrite Hu1, Hu2.
        rewrite (Z.mul_comm (i' / br)), (Z.mul_comm (j' / bc)).
        rewrite <- !Z.div_mod by lia. assumption.
Qed.

Lemma is_legal_value_legal (b : table) (i j v br bc : Z) :
  0 < br -> 0 < bc -> in_range (br * bc) (i, j) ->
  is_legal_value b i j v br bc = LEGAL_VALUE <->
  forall c', in_range (br * bc) c' -> same_unit br bc (i, j) c' = true ->
             tget b (fst c') (snd c') <> v.
Proof.
  intros Hbr Hbc Hc.
  pose proof (is_legal_value_spec b i j v br bc Hbr Hbc Hc) as Hs.
  destruct (status_legal_cases b i j v br bc) as [Hl|Hl]; rewrite Hl in *.
  - split; [|reflexivity]. intros _ c' Hr Hu Hv.
    assert (LEGAL_VALUE = NOT_LEGAL_VALUE) by (apply Hs; eauto). discriminate.
  - split; [discriminate|]. intros H. exfalso.
    destruct (proj1 Hs eq_refl) as [c' [Hr [Hu Hv]]]. eapply H; eauto.
Qed.

(** ** The row-by-row order of the cells *)

Lemma cell_of_in_range (n : Z) (p : nat) :
  0 < n -> (p < Z.to_nat (n * n))%nat -> in_range n (cell_of n p).
Proof.
  intros Hn Hp. unfold in_range, cell_of. simpl. split.
  - split; [apply Z.div_pos; lia|apply Z.div_lt_upper_bound; lia].
  - apply Z.mod_pos_bound. lia.
Qed.

Lemma cell_of_inj (n : Z) (p q : nat) :
  0 < n -> cell_of n p = cell_of n q -> p = q.
Proof.
  unfold cell_of. intros Hn H. inversion H as [[Hd Hm]].
  pose proof (Z.div_mod (Z.of_nat p) n ltac:(lia)).
  pose proof (Z.div_mod (Z.of_nat q) n ltac:(lia)).
  nia.
Qed.

Lemma cell_of_row (n : Z) (k x : nat) :
  0 < n -> (x < Z.to_nat n)%nat ->
  cell_of n (k * Z.to_nat n + x) = (Z.of_nat k, Z.of_nat x).
Proof.
  intros Hn Hx. unfold cell_of.
  replace (Z.of_nat (k * Z.to_nat n + x)) with (Z.of_nat k * n + Z.of_nat x) by lia.
  rewrite block_index, block_rem by lia. reflexivity.
Qed.

Lemma map_seq_shift {A : Type} (f g : nat -> A) (m a s : nat) :
  (forall x, (s <= x < s + m)%nat -> f (a + x)%nat = g x) ->
  map f (seq (a + s) m) = map g (seq s m).
Proof.
  revert s. induction m as [|m IH]; intros s H; simpl; [reflexivity|].
  f_equal; [apply H; lia|].
  replace (S (a + s)) with (a + S s)%nat by lia.
  apply IH. intros x Hx. apply H. lia.
Qed.

Lemma all_cells_rows (n : Z) (k : nat) :
  0 < n ->
  flat_map (fun i => map (fun j => (i, j)) (zseq n)) (map Z.of_nat (seq 0 k))
  = map (cell_of n) (seq 0 (k * Z.to_nat n)).
Proof.
  intros Hn. induction k as [|k IH].
  - reflexivity.
  - rewrite seq_S, map_app, flat_map_app, IH. simpl.
    replace (Z.to_nat n + k * Z.to_nat n)%nat with (k * Z.to_nat n + Z.to_nat n)%nat by lia.
    rewrite seq_app, map_app. f_equal. rewrite app_nil_r. simpl.
    unfold zseq. rewrite map_map.
    rewrite <- (Nat.add_0_r (k * Z.to_nat n)) at 1.
    symmetry. apply map_seq_shift. intros x Hx.
    apply cell_of_row; [assumption|lia].
Qed.

Lemma all_cells_positions (n : Z) :
  0 < n -> all_cells n = map (cell_of n) (seq 0 (Z.to_nat (n * n))).
Proof.
  intros Hn. unfold all_cells. unfold zseq at 2.
  rewrite all_cells_rows by assumption. do 2 f_equal. nia.
Qed.

Lemma all_cells_nodup (n : Z) : NoDup (all_cells n).
Proof.
  destruct (Z_lt_le_dec 0 n) as [Hn|Hn].
  - rewrite all_cells_positions by assumption.
    apply NoDup_map_NoDup_ForallPairs; [|apply seq_NoDup].
    intros p q _ _. now apply cell_of_inj.
  - unfold all_cells. rewrite zseq_nonpos by assumption. constructor.
Qed.

Lemma empty_cells_from (b : table) (n : Z) :
  0 < n -> empty_cells b n = empty_from b n 0.
Proof.
  intros Hn. unfold empty_cells, empty_from.
  rewrite all_cells_positions by assumption. now rewrite Nat.sub_0_r.
Qed.

Lemma empty_from_end (b : table) (n : Z) (p : nat) :
  (Z.to_nat (n * n) <= p)%nat -> empty_from b n p = [].
Proof.
  intros H. unfold empty_from.
  replace (Z.to_nat (n * n) - p)%nat with O by lia. reflexivity.
Qed.

Lemma empty_from_step (b : table) (n : Z) (p : nat) :
  (p < Z.to_nat (n * n))%nat ->
  empty_from b n p =
  if tget b (fst (cell_of n p)) (snd (cell_of n p)) =? 0
  then cell_of n p :: empty_from b n (S p)
  else empty_from b n (S p).
Proof.
  intros H. unfold empty_from.
  replace (Z.to_nat (n * n) - p)%nat with (S (Z.to_nat (n * n) - S p)) by lia.
  reflexivity.
Qed.

(** The head of the empty cells from [p] on sits at some position [q], and
    the rest are the empty cells after [q]. *)
Lemma empty_from_cons (b : table) (n : Z) (c : Z * Z) (cells : list (Z * Z)) :
  forall k p, (p + k = Z.to_nat (n * n))%nat ->
    empty_from b n p = c :: cells ->
    exists q, (p <= q < Z.to_nat (n * n))%nat /\ c = cell_of n q /\
              tget b (fst c) (snd c) = 0 /\ cells = empty_from b n (S q).
Proof.
  induction k as [|k IH]; intros p Hk He.
  - rewrite empty_from_end in He by lia. discriminate.
  - rewrite empty_from_step in He by lia.
    destruct (tget b _ _ =? 0) eqn:Hz.
    + inversion He; subst. exists p. apply Z.eqb_eq in Hz. repeat split; auto; lia.
    + destruct (IH (S p) ltac:(lia) He) as [q [Hq H]]. exists q. split; [lia|exact H].
Qed.

Lemma empty_from_tset (b : table) (n : Z) (q : nat) (v : Z) :
  0 < n -> (q < Z.to_nat (n * n))%nat ->
  empty_from (tset b (fst (cell_of n q)) (snd (cell_of n q)) v) n (S q)
  = empty_from b n (S q).
Proof.
  intros Hn Hq. unfold empty_from. apply filter_ext_in.
  intros c Hc. apply in_map_iff in Hc. destruct Hc as [p [<- Hp]].
  apply in_seq in Hp.
  destruct (cell_of_in_range n q Hn Hq) as [Hi Hj].
  destruct (cell_of_in_range n p Hn ltac:(lia)) as [Hi' Hj'].
  assert (Hne : cell_of n q <> cell_of n p).
  { intros H. apply cell_of_inj in H; [lia|assumption]. }
  rewrite tget_tset_other; try lia; try reflexivity.
  now destruct (cell_of n q), (cell_of n p).
Qed.

Lemma cell_of_next (n : Z) (p : nat) :
  0 < n ->
  (if snd (cell_of n p) <? n - 1
   then (fst (cell_of n p), snd (cell_of n p) + 1)
   else (fst (cell_of n p) + 1, 0)) = cell_of n (S p).
Proof.
  intros Hn. unfold cell_of. simpl fst. simpl snd.
  pose proof (Z.div_mod (Z.of_nat p) n ltac:(lia)) as Hdm.
  pose proof (Z.mod_pos_bound (Z.of_nat p) n Hn) as Hm.
  set (i := Z.of_nat p / n) in *. set (j := Z.of_nat p mod n) in *.
  replace (Z.of_nat (S p)) with (i * n + (j + 1)) by lia.
  destruct (j <? n - 1) eqn:Hj.
  - apply Z.ltb_lt in Hj. rewrite block_index, block_rem by lia. reflexivity.
  - apply Z.ltb_ge in Hj. replace (i * n + (j + 1)) with ((i + 1) * n + 0) by lia.
    rewrite block_index, block_rem by lia. reflexivity.
Qed.

Lemma cell_of_end (n : Z) : 0 < n -> cell_of n (Z.to_nat (n * n)) = (n, 0).
Proof.
  intros Hn. unfold cell_of. rewrite Z2Nat.id by nia.
  rewrite Z.div_mul by lia. rewrite Z.mod_mul by lia. reflexivity.
Qed.

(** The scan of [get_next_cell] stops on the first empty cell from the
    start on, or on the mark past the last cell. *)
Lemma get_next_cell_loop_spec (b : table) (n : Z) :
  0 < n ->
  forall k p fuel, (p + k = Z.to_nat (n * n))%nat -> (k < fuel)%nat ->
    get_next_cell_loop fuel b n (fst (cell_of n p)) (snd (cell_of n p))
    = Some (hd (n, 0) (empty_from b n p)).
Proof.
  intros Hn. induction k as [|k IH]; intros p fuel Hk Hf.
  - destruct fuel as [|fuel]; [lia|].
    replace p with (Z.to_nat (n * n)) by lia.
    rewrite cell_of_end by assumption. cbn [get_next_cell_loop fst snd].
    rewrite !Z.eqb_refl. simpl. rewrite empty_from_end by lia. reflexivity.
  - destruct fuel as [|fuel]; [lia|]. cbn [get_next_cell_loop].
    rewrite empty_from_step by lia.
    destruct (cell_of_in_range n p Hn ltac:(lia)) as [Hi Hj].
    assert (Hne : (fst (cell_of n p) =? n) = false) by (apply Z.eqb_neq; lia).
    rewrite Hne, andb_false_r. cbn [negb andb].
    destruct (tget b _ _ =? 0) eqn:Hz; cbn [negb hd].
    + now destruct (cell_of n p).
    + pose proof (cell_of_next n p Hn) as Hnext.
      destruct (snd (cell_of n p) <? n - 1);
        rewrite <- (IH (S p) fuel) by lia; rewrite <- Hnext; reflexivity.
Qed.

Lemma get_next_cell_spec (b : table) (n : Z) (p : nat) :
  0 < n -> (p <= Z.to_nat (n * n))%nat ->
  get_next_cell b n (fst (cell_of n p)) (snd (cell_of n p))
  = Some (match empty_from b n p with
          | [] => (-1, -1)
          | c :: _ => c
          end).
Proof.
  intros Hn Hp. unfold get_next_cell.
  rewrite (get_next_cell_loop_spec b n Hn (Z.to_nat (n * n) - p) p) by lia.
  destruct (empty_from b n p) as [|c cells] eqn:He; simpl.
  - now rewrite !Z.eqb_refl.
  - destruct (empty_from_cons b n c cells (Z.to_nat (n * n) - p) p ltac:(lia) He)
      as [q [Hq [-> _]]].
    destruct (cell_of_in_range n q Hn ltac:(lia)) as [Hi Hj].
    destruct (cell_of n q) as [i j]. simpl in *.
    replace (i =? n) with false by (symmetry; apply Z.eqb_neq; lia).
    now rewrite andb_false_r.
Qed.

(** ** The loop of [backTrack] *)

Lemma values_from_1 (n : Z) : values n = values_from 1 (Z.to_nat n).
Proof.
  unfold values, values_from, zseq. rewrite map_map.
  apply map_ext. intros k. lia.
Qed.

Lemma values_from_S (num : Z) (len : nat) :
  values_from num (S len) = num :: values_from (num + 1) len.
Proof.
  unfold values_from. simpl. f_equal; [lia|].
  rewrite <- seq_shift, map_map. apply map_ext. intros k. lia.
Qed.

Lemma count_from_cons (br bc : Z) (c : Z * Z) (cells : list (Z * Z)) (b : table) :
  count_from br bc (c :: cells) b = sum_values br bc c cells b (values (br * bc)).
Proof. reflexivity. Qed.

Lemma int_wrap_range (z : Z) : - 2147483648 <= int_wrap z <= INT_MAX.
Proof.
  unfold int_wrap, INT_MAX.
  pose proof (Z.mod_pos_bound (z + 2147483648) 4294967296 ltac:(lia)). lia.
Qed.

Lemma int_wrap_small (z : Z) : - 2147483648 <= z <= INT_MAX -> int_wrap z = z.
Proof.
  unfold int_wrap, INT_MAX. intros H. rewrite Z.mod_small by lia. lia.
Qed.

Lemma int_wrap_idem (z : Z) : int_wrap (int_wrap z) = int_wrap z.
Proof. apply int_wrap_small, int_wrap_range. Qed.

Lemma int_wrap_add_l (a b : Z) : int_wrap (int_wrap a + b) = int_wrap (a + b).
Proof.
  unfold int_wrap. f_equal.
  replace ((a + 2147483648) mod 4294967296 - 2147483648 + b + 2147483648)
    with ((a + 2147483648) mod 4294967296 + b) by lia.
  rewrite Z.add_mod_idemp_l by lia. f_equal. lia.
Qed.

Lemma backTrack_loop_S (f : nat) (br bc : Z) (hd : node) (tl : stack) (b : table) (s : Z) :
  backTrack_loop (S f) br bc (mk_bt (hd :: tl) b s)
  = match backTrack_iter br bc hd tl b s with
    | None => None
    | Some s' => backTrack_loop f br bc s'
    end.
Proof. reflexivity. Qed.

Lemma backTrack_iter_solution (br bc : Z) (tl : stack) (b : table) (s num : Z) :
  backTrack_iter br bc (mk_node (-1) (-1) num) tl b s
  = Some (mk_bt tl b (int_wrap (s + 1))).
Proof. reflexivity. Qed.

Lemma backTrack_iter_pop (br bc i j : Z) (tl : stack) (b : table) (s : Z) :
  0 <= i ->
  backTrack_iter br bc (mk_node i j (br * bc + 1)) tl b s
  = Some (mk_bt tl (tset b i j 0) s).
Proof.
  intros Hi. unfold backTrack_iter. cbn [row col value].
  replace (i =? -1) with false by (symmetry; apply Z.eqb_neq; lia).
  now rewrite Z.eqb_refl.
Qed.

Lemma backTrack_iter_illegal (br bc i j num : Z) (tl : stack) (b : table) (s : Z) :
  0 <= i -> num <> br * bc + 1 ->
  is_legal_value (tset b i j 0) i j num br bc <> LEGAL_VALUE ->
  backTrack_iter br bc (mk_node i j num) tl b s
  = Some (mk_bt (mk_node i j (num + 1) :: tl) (tset b i j 0) s).
Proof.
  intros Hi Hn Hl. unfold backTrack_iter. cbn [row col value].
  replace (i =? -1) with false by (symmetry; apply Z.eqb_neq; lia).
  replace (num =? br * bc + 1) with false by (symmetry; now apply Z.eqb_neq).
  destruct (is_legal_value (tset b i j 0) i j num br bc); try reflexivity.
  congruence.
Qed.

Lemma backTrack_iter_legal (br bc i j num : Z) (tl : stack) (b : table) (s : Z) :
  0 <= i -> num <> br * bc + 1 ->
  is_legal_value (tset b i j 0) i j num br bc = LEGAL_VALUE ->
  backTrack_iter br bc (mk_node i j num) tl b s
  = match get_next_cell (tset (tset b i j 0) i j num) (br * bc) i j with
    | None => None
    | Some (i', j') =>
        Some (mk_bt (mk_node i' j' 1 :: mk_node i j (num + 1) :: tl)
                    (tset (tset b i j 0) i j num) s)
    end.
Proof.
  intros Hi Hn Hl. unfold backTrack_iter. cbn [row col value].
  replace (i =? -1) with false by (symmetry; apply Z.eqb_neq; lia).
  replace (num =? br * bc + 1) with false by (symmetry; now apply Z.eqb_neq).
  now rewrite Hl.
Qed.

Section Run.
Variables br bc : Z.
Hypothesis Hbr : 0 < br.
Hypothesis Hbc : 0 < bc.

Let n := br * bc.

Lemma dim_pos : 0 < n.
Proof. unfold n. nia. Qed.

Lemma runs_trans (m1 m2 : nat) (s1 s2 s3 : bt_state) :
  runs br bc m1 s1 s2 -> runs br bc m2 s2 s3 -> runs br bc (m1 + m2) s1 s3.
Proof.
  intros H1 H2 f. rewrite <- Nat.add_assoc. rewrite H1. apply H2.
Qed.

Lemma runs_step (hd : node) (tl : stack) (b : table) (s : Z) (s' : bt_state) :
  backTrack_iter br bc hd tl b s = Some s' -> runs br bc 1 (mk_bt (hd :: tl) b s) s'.
Proof.
  intros H f. simpl Nat.add. rewrite backTrack_loop_S, H. reflexivity.
Qed.

(** The frame of the cell [(i, j)] at position [q], with the values
    [num..n] left to try, returns with their share of the count added and
    the cell empty again; [Hrest] says the same of the frames pushed on
    top of it. *)
Lemma run_values (q : nat) (i j : Z) (cells : list (Z * Z)) (tl : stack) (b : table) :
  (q < Z.to_nat (n * n))%nat ->
  cell_of n q = (i, j) ->
  table_of_dim n b ->
  tget b i j = 0 ->
  cells = empty_from b n (S q) ->
  (forall b' tl' sum', table_of_dim n b' -> empty_from b' n (S q) = cells ->
     int_wrap sum' = sum' ->
     exists m, runs br bc m (mk_bt (frame_of cells :: tl') b' sum')
                            (mk_bt tl' b' (int_wrap (sum' + count_from br bc cells b')))) ->
  forall len num cur sum,
    num + Z.of_nat len = n + 1 -> 1 <= num ->
    tset cur i j 0 = b ->
    int_wrap sum = sum ->
    exists m,
      runs br bc m (mk_bt (mk_node i j num :: tl) cur sum)
           (mk_bt tl b (int_wrap (sum + sum_values br bc (i, j) cells b
                                                   (values_from num len)))).
Proof.
  intros Hq Hc Hdim Hempty Hcells Hrest.
  pose proof dim_pos as Hn.
  pose proof (cell_of_in_range n q Hn Hq) as Hr. rewrite Hc in Hr.
  destruct Hr as [Hi Hj]. simpl in Hi, Hj.
  induction len as [|len IH]; intros num cur sum Hnum Hpos Hcur Hsum.
  - exists 1%nat. replace num with (br * bc + 1) by (fold n; lia).
    simpl. rewrite Z.add_0_r, Hsum. apply runs_step.
    rewrite backTrack_iter_pop by lia. now rewrite Hcur.
  - rewrite values_from_S. cbn [sum_values fold_right fst snd].
    assert (Hne : num <> br * bc + 1) by (fold n; lia).
    destruct (status_legal_cases (tset cur i j 0) i j num br bc) as [Hl|Hl].
    + pose proof (backTrack_iter_legal br bc i j num tl cur sum (proj1 Hi) Hne Hl) as Hit.
      rewrite Hcur in Hit, Hl. fold n in Hit.
      assert (Hget : tget (tset b i j num) i j = num)
        by (apply (tget_tset_in n); assumption).
      assert (Hfrom : empty_from (tset b i j num) n (S q) = cells).
      { subst cells. pose proof (empty_from_tset b n q num Hn Hq) as H.
        now rewrite Hc in H. }
      pose proof (get_next_cell_spec (tset b i j num) n q Hn ltac:(lia)) as Hg.
      rewrite empty_from_step in Hg by assumption.
      rewrite Hc in Hg. cbn [fst snd] in Hg. rewrite Hget in Hg.
      replace (num =? 0) with false in Hg by (symmetry; apply Z.eqb_neq; lia).
      rewrite Hfrom in Hg. rewrite Hg in Hit.
      destruct (Hrest (tset b i j num) (mk_node i j (num + 1) :: tl) sum
                      (table_of_dim_tset n b i j num Hdim) Hfrom Hsum) as [m1 Hm1].
      destruct (IH (num + 1) (tset b i j num)
                   (int_wrap (sum + count_from br bc cells (tset b i j num)))
                   ltac:(lia) ltac:(lia)) as [m2 Hm2].
      { rewrite tset_tset. now apply tset_empty_id. }
      { apply int_wrap_idem. }
      rewrite int_wrap_add_l in Hm2.
      exists (1 + (m1 + m2))%nat.
      rewrite Hl. cbn [status_eqb]. rewrite Z.add_assoc.
      apply runs_trans with (s2 := mk_bt (frame_of cells :: mk_node i j (num + 1) :: tl)
                                         (tset b i j num) sum).
      * apply runs_step. rewrite Hit. unfold frame_of.
        now destruct cells as [|[i' j'] cells'].
      * eapply runs_trans; eassumption.
    + pose proof (backTrack_iter_illegal br bc i j num tl cur sum (proj1 Hi) Hne) as Hit.
      rewrite Hcur in Hit, Hl.
      rewrite Hl in Hit. specialize (Hit ltac:(discriminate)).
      destruct (IH (num + 1) b sum ltac:(lia) ltac:(lia)) as [m2 Hm2].
      { now apply tset_empty_id. }
      { exact Hsum. }
      exists (1 + m2)%nat. rewrite Hl. cbn [status_eqb]. rewrite Z.add_0_l.
      eapply runs_trans; [apply runs_step; exact Hit|exact Hm2].
Qed.

(** The frame for the empty cells from position [p] on returns with the
    number of ways to fill them added to the count, and the board as it
    was. *)
Lemma run_frame :
  forall k p b tl sum,
    (Z.to_nat (n * n) - p <= k)%nat -> table_of_dim n b -> int_wrap sum = sum ->
    exists m, runs br bc m (mk_bt (frame_of (empty_from b n p) :: tl) b sum)
                   (mk_bt tl b (int_wrap (sum + count_from br bc (empty_from b n p) b))).
Proof.
  pose proof dim_pos as Hn.
  induction k as [|k IH]; intros p b tl sum Hk Hdim Hsum.
  - rewrite empty_from_end by lia. exists 1%nat. apply runs_step.
    apply backTrack_iter_solution.
  - destruct (empty_from b n p) as [|c cells] eqn:He.
    + exists 1%nat. apply runs_step. apply backTrack_iter_solution.
    + assert (Hp : (p < Z.to_nat (n * n))%nat).
      { destruct (Nat.lt_ge_cases p (Z.to_nat (n * n))) as [H|H]; [exact H|].
        rewrite empty_from_end in He by assumption. discriminate. }
      destruct (empty_from_cons b n c cells (Z.to_nat (n * n) - p) p ltac:(lia) He)
        as [q [Hq [Hc [Hz Hcells]]]].
      rewrite count_from_cons. fold n. rewrite values_from_1.
      destruct c as [i j]. unfold frame_of. cbn [fst snd] in *.
      apply (run_values q i j cells tl b); try assumption; try lia; auto.
      * intros b' tl' sum' Hdim' <- Hsum'. apply IH; [lia|assumption|assumption].
      * now apply tset_empty_id.
Qed.
End Run.

(** ** Boards without duplicates *)

Section Duplicates.
Variables br bc : Z.
Hypothesis Hbr : 0 < br.
Hypothesis Hbc : 0 < bc.

Let n := br * bc.

Lemma conflicts_spec (b : table) (i j : Z) :
  conflicts b br bc i j = true <->
  exists c', in_range n c' /\ (i, j) <> c' /\ same_unit br bc (i, j) c' = true /\
             tget b (fst c') (snd c') = tget b i j.
Proof.
  unfold conflicts. rewrite existsb_exists. fold n. split.
  - intros [c' [Hin H]]. apply in_all_cells in Hin.
    rewrite !andb_true_iff, negb_true_iff, cell_eqb_neq, Z.eqb_eq in H.
    exists c'. tauto.
  - intros [c' [Hr [Hne [Hu Hv]]]]. exists c'. split; [now apply in_all_cells|].
    rewrite !andb_true_iff, negb_true_iff, cell_eqb_neq, Z.eqb_eq. tauto.
Qed.

Lemma no_duplicates_spec (b : table) :
  no_duplicates b br bc = true <->
  forall c1 c2, in_range n c1 -> in_range n c2 -> c1 <> c2 ->
                same_unit br bc c1 c2 = true ->
                tget b (fst c1) (snd c1) <> 0 ->
                tget b (fst c2) (snd c2) <> tget b (fst c1) (snd c1).
Proof.
  unfold no_duplicates. rewrite forallb_forall. fold n. split.
  - intros H c1 c2 H1 H2 Hne Hu Hz Heq.
    specialize (H c1 (proj2 (in_all_cells n c1) H1)).
    apply orb_true_iff in H. destruct H as [H|H]; [apply Z.eqb_eq in H; contradiction|].
    apply negb_true_iff in H. rewrite <- not_true_iff_false in H. apply H.
    apply conflicts_spec. exists c2. destruct c1; auto.
  - intros H c1 H1. apply in_all_cells in H1.
    destruct (tget b (fst c1) (snd c1) =? 0) eqn:Hz; [reflexivity|]. simpl.
    apply negb_true_iff, not_true_iff_false. intros Hc.
    apply conflicts_spec in Hc. destruct Hc as [c2 [H2 [Hne [Hu Hv]]]].
    apply Z.eqb_neq in Hz.
    apply (H c1 c2); auto; now destruct c1.
Qed.

(** Writing a value into an empty cell keeps the board free of
    duplicates exactly when [is_legal_value] accepts the value. *)
Lemma no_duplicates_tset (b : table) (i j v : Z) :
  table_of_dim n b -> in_range n (i, j) -> tget b i j = 0 -> v <> 0 ->
  no_duplicates (tset b i j v) br bc = true <->
  no_duplicates b br bc = true /\ is_legal_value b i j v br bc = LEGAL_VALUE.
Proof.
  intros Hdim Hc Hz Hv.
  assert (Hsame : tget (tset b i j v) i j = v).
  { destruct Hc. apply (tget_tset_in n); assumption. }
  assert (Hother : forall c, in_range n c -> c <> (i, j) ->
                             tget (tset b i j v) (fst c) (snd c) = tget b (fst c) (snd c)).
  { intros [i' j'] [Hi' Hj'] Hne. destruct Hc as [Hi Hj]. simpl in *.
    apply tget_tset_other; try lia. congruence. }
  rewrite (is_legal_value_legal b i j v br bc Hbr Hbc Hc).
  rewrite !no_duplicates_spec. fold n. split.
  - intros H. split.
    + intros c1 c2 H1 H2 Hne Hu Hnz.
      assert (Hc1 : c1 <> (i, j)) by (intros ->; simpl in Hnz; contradiction).
      destruct (cell_eqb c2 (i, j)) eqn:Hc2.
      * apply cell_eqb_eq in Hc2. subst c2. simpl. congruence.
      * apply cell_eqb_neq in Hc2.
        rewrite <- (Hother c1 H1 Hc1), <- (Hother c2 H2 Hc2).
        apply H; auto. now rewrite Hother.
    + intros c' Hr Hu.
      destruct (cell_eqb c' (i, j)) eqn:Hc'.
      * apply cell_eqb_eq in Hc'. subst c'. simpl. congruence.
      * apply cell_eqb_neq in Hc'.
        rewrite <- (Hother c' Hr Hc'). intros Heq.
        apply (H (i, j) c'); auto; simpl; congruence.
  - intros [Hb Hl] c1 c2 H1 H2 Hne Hu Hnz.
    destruct (cell_eqb c1 (i, j)) eqn:Hc1.
    + apply cell_eqb_eq in Hc1. subst c1. simpl. rewrite Hsame.
      rewrite Hother by congruence. now apply Hl.
    + apply cell_eqb_neq in Hc1. rewrite (Hother c1 H1 Hc1) in *.
      destruct (cell_eqb c2 (i, j)) eqn:Hc2.
      * apply cell_eqb_eq in Hc2. subst c2. simpl. rewrite Hsame.
        intros Heq. apply (Hl c1 H1); [now rewrite same_unit_sym|congruence].
      * apply cell_eqb_neq in Hc2. rewrite (Hother c2 H2 Hc2). now apply Hb.
Qed.
End Duplicates.

(** ** Counting the completions *)

Lemma fold_right_add_ext (f g : Z -> Z) (l : list Z) :
  (forall v, In v l -> f v = g v) ->
  fold_right (fun v acc => f v + acc) 0 l = fold_right (fun v acc => g v + acc) 0 l.
Proof.
  induction l as [|x l IH]; intros H; simpl; [reflexivity|].
  rewrite H by (now left). rewrite IH; [reflexivity|].
  intros v Hv. apply H. now right.
Qed.

Lemma in_values (n v : Z) : In v (values n) <-> 1 <= v <= n.
Proof.
  unfold values. rewrite in_map_iff. split.
  - intros [k [<- Hk]]. apply in_zseq in Hk. lia.
  - intros H. exists (v - 1). split; [lia|]. apply in_zseq. lia.
Qed.

Lemma length_filter_flat_map {A B : Type} (P : B -> bool) (g : A -> list B) (l : list A) :
  Z.of_nat (length (filter P (flat_map g l)))
  = fold_right (fun x acc => Z.of_nat (length (filter P (g x))) + acc) 0 l.
Proof.
  induction l as [|x l IH]; simpl; [reflexivity|].
  rewrite filter_app, length_app, Nat2Z.inj_add, IH. reflexivity.
Qed.

Lemma filter_map_comm {A B : Type} (P : B -> bool) (f : A -> B) (l : list A) :
  filter P (map f l) = map f (filter (fun x => P (f x)) l).
Proof.
  induction l as [|x l IH]; simpl; [reflexivity|].
  destruct (P (f x)); simpl; now rewrite IH.
Qed.

Section Counting.
Variables br bc : Z.
Hypothesis Hbr : 0 < br.
Hypothesis Hbc : 0 < bc.

Let n := br * bc.

Lemma count_fillings_nil (b : table) :
  count_fillings br bc [] b = if no_duplicates b br bc then 1 else 0.
Proof.
  unfold count_fillings. simpl. now destruct (no_duplicates b br bc).
Qed.

Lemma count_fillings_cons (c : Z * Z) (cells : list (Z * Z)) (b : table) :
  count_fillings br bc (c :: cells) b
  = fold_right (fun v acc => count_fillings br bc cells (tset b (fst c) (snd c) v) + acc)
               0 (values (br * bc)).
Proof.
  unfold count_fillings. cbn [length assignments].
  rewrite length_filter_flat_map. apply fold_right_add_ext.
  intros v _. rewrite filter_map_comm, length_map. reflexivity.
Qed.

Lemma fillable_tset (b : table) (c : Z * Z) (cells : list (Z * Z)) (v : Z) :
  fillable n b (c :: cells) -> fillable n (tset b (fst c) (snd c) v) cells.
Proof.
  intros [Hnd Hall]. inversion Hnd as [|? ? Hnotin Hnd']; subst. split; [assumption|].
  intros c' Hin. destruct (Hall c' (or_intror Hin)) as [Hr Hz].
  destruct (Hall c (or_introl eq_refl)) as [Hrc _].
  split; [assumption|].
  destruct c as [i j], c' as [i' j']. destruct Hr, Hrc. simpl in *.
  rewrite tget_tset_other; try lia; try assumption.
  intros Heq. apply Hnotin. now rewrite Heq.
Qed.

(** A board with a duplicate has no completion. *)
Lemma count_fillings_duplicate (cells : list (Z * Z)) :
  forall b, table_of_dim n b -> fillable n b cells ->
            no_duplicates b br bc = false -> count_fillings br bc cells b = 0.
Proof.
  induction cells as [|c cells IH]; intros b Hdim Hf Hd.
  - now rewrite count_fillings_nil, Hd.
  - rewrite count_fillings_cons.
    rewrite (fold_right_add_ext _ (fun _ => 0)).
    + clear. induction (values (br * bc)); simpl; auto.
    + intros v Hv. apply in_values in Hv.
      apply IH; [now apply table_of_dim_tset|now apply fillable_tset|].
      destruct Hf as [_ Hall]. destruct (Hall c (or_introl eq_refl)) as [Hr Hz].
      apply not_true_iff_false. intros Hnd.
      destruct c as [i j].
      apply (no_duplicates_tset br bc Hbr Hbc b i j v Hdim Hr Hz ltac:(lia)) in Hnd.
      destruct Hnd as [Hnd _]. congruence.
Qed.

(** On a board without duplicates the recursion of the enumerator counts
    the completions. *)
Lemma count_from_fillings (cells : list (Z * Z)) :
  forall b, table_of_dim n b -> fillable n b cells ->
            no_duplicates b br bc = true ->
            count_from br bc cells b = count_fillings br bc cells b.
Proof.
  induction cells as [|c cells IH]; intros b Hdim Hf Hd.
  - now rewrite count_fillings_nil, Hd.
  - rewrite count_fillings_cons. cbn [count_from].
    apply fold_right_add_ext. intros v Hv. apply in_values in Hv.
    pose proof (fillable_tset b c cells v Hf) as Hf'.
    destruct Hf as [_ Hall]. destruct (Hall c (or_introl eq_refl)) as [Hr Hz].
    destruct c as [i j]. cbn [fst snd] in *.
    pose proof (no_duplicates_tset br bc Hbr Hbc b i j v Hdim Hr Hz ltac:(lia)) as Hiff.
    destruct (status_legal_cases b i j v br bc) as [Hl|Hl]; rewrite Hl; cbn [status_eqb].
    + apply IH; [now apply table_of_dim_tset|assumption|]. apply Hiff. now split.
    + symmetry. apply count_fillings_duplicate;
        [now apply table_of_dim_tset|assumption|].
      apply not_true_iff_false. intros Hnd. apply Hiff in Hnd.
      destruct Hnd as [_ Hnd]. congruence.
Qed.

Lemma fillable_empty_cells (b : table) : fillable n b (empty_cells b n).
Proof.
  unfold empty_cells. split.
  - apply NoDup_filter, all_cells_nodup.
  - intros c Hc. apply filter_In in Hc. destruct Hc as [Hin Hz].
    split; [now apply in_all_cells|now apply Z.eqb_eq].
Qed.

Lemma count_completions_fillings (b : table) :
  count_completions b br bc = count_fillings br bc (empty_cells b (br * bc)) b.
Proof. reflexivity. Qed.

(** What [backTrack] returns, in terms of its recursion. *)
Lemma backTrack_runs (b : table) :
  table_of_dim n b ->
  exists m, forall fuel, (m <= fuel)%nat ->
    backTrack fuel b br bc
    = Some (if int_wrap (count_from br bc (empty_cells b n) b) =? 0
            then BOARD_UNSOLVABLE else BOARD_SOLVABLE,
            int_wrap (count_from br bc (empty_cells b n) b), b).
Proof.
  intros Hdim. pose proof (dim_pos br bc Hbr Hbc) as Hn. fold n in Hn.
  rewrite empty_cells_from by assumption.
  destruct (run_frame br bc Hbr Hbc (Z.to_nat (n * n)) 0 b [] 0 ltac:(lia) Hdim
                      eq_refl)
    as [m Hm].
  fold n in Hm. rewrite Z.add_0_l in Hm.
  exists (m + 1)%nat. intros fuel Hfuel. unfold backTrack. fold n.
  assert (Hstart :
            (if negb (tget b 0 0 =? 0) then get_next_cell b n 0 0 else Some (0, 0))
            = Some (row (frame_of (empty_from b n 0)), col (frame_of (empty_from b n 0)))
            /\ value (frame_of (empty_from b n 0)) = 1).
  { pose proof (get_next_cell_spec b n 0 Hn ltac:(lia)) as Hg.
    assert (Hc0 : cell_of n 0 = (0, 0)).
    { unfold cell_of. simpl. now rewrite Z.div_0_l, Z.mod_0_l by lia. }
    rewrite Hc0 in Hg. cbn [fst snd] in Hg.
    destruct (tget b 0 0 =? 0) eqn:Hz; cbn [negb].
    - rewrite empty_from_step by lia. rewrite Hc0. cbn [fst snd]. rewrite Hz.
      now split.
    - rewrite Hg. destruct (empty_from b n 0) as [|[i j] cells]; now split. }
  destruct Hstart as [-> Hval].
  replace (mk_node (row (frame_of (empty_from b n 0)))
                   (col (frame_of (empty_from b n 0))) 1)
    with (frame_of (empty_from b n 0))
    by (destruct (frame_of (empty_from b n 0)); simpl in *; now subst).
  replace fuel with (m + (fuel - m))%nat by lia.
  rewrite Hm. destruct (fuel - m)%nat as [|f] eqn:Hf; [lia|].
  reflexivity.
Qed.
End Counting.

(** What [backTrack] writes is the number of completions as an [int]
    holds it. *)
Lemma backTrack_counts_wrapped (b : table) (block_rows block_cols : Z) :
  0 < block_rows -> 0 < block_cols ->
  table_of_dim (block_rows * block_cols) b ->
  no_duplicates b block_rows block_cols = true ->
  exists m, forall fuel, (m <= fuel)%nat ->
    backTrack fuel b block_rows block_cols
    = Some (if int_wrap (count_completions b block_rows block_cols) =? 0
            then BOARD_UNSOLVABLE else BOARD_SOLVABLE,
            int_wrap (count_completions b block_rows block_cols), b).
Proof.
  intros Hbr Hbc Hdim Hnd.
  destruct (backTrack_runs block_rows block_cols Hbr Hbc b Hdim) as [m Hm].
  exists m. intros fuel Hfuel. rewrite (Hm fuel Hfuel).
  rewrite count_completions_fillings.
  rewrite (count_from_fillings block_rows block_cols Hbr Hbc
             (empty_cells b (block_rows * block_cols)) b Hdim
             (fillable_empty_cells block_rows block_cols b) Hnd).
  reflexivity.
Qed.

Lemma count_completions_nonneg (b : table) (block_rows block_cols : Z) :
  0 <= count_completions b block_rows block_cols.
Proof. unfold count_completions. lia. Qed.

(** C2. On a board of dimension [N = block_rows * block_cols] whose filled
    cells hold no value twice in a row, a column or a block, and which has
    no more than [INT_MAX] completions, [backTrack] returns when given
    enough fuel; the count it writes is the number of assignments of [1..N]
    to the empty cells that leave no duplicate in any row, column or block,
    and the board it worked on is the board it was given. *)
Theorem backTrack_counts_completions (b : table) (block_rows block_cols : Z) :
  0 < block_rows -> 0 < block_cols ->
  table_of_dim (block_rows * block_cols) b ->
  no_duplicates b block_rows block_cols = true ->
  count_completions b block_rows block_cols <= INT_MAX ->
  exists m, forall fuel, (m <= fuel)%nat ->
    backTrack fuel b block_rows block_cols
    = Some (if count_completions b block_rows block_cols =? 0
            then BOARD_UNSOLVABLE else BOARD_SOLVABLE,
            count_completions b block_rows block_cols, b).
Proof.
  intros Hbr Hbc Hdim Hnd Hmax.
  destruct (backTrack_counts_wrapped b block_rows block_cols Hbr Hbc Hdim Hnd) as [m Hm].
  exists m. intros fuel Hfuel. rewrite (Hm fuel Hfuel).
  pose proof (count_completions_nonneg b block_rows block_cols) as H0.
  rewrite int_wrap_small by lia. reflexivity.
Qed.

(** ** The error refresh *)

Lemma fold_left_map {A B S : Type} (f : S -> B -> S) (h : A -> B) (l : list A) (s : S) :
  fold_left f (map h l) s = fold_left (fun s x => f s (h x)) l s.
Proof. revert s; induction l as [|x l IH]; intros s; simpl; auto. Qed.

Lemma fold_left_flat_map {A B S : Type} (f : S -> B -> S) (g : A -> list B)
      (l : list A) (s : S) :
  fold_left f (flat_map g l) s = fold_left (fun s x => fold_left f (g x) s) l s.
Proof.
  revert s; induction l as [|x l IH]; intros s; simpl; auto.
  now rewrite fold_left_app, IH.
Qed.

Lemma fold_left_ext {A S : Type} (f g : S -> A -> S) (l : list A) (s : S) :
  (forall s x, f s x = g s x) -> fold_left f l s = fold_left g l s.
Proof.
  intros H. revert s; induction l as [|x l IH]; intros s; simpl; auto.
  now rewrite H, IH.
Qed.

(** Two nested loops visit the cells row by row. *)
Lemma for2_all_cells {S : Type} (n : Z) (body : Z -> Z -> S -> S) (s : S) :
  for2 n body s = fold_left (fun s c => body (fst c) (snd c) s) (all_cells n) s.
Proof.
  unfold for2, all_cells. rewrite fold_left_flat_map.
  apply fold_left_ext. intros s' i. now rewrite fold_left_map.
Qed.

Section ErrorRefresh.
Variables (br bc : Z) (fixed_table : table) (b : table).
Hypothesis Hbr : 0 < br.
Hypothesis Hbc : 0 < bc.

Let n := br * bc.

Hypothesis Hdim : table_of_dim n b.

(** What the refresh writes into [err] for the cell [c]. *)
Let mark (c : Z * Z) : Z :=
  b2z (negb (tget b (fst c) (snd c) =? 0)
       && conflicts b br bc (fst c) (snd c)
       && (tget fixed_table (fst c) (snd c) =? 0)).

Let bad (c : Z * Z) : bool :=
  negb (tget b (fst c) (snd c) =? 0) && conflicts b br bc (fst c) (snd c).

(** With the cell nulled, [is_legal_value] refuses its value exactly
    when another cell of its row, column or block holds the value. *)
Lemma nulled_cell_conflicts (i j : Z) :
  in_range n (i, j) -> tget b i j <> 0 ->
  status_eqb (is_legal_value (tset b i j 0) i j (tget b i j) br bc) NOT_LEGAL_VALUE
  = conflicts b br bc i j.
Proof.
  intros Hc Hz.
  assert (Hnull : tget (tset b i j 0) i j = 0)
    by (destruct Hc; apply (tget_tset_in n); assumption).
  assert (Hother : forall c, in_range n c -> (i, j) <> c ->
                             tget (tset b i j 0) (fst c) (snd c) = tget b (fst c) (snd c)).
  { intros [i' j'] [Hi' Hj'] Hne. destruct Hc as [Hi Hj]. simpl in *.
    apply tget_tset_other; try lia. assumption. }
  pose proof (is_legal_value_spec (tset b i j 0) i j (tget b i j) br bc Hbr Hbc Hc) as Hs.
  pose proof (conflicts_spec br bc b i j) as Hcs. fold n in Hs, Hcs.
  destruct (conflicts b br bc i j).
  - destruct (proj1 Hcs eq_refl) as [c' [Hr [Hne [Hu Hv]]]].
    rewrite (proj2 Hs); [reflexivity|].
    exists c'. rewrite Hother by assumption. auto.
  - destruct (status_legal_cases (tset b i j 0) i j (tget b i j) br bc) as [Hl|Hl];
      rewrite Hl; [reflexivity|].
    destruct (proj1 Hs Hl) as [c' [Hr [Hu Hv]]].
    assert (Hne : (i, j) <> c') by (intros <-; simpl in Hv; congruence).
    rewrite Hother in Hv by assumption.
    assert (false = true) by (apply Hcs; exists c'; auto). discriminate.
Qed.

(** One iteration leaves the board as it was and writes the mark of the
    cell. *)
Lemma update_erroneous_cell_spec (i j e : Z) (err_table : table) :
  in_range n (i, j) ->
  update_erroneous_cell fixed_table br bc i j (e, b, err_table)
  = (if bad (i, j) then 1 else e, b, tset err_table i j (mark (i, j))).
Proof.
  intros Hc. unfold update_erroneous_cell, bad, mark. cbn [fst snd].
  destruct (tget b i j =? 0) eqn:Hz; cbn [negb andb b2z]; [reflexivity|].
  apply Z.eqb_neq in Hz.
  rewrite nulled_cell_conflicts by assumption.
  rewrite tset_restore.
  destruct (conflicts b br bc i j); cbn [andb]; [|reflexivity].
  destruct (tget fixed_table i j =? 0); cbn [b2z]; [|reflexivity].
  now rewrite tset_tset.
Qed.

Lemma update_erroneous_cells_spec (cells : list (Z * Z)) :
  (forall c, In c cells -> in_range n c) ->
  forall e err_table, table_of_dim n err_table ->
    exists err',
      fold_left (fun s c => update_erroneous_cell fixed_table br bc (fst c) (snd c) s)
                cells (e, b, err_table)
      = (if existsb bad cells then 1 else e, b, err')
      /\ table_of_dim n err'
      /\ forall c, in_range n c ->
                   tget err' (fst c) (snd c)
                   = if existsb (cell_eqb c) cells then mark c
                     else tget err_table (fst c) (snd c).
Proof.
  induction cells as [|c0 cells IH]; intros Hin e err_table Herr.
  - exists err_table. simpl. auto.
  - cbn [fold_left]. destruct c0 as [i j]. cbn [fst snd].
    assert (Hc0 : in_range n (i, j)) by (apply Hin; now left).
    rewrite update_erroneous_cell_spec by assumption.
    destruct (IH (fun c H => Hin c (or_intror H))
                 (if bad (i, j) then 1 else e)
                 (tset err_table i j (mark (i, j)))
                 (table_of_dim_tset n _ i j _ Herr))
      as [err' [Hfold [Hdim' Hget]]].
    exists err'. split; [|split; [assumption|]].
    + rewrite Hfold. cbn [existsb].
      destruct (bad (i, j)); cbn [orb]; [|reflexivity].
      now destruct (existsb bad cells).
    + intros c Hc. rewrite Hget by assumption. cbn [existsb].
      destruct (existsb (cell_eqb c) cells); [now rewrite orb_true_r|].
      rewrite orb_false_r.
      destruct (cell_eqb c (i, j)) eqn:Heq.
      * apply cell_eqb_eq in Heq. subst c. cbn [fst snd].
        destruct Hc0. apply (tget_tset_in n); assumption.
      * apply cell_eqb_neq in Heq. destruct c as [i' j'].
        destruct Hc, Hc0. simpl in *.
        apply tget_tset_other; try lia. congruence.
Qed.
End ErrorRefresh.

Lemma existsb_cell_eqb_in (c : Z * Z) (cells : list (Z * Z)) :
  In c cells -> existsb (cell_eqb c) cells = true.
Proof.
  intros H. apply existsb_exists. exists c. split; [assumption|]. now apply cell_eqb_eq.
Qed.

(** The refresh leaves everything but [err] as it was. *)
Lemma update_erroneous_cells_board (fixed_table : table) (br bc : Z) (cells : list (Z * Z)) :
  forall e b err_table,
    snd (fst (fold_left (fun s c => update_erroneous_cell fixed_table br bc (fst c) (snd c) s)
                        cells (e, b, err_table))) = b.
Proof.
  induction cells as [|c cells IH]; intros e b err_table; [reflexivity|].
  cbn [fold_left]. unfold update_erroneous_cell at 2.
  destruct (negb (tget b (fst c) (snd c) =? 0)).
  - destruct (status_eqb _ NOT_LEGAL_VALUE); rewrite tset_restore; apply IH.
  - apply IH.
Qed.

Lemma update_erroneous_frame (g : game_state) :
  let g' := snd (update_erroneous g) in
  mode g' = mode g /\ mark_errors g' = mark_errors g /\ m_list g' = m_list g /\
  valid g' = valid g /\
  board (g_board g') = board (g_board g) /\ fixed (g_board g') = fixed (g_board g) /\
  block_cols (g_board g') = block_cols (g_board g) /\
  block_rows (g_board g') = block_rows (g_board g) /\
  N (g_board g') = N (g_board g) /\
  empty_cells_num (g_board g') = empty_cells_num (g_board g).
Proof.
  unfold update_erroneous. rewrite for2_all_cells.
  pose proof (update_erroneous_cells_board (fixed (g_board g)) (block_rows (g_board g))
                (block_cols (g_board g)) (all_cells (N (g_board g))) 0
                (board (g_board g)) (err (g_board g))) as Hb.
  destruct (fold_left _ _ _) as [[e b'] err']. simpl in Hb. subst b'.
  simpl. repeat split.
Qed.

(** C8. After [update_erroneous], on a board of dimension
    [N = block_rows * block_cols], [err[i][j]] is set exactly for the
    filled cells whose value is also the value of another cell of their row,
    column or block and that are not fixed; the function returns 1 if some
    filled cell, fixed or not, has such a conflict, and 0 otherwise. *)
Theorem update_erroneous_marks_conflicts (g : game_state) :
  board_wf (g_board g) ->
  let gb := g_board g in
  let is_erroneous := fst (update_erroneous g) in
  let err' := err (g_board (snd (update_erroneous g))) in
  (forall i j, in_range (N gb) (i, j) ->
     (tget err' i j = 1 <->
      tget (board gb) i j <> 0 /\
      conflicts (board gb) (block_rows gb) (block_cols gb) i j = true /\
      tget (fixed gb) i j = 0)
     /\ (tget err' i j = 0 \/ tget err' i j = 1))
  /\ (is_erroneous = 1 <->
      exists i j, in_range (N gb) (i, j) /\ tget (board gb) i j <> 0 /\
                  conflicts (board gb) (block_rows gb) (block_cols gb) i j = true)
  /\ (is_erroneous = 0 \/ is_erroneous = 1).
Proof.
  intros [Hbr [Hbc [HN [Hb [He Hf]]]]]. cbv zeta.
  unfold update_erroneous. rewrite for2_all_cells. rewrite HN in *.
  destruct (update_erroneous_cells_spec (block_rows (g_board g)) (block_cols (g_board g))
              (fixed (g_board g)) (board (g_board g)) Hbr Hbc Hb
              (all_cells (block_rows (g_board g) * block_cols (g_board g)))
              (fun c H => proj1 (in_all_cells _ c) H) 0 (err (g_board g)) He)
    as [err' [Hfold [Hdim' Hget]]].
  rewrite Hfold. cbn [fst snd with_g_board with_err with_board g_board err].
  split; [|split].
  - intros i j Hc. pose proof (Hget (i, j) Hc) as Hg.
    rewrite existsb_cell_eqb_in in Hg by (now apply in_all_cells).
    cbn [fst snd] in Hg. rewrite Hg. clear Hg.
    destruct (tget (board (g_board g)) i j =? 0) eqn:Hz;
      [apply Z.eqb_eq in Hz|apply Z.eqb_neq in Hz];
      destruct (conflicts _ _ _ i j);
      destruct (tget (fixed (g_board g)) i j =? 0) eqn:Hx;
      [apply Z.eqb_eq in Hx|apply Z.eqb_neq in Hx|apply Z.eqb_eq in Hx|apply Z.eqb_neq in Hx
       |apply Z.eqb_eq in Hx|apply Z.eqb_neq in Hx|apply Z.eqb_eq in Hx|apply Z.eqb_neq in Hx];
      cbn [negb andb b2z]; (split; [split; [intros H; try discriminate H|intros [H1 [H2 H3]]]|]);
      auto; try congruence; try contradiction.
  - destruct (existsb _ _) eqn:Hex.
    + split; [intros _|reflexivity].
      apply existsb_exists in Hex. destruct Hex as [[i j] [Hin Hbad]].
      apply in_all_cells in Hin. cbn [fst snd] in Hbad.
      apply andb_true_iff in Hbad. destruct Hbad as [Hz Hcf].
      apply negb_true_iff, Z.eqb_neq in Hz. exists i, j. auto.
    + split; [discriminate|]. intros [i [j [Hc [Hz Hcf]]]]. exfalso.
      rewrite <- not_true_iff_false in Hex. apply Hex.
      apply existsb_exists. exists (i, j). split; [now apply in_all_cells|].
      cbn [fst snd]. rewrite Hcf, andb_true_r. now apply negb_true_iff, Z.eqb_neq.
  - destruct (existsb _ _); auto.
Qed.

(** ** Copies of a table *)

Lemma copy_table_cells (dst src : table) (n : Z) :
  copy_table dst src n
  = fold_left (fun d c => tset d (fst c) (snd c) (tget src (fst c) (snd c)))
              (all_cells n) dst.
Proof.
  change (copy_table dst src n) with (for2 n (fun i j d => tset d i j (tget src i j)) dst).
  apply for2_all_cells.
Qed.

Lemma copy_cells_spec (n : Z) (src : table) (cells : list (Z * Z)) :
  (forall c, In c cells -> in_range n c) ->
  forall dst, table_of_dim n dst ->
    let dst' := fold_left (fun d c => tset d (fst c) (snd c) (tget src (fst c) (snd c)))
                          cells dst in
    table_of_dim n dst' /\
    forall c, in_range n c ->
              tget dst' (fst c) (snd c)
              = if existsb (cell_eqb c) cells then tget src (fst c) (snd c)
                else tget dst (fst c) (snd c).
Proof.
  induction cells as [|c0 cells IH]; intros Hin dst Hdst; cbn [fold_left].
  - split; auto.
  - destruct (IH (fun c H => Hin c (or_intror H))
                 (tset dst (fst c0) (snd c0) (tget src (fst c0) (snd c0)))
                 (table_of_dim_tset n dst _ _ _ Hdst)) as [Hdim Hget].
    split; [exact Hdim|]. intros c Hc. rewrite (Hget c Hc). cbn [existsb].
    destruct (existsb (cell_eqb c) cells); [now rewrite orb_true_r|].
    rewrite orb_false_r.
    assert (Hc0 : in_range n c0) by (apply Hin; now left).
    destruct (cell_eqb c c0) eqn:Heq.
    + apply cell_eqb_eq in Heq. subst c.
      destruct Hc0. apply (tget_tset_in n); assumption.
    + apply cell_eqb_neq in Heq. destruct c as [i j], c0 as [i0 j0].
      destruct Hc, Hc0. simpl in *.
      apply tget_tset_other; try lia. congruence.
Qed.

Lemma table_of_dim_copy (n : Z) (src : table) :
  table_of_dim n (copy_table (alloc_table n) src n).
Proof.
  rewrite copy_table_cells.
  apply (copy_cells_spec n src (all_cells n)
           (fun c H => proj1 (in_all_cells n c) H) (alloc_table n) (table_of_dim_alloc n)).
Qed.

Lemma tget_copy_table (n : Z) (src : table) (i j : Z) :
  in_range n (i, j) -> tget (copy_table (alloc_table n) src n) i j = tget src i j.
Proof.
  intros Hc. rewrite copy_table_cells.
  destruct (copy_cells_spec n src (all_cells n)
              (fun c H => proj1 (in_all_cells n c) H) (alloc_table n)
              (table_of_dim_alloc n)) as [_ Hget].
  specialize (Hget (i, j) Hc). cbn [fst snd] in Hget. rewrite Hget.
  now rewrite existsb_cell_eqb_in by (now apply in_all_cells).
Qed.

(** Two tables of the same dimension with the same entries are equal. *)
Lemma table_ext (n : Z) (a b : table) :
  table_of_dim n a -> table_of_dim n b ->
  (forall i j, in_range n (i, j) -> tget a i j = tget b i j) -> a = b.
Proof.
  intros [Hla Hra] [Hlb Hrb] H.
  apply (nth_ext a b [] []); [congruence|]. intros r Hr.
  assert (Hr' : (r < length b)%nat) by congruence.
  apply (nth_ext _ _ 0 0).
  - rewrite (Hra _ (nth_In a [] Hr)), (Hrb _ (nth_In b [] Hr')). reflexivity.
  - intros k Hk. rewrite (Hra _ (nth_In a [] Hr)) in Hk.
    specialize (H (Z.of_nat r) (Z.of_nat k)). unfold tget in H.
    rewrite !Nat2Z.id in H. apply H. unfold in_range. simpl. lia.
Qed.

(** On a table of dimension [n], the copy is the table. *)
Lemma copy_table_id (n : Z) (src : table) :
  table_of_dim n src -> copy_table (alloc_table n) src n = src.
Proof.
  intros H. apply (table_ext n); [apply table_of_dim_copy|exact H|].
  intros i j Hc. now apply tget_copy_table.
Qed.

(** ** Commands that only look at the board *)

Lemma update_erroneous_frame_kept (g : game_state) :
  frame_kept g (snd (update_erroneous g)).
Proof.
  pose proof (update_erroneous_frame g) as H. cbv zeta in H. unfold frame_kept. tauto.
Qed.

Ltac unfold_monad :=
  unfold bind, ret, get_state, put_state, printf; cbn [fst snd g_state].

Ltac case_branch :=
  match goal with
  | |- context [if ?c then _ else _] => destruct c
  | |- context [let '(_, _) := ?p in _] => destruct p
  end.

Lemma validate_frame {E : Environment} (w : world) :
  frame_kept (g_state w) (g_state (snd (validate w))).
Proof.
  pose proof (update_erroneous_frame_kept (g_state w)) as H.
  unfold validate. unfold_monad.
  destruct (update_erroneous (g_state w)) as [e g']. cbn [snd] in H.
  repeat (case_branch; unfold_monad); exact H.
Qed.

Lemma hint_frame {E : Environment} (w : world) (x y : Z) :
  frame_kept (g_state w) (g_state (snd (hint x y w))).
Proof.
  pose proof (update_erroneous_frame_kept (g_state w)) as H.
  unfold hint. unfold_monad.
  destruct (update_erroneous (g_state w)) as [e g']. cbn [snd] in H.
  repeat (case_branch; unfold_monad); exact H.
Qed.

Lemma print_all_state (l : list output) (w : world) :
  g_state (snd (print_all l w)) = g_state w.
Proof.
  revert w. induction l as [|o l IH]; intros w; [reflexivity|].
  cbn [print_all]. unfold_monad. now rewrite IH.
Qed.

Ltac case_print_all :=
  match goal with
  | |- context [print_all ?l ?w0] =>
      let Hp := fresh "Hp" in
      pose proof (print_all_state l w0) as Hp;
      destruct (print_all l w0); cbn [snd g_state] in Hp
  end.

Lemma guess_hint_frame {E : Environment} (w : world) (x y : Z) :
  frame_kept (g_state w) (g_state (snd (guess_hint x y w))).
Proof.
  pose proof (update_erroneous_frame_kept (g_state w)) as H.
  unfold guess_hint. unfold_monad.
  destruct (update_erroneous (g_state w)) as [e g']. cbn [snd] in H.
  repeat (first [case_print_all|case_branch]; unfold_monad); try exact H.
  now rewrite Hp.
Qed.

Lemma num_solutions_frame (fuel : nat) (w : world) (r : RETURN_STATUS) (w' : world) :
  num_solutions fuel w = Some (r, w') -> frame_kept (g_state w) (g_state w').
Proof.
  pose proof (update_erroneous_frame_kept (g_state w)) as H.
  unfold num_solutions. unfold_monad.
  destruct (update_erroneous (g_state w)) as [e g']. cbn [snd] in H.
  destruct (negb (e =? 0)).
  - intros Heq. inversion Heq; subst. exact H.
  - destruct (backTrack _ _ _ _) as [[[st k] b']|]; [|discriminate].
    intros Heq. inversion Heq; subst. exact H.
Qed.

(** Given enough fuel, [num_solutions] returns on a well-formed board. *)
Lemma num_solutions_returns (w : world) :
  board_wf (g_board (g_state w)) ->
  exists m, forall fuel, (m <= fuel)%nat ->
    exists w', num_solutions fuel w = Some (PROCESS_SUCCESS, w').
Proof.
  intros [Hbr [Hbc [HN [Hb _]]]].
  pose proof (update_erroneous_frame (g_state w)) as Hf. cbv zeta in Hf.
  unfold num_solutions. unfold_monad.
  destruct (update_erroneous (g_state w)) as [e g']. cbn [snd] in Hf.
  destruct Hf as [_ [_ [_ [_ [Hboard [_ [Hbc' [Hbr' [HN' _]]]]]]]]].
  destruct (negb (e =? 0)).
  - exists O. intros fuel _. eexists. reflexivity.
  - rewrite Hboard, Hbc', Hbr', HN', HN.
    set (b0 := copy_table _ _ _).
    assert (Hdim0 : table_of_dim (block_rows (g_board (g_state w))
                                  * block_cols (g_board (g_state w))) b0).
    { unfold b0. rewrite <- HN. apply table_of_dim_copy. }
    destruct (backTrack_runs _ _ Hbr Hbc b0 Hdim0) as [m Hm].
    exists m. intros fuel Hfuel. rewrite (Hm fuel Hfuel). eexists. reflexivity.
Qed.

(** C10. [validate], [hint], [guess_hint] and [num_solutions] leave the
    board values, the fixed table, [empty_cells_num], the mode and the
    history as they were, whatever they answer; [num_solutions] does answer
    on a well-formed board. *)
Theorem solver_commands_keep_the_game {E : Environment} (w : world) (x y : Z) :
  frame_kept (g_state w) (g_state (snd (validate w))) /\
  frame_kept (g_state w) (g_state (snd (hint x y w))) /\
  frame_kept (g_state w) (g_state (snd (guess_hint x y w))) /\
  (forall fuel r w', num_solutions fuel w = Some (r, w') ->
                     frame_kept (g_state w) (g_state w')) /\
  (board_wf (g_board (g_state w)) ->
   exists m, forall fuel, (m <= fuel)%nat ->
     exists w', num_solutions fuel w = Some (PROCESS_SUCCESS, w')).
Proof.
  split; [apply validate_frame|].
  split; [apply hint_frame|].
  split; [apply guess_hint_frame|].
  split; [intros fuel r w'; apply num_solutions_frame|].
  apply num_solutions_returns.
Qed.

(** ** Undo, redo and reset *)

Lemma print_board_core (w : world) :
  core (g_state (snd (print_board w))) = core (g_state w)
  /\ mode (g_state (snd (print_board w))) = mode (g_state w)
  /\ fixed (g_board (g_state (snd (print_board w)))) = fixed (g_board (g_state w)).
Proof.
  pose proof (update_erroneous_frame_kept (g_state w)) as H.
  unfold print_board. unfold_monad.
  destruct (negb _); cbn [g_state]; [|auto].
  destruct H as [Hb [Hf [He [Hm Hl]]]]. unfold core. rewrite Hb, He, Hl. auto.
Qed.

Lemma change_cell_core (g g' : game_state) (r c from to : Z) :
  core g = core g' -> core (change_cell g r c from to) = core (change_cell g' r c from to).
Proof.
  unfold core, change_cell. cbn. intros H. inversion H as [[Hb He Hl]].
  now rewrite Hb, He, Hl.
Qed.

Lemma change_cell_m_list (g : game_state) (r c from to : Z) :
  m_list (change_cell g r c from to) = m_list g.
Proof. reflexivity. Qed.

Lemma revert_changes_core (changes : list change_node) :
  forall g g', core g = core g' ->
               core (revert_changes g changes) = core (revert_changes g' changes).
Proof.
  unfold revert_changes. induction changes as [|c changes IH]; intros g g' H; [exact H|].
  cbn [fold_left]. apply IH. now apply change_cell_core.
Qed.

Lemma revert_changes_m_list (changes : list change_node) (g : game_state) :
  m_list (revert_changes g changes) = m_list g.
Proof.
  unfold revert_changes. revert g. induction changes as [|c changes IH]; intros g;
    [reflexivity|].
  cbn [fold_left]. now rewrite IH.
Qed.

(** One [undo] does to the board, to [empty_cells_num] and to the history
    what one iteration of the loop of [reset] does. *)
Lemma undo_core (w : world) :
  can_undo (m_list (g_state w)) = true ->
  core (g_state (snd (undo w)))
  = core (with_m_list
            (revert_changes (g_state w) (get_curr_pointer_changes_iter (m_list (g_state w))))
            (dec_curr_pointer (m_list (g_state w)))).
Proof.
  intros Hc. unfold undo. unfold_monad. rewrite Hc. cbn [negb]. unfold_monad.
  match goal with
  | |- context [print_board ?w0] =>
      destruct (print_board_core w0) as [Hp _]; destruct (print_board w0) as [u w1]
  end.
  cbn [snd g_state] in *.
  case_print_all. unfold_monad.
  unfold core in *. cbn [m_list g_board with_m_list] in *.
  inversion Hp as [[Hb He Hl]]. rewrite Hb, He, Hl.
  now rewrite revert_changes_m_list.
Qed.

Lemma reset_loop_core (n : nat) :
  forall g g', core g = core g' -> core (reset_loop n g) = core (reset_loop n g').
Proof.
  induction n as [|n IH]; intros g g' H; [exact H|].
  cbn [reset_loop].
  assert (Hl : m_list g = m_list g') by (unfold core in H; congruence).
  rewrite Hl. destruct (can_undo (m_list g')); [|exact H].
  apply IH. unfold core. cbn [with_m_list m_list g_board].
  pose proof (revert_changes_core (get_curr_pointer_changes_iter (m_list g')) g g' H) as Hr.
  unfold core in Hr. congruence.
Qed.

Lemma undo_until_done_core (n : nat) :
  forall w g, core (g_state w) = core g ->
              core (g_state (undo_until_done n w)) = core (reset_loop n g).
Proof.
  induction n as [|n IH]; intros w g H; [exact H|].
  cbn [undo_until_done reset_loop].
  assert (Hl : m_list (g_state w) = m_list g) by (unfold core in H; congruence).
  rewrite <- Hl. destruct (can_undo (m_list (g_state w))) eqn:Hc; [|exact H].
  apply IH. rewrite (undo_core w Hc).
  unfold core. cbn [with_m_list m_list g_board].
  pose proof (revert_changes_core (get_curr_pointer_changes_iter (m_list (g_state w)))
                (g_state w) g H) as Hr.
  unfold core in Hr. rewrite (revert_changes_m_list _ g). congruence.
Qed.

(** The loop of [reset] has stopped after as many iterations as the
    position of the current pointer. *)
Lemma reset_loop_done (n : nat) :
  forall g, (curr_pointer (m_list g) <= n)%nat ->
            can_undo (m_list (reset_loop n g)) = false.
Proof.
  induction n as [|n IH]; intros g H; cbn [reset_loop].
  - unfold can_undo. replace (curr_pointer (m_list g)) with O by lia. reflexivity.
  - destruct (can_undo (m_list g)) eqn:Hc; [|exact Hc].
    apply IH. cbn [with_m_list m_list]. rewrite revert_changes_m_list.
    unfold dec_curr_pointer, can_undo in *. cbn [curr_pointer].
    destruct (curr_pointer (m_list g)); [discriminate|lia].
Qed.

Lemma undo_until_done_stable (n k : nat) :
  forall w, can_undo (m_list (g_state (undo_until_done n w))) = false ->
            undo_until_done (n + k) w = undo_until_done n w.
Proof.
  induction n as [|n IH]; intros w H; cbn [undo_until_done Nat.add] in *.
  - destruct k; [reflexivity|]. cbn [undo_until_done]. now rewrite H.
  - destruct (can_undo (m_list (g_state w))); [now apply IH|reflexivity].
Qed.

(** C5. [reset] leaves the board values, [empty_cells_num] and the current
    pointer of the history as [undo] does when it is performed again and
    again until [can_undo] is false. *)
Theorem reset_is_repeated_undo (w : world) :
  let n := curr_pointer (m_list (g_state w)) in
  let w_reset := snd (reset w) in
  let w_undo := undo_until_done n w in
  can_undo (m_list (g_state w_undo)) = false /\
  (forall k, undo_until_done (n + k) w = w_undo) /\
  board (g_board (g_state w_reset)) = board (g_board (g_state w_undo)) /\
  empty_cells_num (g_board (g_state w_reset)) = empty_cells_num (g_board (g_state w_undo)) /\
  curr_pointer (m_list (g_state w_reset)) = curr_pointer (m_list (g_state w_undo)) /\
  m_list (g_state w_reset) = m_list (g_state w_undo).
Proof.
  cbv zeta.
  pose proof (undo_until_done_core (curr_pointer (m_list (g_state w))) w (g_state w) eq_refl)
    as Hu.
  pose proof (reset_loop_done (curr_pointer (m_list (g_state w))) (g_state w) (le_n _))
    as Hd.
  assert (Hr : core (g_state (snd (reset w)))
               = core (reset_loop (curr_pointer (m_list (g_state w))) (g_state w))).
  { unfold reset. unfold_monad.
    match goal with
    | |- context [print_board ?w0] =>
        destruct (print_board_core w0) as [Hp _]; destruct (print_board w0) as [u w1]
    end.
    cbn [snd g_state] in *. exact Hp. }
  unfold core in Hu, Hr.
  assert (Hdone : can_undo (m_list (g_state (undo_until_done
                     (curr_pointer (m_list (g_state w))) w))) = false)
    by (inversion Hu as [[Hb He Hl]]; now rewrite Hl).
  split; [exact Hdone|].
  split; [intros k; now apply undo_until_done_stable|].
  rewrite <- Hr in Hu. inversion Hu as [[Hb He Hl]]. rewrite Hb, He, Hl. auto.
Qed.

(** ** What the commands do to the mode and to the fixed table *)

Lemma fixed_step_refl (g : game_state) : fixed_step g g.
Proof. left. auto. Qed.

Lemma fixed_step_kept (g g' : game_state) :
  mode g' = mode g -> fixed (g_board g') = fixed (g_board g) -> fixed_step g g'.
Proof. left. auto. Qed.

Lemma fixed_step_trans (g1 g2 g3 : game_state) :
  fixed_step g1 g2 -> fixed_step g2 g3 -> fixed_step g1 g3.
Proof.
  unfold fixed_step. intros H12 H23.
  destruct H23 as [[Hm Hf]|[H|H]]; auto.
  destruct H12 as [[Hm' Hf']|[H|H]].
  - left. split; congruence.
  - right. left. congruence.
  - right. right. now rewrite Hf.
Qed.

Lemma edit_unfixed_step (g g' : game_state) :
  edit_unfixed g -> fixed_step g g' -> edit_unfixed g'.
Proof.
  unfold edit_unfixed, fixed_step. intros Hg [[Hm Hf]|[H|H]] He; auto.
  - rewrite Hf. apply Hg. congruence.
  - contradiction.
Qed.

Lemma only_board_fixed_step (g g' : game_state) : only_board g g' -> fixed_step g g'.
Proof. unfold only_board. intros ->. now left. Qed.

Lemma only_board_refl (g : game_state) : only_board g g.
Proof. unfold only_board. now destruct g as [? ? ? [] ?]. Qed.

Lemma only_board_trans (g1 g2 g3 : game_state) :
  only_board g1 g2 -> only_board g2 g3 -> only_board g1 g3.
Proof. unfold only_board. intros H12 H23. rewrite H23, H12. reflexivity. Qed.

Lemma only_board_with_board (g : game_state) (b : table) :
  only_board g (with_g_board g (with_board (g_board g) b)).
Proof. reflexivity. Qed.

Lemma randomly_extract_state {E : Environment} (l : list (Z * Z)) (len : Z) (w : world) :
  g_state (snd (randomly_extract_a_cell l len w)) = g_state w.
Proof. unfold randomly_extract_a_cell, call_rand. unfold_monad. reflexivity. Qed.

Lemma randomly_fill_loop_state {E : Environment} (x : nat) (br bc : Z) :
  forall b l len w, g_state (snd (randomly_fill_loop x br bc b l len w)) = g_state w.
Proof.
  induction x as [|x IH]; intros b l len w; [reflexivity|].
  cbn [randomly_fill_loop]. unfold bind at 1.
  pose proof (randomly_extract_state l len w) as He.
  destruct (randomly_extract_a_cell l len w) as [[[cell l'] len'] w1]. cbn [snd] in He.
  destruct (find_all_legal_values _ _ _ _ _) as [[num lv] b'].
  destruct (num =? 0); [exact He|].
  unfold bind, call_rand. rewrite IH. exact He.
Qed.

Lemma randomly_fill_state {E : Environment} (b : table) (x br bc : Z) (w : world) :
  g_state (snd (randomly_fill_a_legal_board b x br bc w)) = g_state w.
Proof.
  unfold randomly_fill_a_legal_board. destruct (x =? 0); [reflexivity|].
  apply randomly_fill_loop_state.
Qed.

Lemma put_board_state (b : table) (w : world) :
  g_state (snd (put_board b w))
  = with_g_board (g_state w) (with_board (g_board (g_state w)) b).
Proof. reflexivity. Qed.

Lemma randomly_generate_loop_only_board {E : Environment} (tries : nat) (old : table) (x : Z) :
  forall w, only_board (g_state w) (g_state (snd (randomly_generate_loop tries old x w))).
Proof.
  induction tries as [|tries IH]; intros w; [apply only_board_refl|].
  cbn [randomly_generate_loop]. unfold bind at 1. unfold get_state.
  unfold bind at 1.
  pose proof (randomly_fill_state (board (g_board (g_state w))) x
                (block_rows (g_board (g_state w))) (block_cols (g_board (g_state w))) w)
    as Hf.
  destruct (randomly_fill_a_legal_board _ _ _ _ w) as [[status b] w1]. cbn [snd] in Hf.
  unfold bind at 1.
  pose proof (put_board_state b w1) as Hp. destruct (put_board b w1) as [u w2].
  cbn [snd] in Hp. rewrite Hf in Hp.
  assert (H2 : only_board (g_state w) (g_state w2))
    by (rewrite Hp; apply only_board_with_board).
  destruct (status_eqb status PROCESS_FAIL); [exact H2|].
  unfold bind at 1.
  set (again := if status_eqb status FILL_SUCCESS then _ else _).
  assert (Ha : only_board (g_state w) (g_state (snd (again w2)))).
  { unfold again. destruct (status_eqb status FILL_SUCCESS); [|exact H2].
    destruct (solve_board_with_ILP b _ _) as [status' b'].
    unfold bind at 1.
    pose proof (put_board_state b' w2) as Hp'. destruct (put_board b' w2) as [u' w3].
    cbn [snd] in Hp'.
    assert (H3 : only_board (g_state w) (g_state w3)).
    { eapply only_board_trans; [exact H2|]. rewrite Hp'. apply only_board_with_board. }
    repeat (case_branch; unfold_monad); exact H3. }
  destruct (again w2) as [[st|] w3]; cbn [snd] in Ha; [exact Ha|].
  unfold bind at 1. unfold get_state. unfold bind at 1.
  match goal with
  | |- context [put_board ?b0 w3] =>
      pose proof (put_board_state b0 w3) as Hp3; destruct (put_board b0 w3) as [u3 w4]
  end.
  cbn [snd] in Hp3.
  eapply only_board_trans; [|apply IH].
  eapply only_board_trans; [exact Ha|]. rewrite Hp3. apply only_board_with_board.
Qed.

Lemma randomly_generate_board_only_board {E : Environment} (x : Z) (w : world) :
  only_board (g_state w) (g_state (snd (randomly_generate_board x w))).
Proof.
  unfold randomly_generate_board. unfold_monad.
  apply randomly_generate_loop_only_board.
Qed.

Lemma choose_cells_state {E : Environment} (y : nat) :
  forall l len w, g_state (snd (choose_cells_to_keep y l len w)) = g_state w.
Proof.
  induction y as [|y IH]; intros l len w; [reflexivity|].
  cbn [choose_cells_to_keep]. unfold bind at 1.
  pose proof (randomly_extract_state l len w) as He.
  destruct (randomly_extract_a_cell l len w) as [[[cell l'] len'] w1]. cbn [snd] in He.
  rewrite IH. exact He.
Qed.

Lemma partially_clear_state {E : Environment} (b : table) (y n : Z) (w : world) :
  g_state (snd (partially_clear_board b y n w)) = g_state w.
Proof.
  unfold partially_clear_board. destruct (y =? n * n); [reflexivity|].
  unfold bind. pose proof (choose_cells_state (Z.to_nat y) (all_cells n) (n * n) w) as Hc.
  destruct (choose_cells_to_keep _ _ _ w) as [l w1]. exact Hc.
Qed.

Ltac case_print_board :=
  match goal with
  | |- context [print_board ?w0] =>
      let Hp := fresh "Hpb" in
      let Hm := fresh "Hpm" in
      let Hf := fresh "Hpf" in
      destruct (print_board_core w0) as [Hp [Hm Hf]];
      destruct (print_board w0); cbn [snd g_state] in Hp, Hm, Hf
  end.

Ltac state_simpl :=
  unfold set_cell, free_game, with_m_list, with_g_board, with_board, with_err,
         with_fixed, with_empty_cells_num, with_mark_errors in *;
  cbn [fst snd g_state mode mark_errors m_list g_board valid board err fixed block_cols
       block_rows N empty_cells_num] in *.

Ltac kept :=
  first [ apply fixed_step_refl
        | left; split; state_simpl; congruence
        | right; left; state_simpl; congruence ].

Lemma print_board_fixed_step (w : world) :
  fixed_step (g_state w) (g_state (snd (print_board w))).
Proof. destruct (print_board_core w) as [_ [Hm Hf]]. now left. Qed.

Lemma check_filled_board_fixed_step {E : Environment} (w : world) :
  fixed_step (g_state w) (g_state (snd (check_filled_board w))).
Proof.
  unfold check_filled_board. unfold_monad.
  repeat (case_branch; unfold_monad); try apply fixed_step_refl.
  right. left. discriminate.
Qed.

Lemma set_fixed_step {E : Environment} (x y z : Z) (w : world) :
  fixed_step (g_state w) (g_state (snd (set x y z w))).
Proof.
  unfold set. unfold_monad. case_branch; unfold_monad; [apply fixed_step_refl|].
  case_print_board. case_branch; [|kept].
  eapply fixed_step_trans; [|apply check_filled_board_fixed_step]. kept.
Qed.

Lemma change_cell_mode_fixed (g : game_state) (r c from to : Z) :
  mode (change_cell g r c from to) = mode g /\
  fixed (g_board (change_cell g r c from to)) = fixed (g_board g).
Proof. split; reflexivity. Qed.

Lemma revert_changes_mode_fixed (changes : list change_node) (g : game_state) :
  mode (revert_changes g changes) = mode g /\
  fixed (g_board (revert_changes g changes)) = fixed (g_board g).
Proof.
  unfold revert_changes. revert g. induction changes as [|c l IH]; intros g; [auto|].
  cbn [fold_left]. destruct (IH (change_cell g (cell_rows c) (cell_cols c) (z2 c) (z1 c)))
    as [Hm Hf]. rewrite Hm, Hf. auto.
Qed.

Lemma apply_changes_mode_fixed (changes : list change_node) (g : game_state) :
  mode (apply_changes g changes) = mode g /\
  fixed (g_board (apply_changes g changes)) = fixed (g_board g).
Proof.
  unfold apply_changes. revert g. induction changes as [|c l IH]; intros g; [auto|].
  cbn [fold_left]. destruct (IH (change_cell g (cell_rows c) (cell_cols c) (z1 c) (z2 c)))
    as [Hm Hf]. rewrite Hm, Hf. auto.
Qed.

Lemma undo_fixed_step (w : world) : fixed_step (g_state w) (g_state (snd (undo w))).
Proof.
  unfold undo. unfold_monad. case_branch; unfold_monad; [apply fixed_step_refl|].
  destruct (revert_changes_mode_fixed (get_curr_pointer_changes_iter (m_list (g_state w)))
              (g_state w)) as [Hm Hf].
  case_print_board. case_print_all. unfold_monad. kept.
Qed.

Lemma redo_fixed_step (w : world) : fixed_step (g_state w) (g_state (snd (redo w))).
Proof.
  unfold redo. unfold_monad. case_branch; unfold_monad; [apply fixed_step_refl|].
  match goal with
  | |- context [apply_changes ?g0 ?l] =>
      destruct (apply_changes_mode_fixed l g0) as [Hm Hf]
  end.
  case_print_board. case_print_all. unfold_monad. kept.
Qed.

Lemma reset_loop_mode_fixed (n : nat) :
  forall g, mode (reset_loop n g) = mode g /\
            fixed (g_board (reset_loop n g)) = fixed (g_board g).
Proof.
  induction n as [|n IH]; intros g; [auto|]. cbn [reset_loop].
  destruct (can_undo (m_list g)); [|auto].
  destruct (revert_changes_mode_fixed (get_curr_pointer_changes_iter (m_list g)) g)
    as [Hm Hf].
  match goal with |- context [reset_loop n ?g0] => destruct (IH g0) as [Hm' Hf'] end.
  rewrite Hm', Hf'. cbn. auto.
Qed.

Lemma reset_fixed_step (w : world) : fixed_step (g_state w) (g_state (snd (reset w))).
Proof.
  unfold reset. unfold_monad.
  destruct (reset_loop_mode_fixed (curr_pointer (m_list (g_state w))) (g_state w))
    as [Hm Hf].
  case_print_board. kept.
Qed.

Lemma autofill_cells_mode_fixed (cells : list (Z * Z)) :
  forall s : game_state * table * move_node * list output,
    let s' := fold_left (fun s c => autofill_cell (fst c) (snd c) s) cells s in
    mode (fst (fst (fst s'))) = mode (fst (fst (fst s))) /\
    fixed (g_board (fst (fst (fst s')))) = fixed (g_board (fst (fst (fst s)))).
Proof.
  induction cells as [|c cells IH]; intros s; [cbn; auto|].
  cbn [fold_left]. cbv zeta in *.
  destruct (IH (autofill_cell (fst c) (snd c) s)) as [Hm Hf]. rewrite Hm, Hf.
  destruct s as [[[g old] m] out]. unfold autofill_cell.
  repeat (case_branch; cbn [fst snd]); auto.
Qed.

Lemma autofill_changes_mode_fixed (g : game_state) :
  mode (fst (autofill_changes g)) = mode g /\
  fixed (g_board (fst (autofill_changes g))) = fixed (g_board g).
Proof.
  unfold autofill_changes. rewrite for2_all_cells.
  match goal with
  | |- context [fold_left ?f ?l ?s0] =>
      destruct (autofill_cells_mode_fixed l s0) as [Hm Hf];
      destruct (fold_left f l s0) as [[[g1 old1] m1] out1]
  end.
  cbn [fst snd] in *. destruct m1; cbn [fst]; state_simpl; auto.
Qed.

Lemma autofill_fixed_step {E : Environment} (w : world) :
  fixed_step (g_state w) (g_state (snd (autofill w))).
Proof.
  pose proof (update_erroneous_frame_kept (g_state w)) as H.
  unfold autofill. unfold_monad.
  destruct (update_erroneous (g_state w)) as [e g']. cbn [snd] in H.
  destruct H as [_ [Hf [_ [Hm _]]]].
  case_branch; unfold_monad; [kept|].
  destruct (autofill_changes_mode_fixed g') as [Hm' Hf'].
  destruct (autofill_changes g') as [g1 out1]. cbn [fst] in Hm', Hf'.
  case_print_all. unfold_monad.
  case_print_board.
  assert (Hstep : fixed_step (g_state w) (g_state w1)) by kept.
  case_branch; [|exact Hstep].
  eapply fixed_step_trans; [exact Hstep|apply check_filled_board_fixed_step].
Qed.

Lemma guess_fixed_step {E : Environment} (x : double) (w : world) :
  fixed_step (g_state w) (g_state (snd (guess x w))).
Proof.
  pose proof (update_erroneous_frame_kept (g_state w)) as H.
  unfold guess. unfold_monad.
  destruct (update_erroneous (g_state w)) as [e g']. cbn [snd] in H.
  destruct H as [_ [Hf [_ [Hm _]]]].
  case_branch; unfold_monad; [kept|].
  destruct (solve_board_with_LP _ _ _) as [[status b0] sol].
  case_branch; unfold_monad; [kept|].
  destruct (random_guess _ _ _ _ _ _) as [b calls]. unfold_monad.
  case_print_board. kept.
Qed.

Lemma generate_fixed_step {E : Environment} (x y : Z) (w : world) :
  fixed_step (g_state w) (g_state (snd (generate x y w))).
Proof.
  unfold generate. unfold_monad.
  case_branch; unfold_monad; [apply fixed_step_refl|].
  pose proof (randomly_generate_board_only_board x w) as Hg.
  destruct (randomly_generate_board x w) as [status w1]. cbn [snd] in Hg.
  apply only_board_fixed_step in Hg.
  case_branch; unfold_monad; [exact Hg|].
  case_branch; unfold_monad; [exact Hg|].
  match goal with
  | |- context [partially_clear_board ?b ?y0 ?n0 w1] =>
      pose proof (partially_clear_state b y0 n0 w1) as Hc;
      destruct (partially_clear_board b y0 n0 w1) as [r w2]
  end.
  cbn [snd] in Hc. unfold put_board. unfold_monad.
  eapply fixed_step_trans; [exact Hg|].
  destruct (y >? 0); unfold_monad; case_print_board; kept.
Qed.

Lemma save_fixed_step {E : Environment} (path : string) (w : world) :
  fixed_step (g_state w) (g_state (snd (save path w))).
Proof.
  pose proof (update_erroneous_frame_kept (g_state w)) as H.
  unfold save, save_game, write_file. unfold_monad.
  destruct (update_erroneous (g_state w)) as [e g']. cbn [snd] in H.
  destruct H as [_ [Hf [_ [Hm _]]]].
  repeat (case_branch; unfold_monad); kept.
Qed.

Lemma load_cells_unfixed (cells : list (Z * Z)) :
  forall tokens s b f e,
    load_cells tokens cells false s = Some (b, f, e) -> f = snd (fst s).
Proof.
  induction cells as [|[i j] cells IH]; intros tokens s b f e H.
  - cbn in H. inversion H. reflexivity.
  - cbn [load_cells] in H. destruct tokens as [|[v ch] rest]; [discriminate|].
    destruct s as [[b0 f0] e0]. rewrite andb_false_r in H. cbn [andb] in H.
    apply IH in H. exact H.
Qed.

(** A board loaded for [edit] has no fixed cell. *)
Lemma load_game_unfixed (path : string) (w : world) (gb : game_board) :
  fst (load_game path false w) = inl gb -> forall i j, tget (fixed gb) i j = 0.
Proof.
  unfold load_game, fopen_r. unfold_monad.
  destruct (lookup_file (files w) path) as [[|[br t1] [|[bc t2] tokens]]|];
    unfold_monad; try discriminate.
  destruct (alloc_table_fails _); unfold_monad; [discriminate|].
  destruct (load_cells _ _ _ _) as [[[b f] e]|] eqn:Hl; unfold_monad; [|discriminate].
  intros Heq i j. inversion Heq; subst. cbn [fixed].
  apply load_cells_unfixed in Hl. cbn in Hl. subst f. apply tget_alloc.
Qed.

Lemma load_game_state (path : string) (set_fixed : bool) (w : world) :
  g_state (snd (load_game path set_fixed w)) = g_state w.
Proof.
  unfold load_game, fopen_r. unfold_monad.
  destruct (lookup_file (files w) path) as [[|[br t1] [|[bc t2] tokens]]|];
    unfold_monad; try reflexivity.
  destruct (alloc_table_fails _); unfold_monad; [reflexivity|].
  destruct (load_cells _ _ _ _) as [[[b f] e]|]; reflexivity.
Qed.

Lemma solve_fixed_step (path : string) (w : world) :
  fixed_step (g_state w) (g_state (snd (solve path w))).
Proof.
  unfold solve. unfold bind at 1.
  pose proof (load_game_state path true w) as Hs.
  destruct (load_game path true w) as [[gb|st] w1]; cbn [snd] in Hs; unfold_monad.
  - case_print_board. right. left. state_simpl. congruence.
  - destruct (status_eqb st IO_FAIL); unfold_monad; rewrite Hs; apply fixed_step_refl.
Qed.

Lemma edit_fixed_step (path : option string) (w : world) :
  fixed_step (g_state w) (g_state (snd (edit path w))).
Proof.
  unfold edit. unfold bind at 1.
  destruct path as [p|].
  - pose proof (load_game_state p false w) as Hs.
    pose proof (load_game_unfixed p w) as Hu.
    destruct (load_game p false w) as [[gb|st] w1]; cbn [fst snd] in Hs, Hu; unfold_monad.
    + case_print_board. right. right. intros i j. state_simpl. rewrite Hpf.
      now apply Hu.
    + destruct (status_eqb st IO_FAIL); unfold_monad; rewrite Hs; apply fixed_step_refl.
  - unfold_monad. case_print_board. right. right. intros i j. state_simpl.
    rewrite Hpf. apply (tget_alloc 9).
Qed.

Lemma print_invalid_mode_state (cmd : command) (w : world) :
  g_state (snd (print_invalid_mode cmd w)) = g_state w.
Proof.
  unfold print_invalid_mode. unfold_monad. now destruct (cmd_type cmd).
Qed.

Lemma invalid_mode_fixed_step (cmd : command) (w : world) :
  fixed_step (g_state w)
             (g_state (snd ((print_invalid_mode cmd ;;; ret PROCESS_SUCCESS) w))).
Proof.
  unfold bind, ret. pose proof (print_invalid_mode_state cmd w) as H.
  destruct (print_invalid_mode cmd w) as [u w1]. cbn [snd] in *. rewrite H.
  apply fixed_step_refl.
Qed.

Lemma only_in_fixed_step (m : GAME_MODE) (cmd : command) (k : M RETURN_STATUS) (w : world) :
  fixed_step (g_state w) (g_state (snd (k w))) ->
  fixed_step (g_state w) (g_state (snd (only_in m cmd k w))).
Proof.
  intros H. unfold only_in. unfold bind at 1. unfold get_state.
  destruct (negb _); [apply invalid_mode_fixed_step|exact H].
Qed.

Lemma process_command_init_fixed_step (cmd : command) (w : world) :
  fixed_step (g_state w) (g_state (snd (process_command_init cmd w))).
Proof.
  unfold process_command_init.
  destruct (cmd_type cmd);
    first [apply solve_fixed_step|apply edit_fixed_step|apply invalid_mode_fixed_step].
Qed.

Lemma total_some {A : Type} (m : M A) (w : world) (r : A) (w' : world) :
  total m w = Some (r, w') -> r = fst (m w) /\ w' = snd (m w).
Proof. unfold total. intros H. injection H as H. now rewrite H. Qed.

(** Every command keeps the mode and the fixed table, leaves Edit mode or
    leaves no cell fixed. *)
Lemma process_command_fixed_step {E : Environment} (fuel : nat) (cmd : command)
      (w : world) (r : RETURN_STATUS) (w' : world) :
  process_command fuel cmd w = Some (r, w') -> fixed_step (g_state w) (g_state w').
Proof.
  unfold process_command.
  destruct (mode_eqb (mode (g_state w)) Init).
  - intros H. apply total_some in H. destruct H as [_ ->].
    apply process_command_init_fixed_step.
  - destruct (cmd_type cmd) eqn:Hc;
      try (intros H; apply total_some in H; destruct H as [_ ->]).
    + apply solve_fixed_step.
    + apply edit_fixed_step.
    + apply only_in_fixed_step. unfold process_mark_errors.
      destruct (_ || _); unfold_monad; kept.
    + unfold_monad. case_print_board. kept.
    + unfold process_set. unfold_monad. destruct (parameters_in_range _ _ _ _).
      * apply set_fixed_step.
      * unfold_monad. apply fixed_step_refl.
    + destruct (validate_frame w) as [_ [Hf [_ [Hm _]]]]. kept.
    + apply only_in_fixed_step. unfold process_generate. unfold_monad.
      destruct (parameters_in_range _ _ _ _).
      * apply generate_fixed_step.
      * unfold_monad. apply fixed_step_refl.
    + apply undo_fixed_step.
    + apply redo_fixed_step.
    + apply save_fixed_step.
    + apply only_in_fixed_step. unfold process_hint. unfold_monad.
      destruct (parameters_in_range _ _ _ _).
      * destruct (hint_frame w (parameter cmd 0) (parameter cmd 1)) as [_ [Hf [_ [Hm _]]]].
        kept.
      * unfold_monad. apply fixed_step_refl.
    + apply only_in_fixed_step. unfold process_guess_hint. unfold_monad.
      destruct (parameters_in_range _ _ _ _).
      * destruct (guess_hint_frame w (parameter cmd 0) (parameter cmd 1))
          as [_ [Hf [_ [Hm _]]]].
        kept.
      * unfold_monad. apply fixed_step_refl.
    + apply only_in_fixed_step. unfold process_guess.
      repeat (case_branch; unfold_monad); try apply fixed_step_refl.
      apply guess_fixed_step.
    + intros H. destruct (num_solutions_frame _ _ _ _ H) as [_ [Hf [_ [Hm _]]]]. kept.
    + apply only_in_fixed_step. apply autofill_fixed_step.
    + apply reset_fixed_step.
    + unfold_monad. apply fixed_step_refl.
    + unfold_monad. apply fixed_step_refl.
    + unfold_monad. apply fixed_step_refl.
    + unfold_monad. apply fixed_step_refl.
Qed.

(** In every state the game loop can be in, no cell is fixed when the mode
    is Edit. *)
Lemma reachable_edit_unfixed {E : Environment} (w : world) :
  reachable w -> edit_unfixed (g_state w).
Proof.
  induction 1 as [g fs calls out|w fuel cmd w' Hr IH Hd Hp].
  - intros Hm. discriminate.
  - eapply edit_unfixed_step; [exact IH|].
    eapply process_command_fixed_step; eassumption.
Qed.

(** ** Examples *)

Example backTrack_example_board :
  backTrack 100 example_board 2 2 = Some (BOARD_SOLVABLE, 2, example_board)
  /\ count_completions example_board 2 2 = 2.
Proof. split; vm_compute; reflexivity. Qed.

Lemma backTrack_counts_completions_witness :
  (0 < 2 /\ 0 < 2 /\ table_of_dim (2 * 2) example_board
   /\ no_duplicates example_board 2 2 = true
   /\ count_completions example_board 2 2 <= INT_MAX)
  /\ exists m, forall fuel, (m <= fuel)%nat ->
       backTrack fuel example_board 2 2
       = Some (if count_completions example_board 2 2 =? 0
               then BOARD_UNSOLVABLE else BOARD_SOLVABLE,
               count_completions example_board 2 2, example_board).
Proof.
  assert (Hdim : table_of_dim (2 * 2) example_board).
  { split; [reflexivity|]. intros r Hr. simpl in Hr.
    repeat (destruct Hr as [<-|Hr]; [reflexivity|]). contradiction. }
  assert (Hmax : count_completions example_board 2 2 <= INT_MAX)
    by (vm_compute; discriminate).
  split.
  - split; [lia|split; [lia|split; [exact Hdim|split; [reflexivity|exact Hmax]]]].
  - apply (backTrack_counts_completions example_board 2 2);
      [lia|lia|exact Hdim|reflexivity|exact Hmax].
Defined.

(** Cells that do not meet in a row, a column or a block, and each of
    which takes every value: they are filled independently. *)
Lemma count_from_free (br bc : Z) (cells : list (Z * Z)) :
  0 < br -> 0 < bc -> NoDup cells ->
  (forall c, In c cells -> in_range (br * bc) c) ->
  (forall c c', In c cells -> In c' cells -> c <> c' -> same_unit br bc c c' = false) ->
  forall b,
    (forall c v, In c cells -> 1 <= v <= br * bc ->
                 is_legal_value b (fst c) (snd c) v br bc = LEGAL_VALUE) ->
    count_from br bc cells b = (br * bc) ^ Z.of_nat (length cells).
Proof.
  intros Hbr Hbc. induction cells as [|c cells IH]; intros Hnd Hin Hun b Hlegal.
  - reflexivity.
  - inversion Hnd as [|? ? Hnotin Hnd']; subst.
    cbn [count_from].
    assert (Hterm : forall v, In v (values (br * bc)) ->
              (if status_eqb (is_legal_value b (fst c) (snd c) v br bc) LEGAL_VALUE
               then count_from br bc cells (tset b (fst c) (snd c) v) else 0)
              = (br * bc) ^ Z.of_nat (length cells)).
    { intros v Hv. apply in_values in Hv.
      rewrite (Hlegal c v (or_introl eq_refl) Hv). cbn [status_eqb].
      apply IH.
      - exact Hnd'.
      - intros c2 H2. apply Hin. right. exact H2.
      - intros c2 c3 H2 H3. apply Hun; right; assumption.
      - intros c2 v2 H2 Hv2.
        assert (Hr2 : in_range (br * bc) c2) by (apply Hin; right; exact H2).
        assert (Hr : in_range (br * bc) c) by (apply Hin; left; reflexivity).
        destruct c2 as [i2 j2]. cbn [fst snd].
        apply (is_legal_value_legal _ i2 j2 v2 br bc Hbr Hbc Hr2).
        intros c3 Hr3 Hu.
        pose proof (proj1 (is_legal_value_legal b i2 j2 v2 br bc Hbr Hbc Hr2)
                          (Hlegal (i2, j2) v2 (or_intror H2) Hv2) c3 Hr3 Hu) as Hb.
        destruct c as [i j], c3 as [i3 j3].
        destruct Hr as [Hr1 Hr1'], Hr3 as [Hr3 Hr3']. cbn [fst snd] in *.
        rewrite tget_tset_other; [exact Hb|lia|lia|lia|lia|].
        intros Heq. inversion Heq; subst i3 j3.
        rewrite (Hun (i2, j2) (i, j) (or_intror H2) (or_introl eq_refl)) in Hu.
        + discriminate Hu.
        + intros Heq2. apply Hnotin. rewrite <- Heq2. exact H2. }
    assert (Hsum : forall l, (forall v, In v l -> In v (values (br * bc))) ->
              fold_right
                (fun v acc =>
                   (if status_eqb (is_legal_value b (fst c) (snd c) v br bc) LEGAL_VALUE
                    then count_from br bc cells (tset b (fst c) (snd c) v) else 0) + acc)
                0 l
              = Z.of_nat (length l) * (br * bc) ^ Z.of_nat (length cells)).
    { induction l as [|v l IHl]; intros Hl; [reflexivity|].
      cbn [fold_right length]. rewrite (Hterm v (Hl v (or_introl eq_refl))).
      rewrite IHl by (intros v' Hv'; apply Hl; right; exact Hv'). lia. }
    rewrite Hsum by auto.
    unfold values. rewrite length_map, zseq_length.
    cbn [length]. rewrite Nat2Z.inj_succ, Z.pow_succ_r by lia.
    rewrite Z2Nat.id by nia. reflexivity.
Qed.

Lemma diagonal_board_completions : count_completions diagonal_board 1 10 = 10000000000.
Proof.
  assert (Hdim : table_of_dim (1 * 10) diagonal_board).
  { split; [reflexivity|]. intros r Hr. vm_compute in Hr.
    repeat (destruct Hr as [<-|Hr]; [reflexivity|]). contradiction. }
  pose proof (fillable_empty_cells 1 10 diagonal_board) as Hf.
  rewrite count_completions_fillings.
  rewrite <- (count_from_fillings 1 10 ltac:(lia) ltac:(lia) _ _ Hdim Hf)
    by (vm_compute; reflexivity).
  destruct Hf as [Hnd Hin].
  rewrite (count_from_free 1 10 (empty_cells diagonal_board (1 * 10)) ltac:(lia) ltac:(lia)
             Hnd (fun c H => proj1 (Hin c H))).
  - vm_compute. reflexivity.
  - assert (H : forallb (fun c => forallb (fun c' => cell_eqb c c' || negb (same_unit 1 10 c c'))
                                          (empty_cells diagonal_board (1 * 10)))
                        (empty_cells diagonal_board (1 * 10)) = true)
      by (vm_compute; reflexivity).
    intros c c' Hc Hc' Hne.
    rewrite forallb_forall in H. specialize (H c Hc).
    rewrite forallb_forall in H. specialize (H c' Hc').
    apply cell_eqb_neq in Hne. rewrite Hne in H. cbn [orb] in H.
    now apply negb_true_iff in H.
  - assert (H : forallb (fun c => forallb (fun v => status_eqb
                                            (is_legal_value diagonal_board (fst c) (snd c)
                                                            v 1 10) LEGAL_VALUE)
                                          (values (1 * 10)))
                        (empty_cells diagonal_board (1 * 10)) = true)
      by (vm_compute; reflexivity).
    intros c v Hc Hv.
    rewrite forallb_forall in H. specialize (H c Hc).
    rewrite forallb_forall in H. specialize (H v (proj2 (in_values _ v) Hv)).
    destruct (status_legal_cases diagonal_board (fst c) (snd c) v 1 10) as [Hs|Hs];
      [exact Hs|rewrite Hs in H; discriminate H].
Qed.

(** C2, the count that does not fit: the diagonal board has 10^10
    completions, and what [backTrack] writes is 1410065408. *)
Lemma backTrack_count_overflows :
  no_duplicates diagonal_board 1 10 = true
  /\ count_completions diagonal_board 1 10 = 10000000000
  /\ exists m, forall fuel, (m <= fuel)%nat ->
        backTrack fuel diagonal_board 1 10
        = Some (BOARD_SOLVABLE, 1410065408, diagonal_board).
Proof.
  assert (Hdim : table_of_dim (1 * 10) diagonal_board).
  { split; [reflexivity|]. intros r Hr. vm_compute in Hr.
    repeat (destruct Hr as [<-|Hr]; [reflexivity|]). contradiction. }
  assert (Hnd : no_duplicates diagonal_board 1 10 = true) by (vm_compute; reflexivity).
  split; [exact Hnd|]. split; [exact diagonal_board_completions|].
  destruct (backTrack_counts_wrapped diagonal_board 1 10 ltac:(lia) ltac:(lia) Hdim Hnd)
    as [m Hm].
  exists m. intros fuel Hfuel. rewrite (Hm fuel Hfuel).
  rewrite diagonal_board_completions. reflexivity.
Qed.

(** ** The set command *)

Lemma check_filled_board_g_board {E : Environment} (w : world) :
  g_board (g_state (snd (check_filled_board w))) = g_board (g_state w).
Proof.
  unfold check_filled_board. unfold_monad.
  repeat (case_branch; unfold_monad); reflexivity.
Qed.

(** What [set] leaves on the board when the cell is not fixed. *)
Lemma set_board {E : Environment} (w : world) (x y z : Z) :
  tget (fixed (g_board (g_state w))) (y - 1) (x - 1) = 0 ->
  board (g_board (g_state (snd (set x y z w))))
  = tset (board (g_board (g_state w))) (y - 1) (x - 1) z.
Proof.
  intros Hf. unfold set. unfold_monad. rewrite Hf. cbn [Z.eqb negb]. unfold_monad.
  case_print_board.
  assert (Hb : board (g_board (g_state w0))
               = tset (board (g_board (g_state w))) (y - 1) (x - 1) z).
  { unfold core in Hpb. inversion Hpb as [[Hb He Hl]]. rewrite Hb. reflexivity. }
  case_branch; [|exact Hb].
  rewrite check_filled_board_g_board. exact Hb.
Qed.

(** In Edit mode [set] on a cell that is not fixed writes the value and
    records the move; nothing else happens to the board, to
    [empty_cells_num] and to the history. *)
Lemma set_in_edit {E : Environment} (w : world) (x y z : Z) :
  mode (g_state w) = Edit ->
  tget (fixed (g_board (g_state w))) (y - 1) (x - 1) = 0 ->
  core (g_state (snd (set x y z w))) = core (set_cell (g_state w) (y - 1) (x - 1) z)
  /\ mode (g_state (snd (set x y z w))) = Edit.
Proof.
  intros Hm Hf. unfold set. unfold_monad. rewrite Hf. cbn [Z.eqb negb]. unfold_monad.
  case_print_board.
  assert (Hmode : mode (g_state w0) = Edit) by (rewrite Hpm; exact Hm).
  rewrite Hmode. cbn [mode_eqb andb]. split; assumption.
Qed.

(** C7. [set] on a cell whose fixed flag is set prints "Error: cell is
    fixed" and changes nothing; so no [set] changes the value of a fixed
    cell.  In Edit mode no cell is fixed in any state the game can reach,
    and [set] writes the value and records the move. *)
Theorem set_refuses_fixed_cells {E : Environment} (w : world) (x y z : Z) :
  let g := g_state w in
  let g' := g_state (snd (set x y z w)) in
  (tget (fixed (g_board g)) (y - 1) (x - 1) <> 0 ->
   set x y z w
   = (PROCESS_SUCCESS,
      mk_world g (files w) (rand_calls w) (stdout w ++ [Printf "Error: cell is fixed"])))
  /\ (1 <= x -> 1 <= y ->
      forall i j, 0 <= i -> 0 <= j -> tget (fixed (g_board g)) i j <> 0 ->
                  tget (board (g_board g')) i j = tget (board (g_board g)) i j)
  /\ (reachable w -> mode g = Edit ->
      tget (fixed (g_board g)) (y - 1) (x - 1) = 0
      /\ core g' = core (set_cell g (y - 1) (x - 1) z)
      /\ mode g' = Edit).
Proof.
  cbv zeta.
  assert (Hfixed : tget (fixed (g_board (g_state w))) (y - 1) (x - 1) <> 0 ->
                   set x y z w
                   = (PROCESS_SUCCESS,
                      mk_world (g_state w) (files w) (rand_calls w)
                               (stdout w ++ [Printf "Error: cell is fixed"]))).
  { intros Hf. unfold set. unfold_monad.
    apply Z.eqb_neq in Hf. rewrite Hf. reflexivity. }
  split; [exact Hfixed|]. split.
  - intros Hx Hy i j Hi Hj Hf.
    destruct (Z.eq_dec (tget (fixed (g_board (g_state w))) (y - 1) (x - 1)) 0) as [H0|H0].
    + rewrite set_board by assumption.
      apply tget_tset_other; try lia. intros Heq. inversion Heq; subst. contradiction.
    + rewrite (Hfixed H0). reflexivity.
  - intros Hr Hm. pose proof (reachable_edit_unfixed w Hr Hm (y - 1) (x - 1)) as H0.
    split; [exact H0|]. now apply set_in_edit.
Qed.

(** ** Concrete games *)

Lemma table_of_dimb_spec (n : Z) (t : table) :
  table_of_dimb n t = true -> table_of_dim n t.
Proof.
  unfold table_of_dimb, table_of_dim. intros H.
  apply andb_true_iff in H. destruct H as [Hl Hr].
  apply Nat.eqb_eq in Hl. split; [exact Hl|].
  intros r Hin. rewrite forallb_forall in Hr. apply Nat.eqb_eq. now apply Hr.
Qed.

Lemma board_wfb_spec (gb : game_board) : board_wfb gb = true -> board_wf gb.
Proof.
  unfold board_wfb, board_wf. intros H.
  repeat (apply andb_true_iff in H; destruct H as [H ?]).
  repeat split; try (apply table_of_dimb_spec; assumption);
    try (apply Z.ltb_lt; assumption); try (apply Z.eqb_eq; assumption).
Qed.

Lemma run_reachable {E : Environment} (fuel : nat) (cmds : list command) :
  forall w w', reachable w -> Forall dispatched cmds -> run fuel cmds w = Some w' ->
               reachable w'.
Proof.
  induction cmds as [|c cmds IH]; intros w w' Hr Hd Hrun.
  - cbn in Hrun. inversion Hrun; subst. exact Hr.
  - cbn [run] in Hrun. inversion Hd as [|? ? Hc Hd']; subst.
    destruct (process_command fuel c w) as [[[] w1]|] eqn:Hp; try discriminate.
    apply (IH w1 w'); [|exact Hd'|exact Hrun].
    eapply reachable_step; eassumption.
Qed.

Lemma example_start_reachable : reachable (E := example_env) example_start.
Proof. apply reachable_start. Qed.

Lemma dispatched_file (t : COMMAND_TYPE) (path : string) :
  t <> EXIT -> t <> INVALID_COMMAND -> t <> INVALID_PARA_NUM ->
  dispatched (cmd_file t path).
Proof. unfold dispatched. cbn. auto. Qed.

Lemma dispatched_ints (t : COMMAND_TYPE) (ps : list Z) :
  t <> EXIT -> t <> INVALID_COMMAND -> t <> INVALID_PARA_NUM ->
  dispatched (cmd_ints t ps).
Proof. unfold dispatched. cbn. auto. Qed.

Lemma dispatched_guess (threshold : double) : dispatched (cmd_guess threshold).
Proof. unfold dispatched. cbn. repeat split; discriminate. Qed.

Ltac all_dispatched :=
  repeat (apply Forall_cons;
          [first [apply dispatched_guess
                 |apply dispatched_file; discriminate
                 |apply dispatched_ints; discriminate]|]);
  apply Forall_nil.

(** The worlds [example_after] names are worlds the game reaches. *)
Lemma example_after_reachable (cmds : list command) :
  Forall dispatched cmds ->
  run (E := example_env) 100 cmds example_start <> None ->
  reachable (E := example_env) (example_after cmds).
Proof.
  intros Hd Hrun. unfold example_after.
  destruct (run 100 cmds example_start) as [w|] eqn:Hr; [|congruence].
  eapply run_reachable; [apply example_start_reachable|exact Hd|exact Hr].
Qed.

Lemma set_refuses_fixed_cells_witness :
  (tget (fixed (g_board (g_state (example_after [cmd_file SOLVE "clue1"])))) (1 - 1) (1 - 1)
   <> 0
   /\ set (E := example_env) 1 1 0 (example_after [cmd_file SOLVE "clue1"])
      = (PROCESS_SUCCESS,
         mk_world (g_state (example_after [cmd_file SOLVE "clue1"]))
                  (files (example_after [cmd_file SOLVE "clue1"]))
                  (rand_calls (example_after [cmd_file SOLVE "clue1"]))
                  (stdout (example_after [cmd_file SOLVE "clue1"])
                   ++ [Printf "Error: cell is fixed"])))
  /\ (reachable (E := example_env) (example_after [cmd_file EDIT "empty1"])
      /\ mode (g_state (example_after [cmd_file EDIT "empty1"])) = Edit
      /\ core (g_state (snd (set (E := example_env) 1 1 1
                                 (example_after [cmd_file EDIT "empty1"]))))
         = core (set_cell (g_state (example_after [cmd_file EDIT "empty1"]))
                          (1 - 1) (1 - 1) 1)).
Proof.
  assert (Hf : tget (fixed (g_board (g_state (example_after [cmd_file SOLVE "clue1"]))))
                    (1 - 1) (1 - 1) <> 0) by (vm_compute; discriminate).
  assert (Hr : reachable (E := example_env) (example_after [cmd_file EDIT "empty1"])).
  { apply example_after_reachable; [all_dispatched|vm_compute; discriminate]. }
  assert (Hm : mode (g_state (example_after [cmd_file EDIT "empty1"])) = Edit)
    by reflexivity.
  split; [split; [exact Hf|]|split; [exact Hr|split; [exact Hm|]]].
  - exact (proj1 (set_refuses_fixed_cells
                    (example_after [cmd_file SOLVE "clue1"]) 1 1 0) Hf).
  - exact (proj1 (proj2 (proj2 (proj2 (set_refuses_fixed_cells
                    (example_after [cmd_file EDIT "empty1"]) 1 1 1)) Hr Hm))).
Defined.

Lemma update_erroneous_marks_conflicts_witness :
  board_wf (g_board (g_state (example_after [cmd_file SOLVE "three2";
                                             cmd_ints SET [2; 2; 2]])))
  /\ (fst (update_erroneous (g_state (example_after [cmd_file SOLVE "three2";
                                                     cmd_ints SET [2; 2; 2]]))) = 1
      <-> exists i j,
          in_range (N (g_board (g_state (example_after [cmd_file SOLVE "three2";
                                                        cmd_ints SET [2; 2; 2]]))))
                   (i, j)
          /\ tget (board (g_board (g_state (example_after [cmd_file SOLVE "three2";
                                                           cmd_ints SET [2; 2; 2]]))))
                  i j <> 0
          /\ conflicts
               (board (g_board (g_state (example_after [cmd_file SOLVE "three2";
                                                        cmd_ints SET [2; 2; 2]]))))
               (block_rows (g_board (g_state (example_after [cmd_file SOLVE "three2";
                                                             cmd_ints SET [2; 2; 2]]))))
               (block_cols (g_board (g_state (example_after [cmd_file SOLVE "three2";
                                                             cmd_ints SET [2; 2; 2]]))))
               i j = true).
Proof.
  assert (Hwf : board_wf (g_board (g_state (example_after [cmd_file SOLVE "three2";
                                                           cmd_ints SET [2; 2; 2]]))))
    by (apply board_wfb_spec; vm_compute; reflexivity).
  split; [exact Hwf|].
  exact (proj1 (proj2 (update_erroneous_marks_conflicts _ Hwf))).
Defined.

(** The refresh on the board [[1 2] [2 2]] whose first three cells are
    clues: only the last cell is marked, and the board is reported
    erroneous. *)
Example update_erroneous_example :
  let g := g_state (example_after [cmd_file SOLVE "three2"; cmd_ints SET [2; 2; 2]]) in
  board (g_board g) = [[1; 2]; [2; 2]]
  /\ fixed (g_board g) = [[1; 1]; [1; 0]]
  /\ fst (update_erroneous g) = 1
  /\ err (g_board (snd (update_erroneous g))) = [[0; 0]; [0; 1]].
Proof. vm_compute. repeat split. Qed.

Lemma solver_commands_keep_the_game_witness :
  board_wf (g_board (g_state (example_after [cmd_file SOLVE "three2"])))
  /\ exists m, forall fuel, (m <= fuel)%nat ->
       exists w', num_solutions fuel (example_after [cmd_file SOLVE "three2"])
                  = Some (PROCESS_SUCCESS, w').
Proof.
  assert (Hwf : board_wf (g_board (g_state (example_after [cmd_file SOLVE "three2"]))))
    by (apply board_wfb_spec; vm_compute; reflexivity).
  split; [exact Hwf|].
  exact (proj2 (proj2 (proj2 (proj2
           (solver_commands_keep_the_game (E := example_env)
              (example_after [cmd_file SOLVE "three2"]) 0 0)))) Hwf).
Defined.

(** ** What [set] records *)

(** C6, as the code has it.  [set] on a cell that is not fixed records one
    move made of the single change (row, column, value before, value
    after), whether or not the two values differ; the history then stays so
    unless the board is complete in Solve mode and the game is over. *)
Theorem set_records_every_change {E : Environment} (w : world) (x y z : Z) :
  let g := g_state w in
  let g' := g_state (snd (set x y z w)) in
  tget (fixed (g_board g)) (y - 1) (x - 1) = 0 ->
  m_list (set_cell g (y - 1) (x - 1) z)
  = add_move_node_to_list
      (m_list g)
      [mk_change (y - 1) (x - 1) (tget (board (g_board g)) (y - 1) (x - 1)) z]
  /\ (m_list g' = m_list (set_cell g (y - 1) (x - 1) z)
      \/ (mode g = Solve /\ mode g' = Init /\ valid g' = 0)).
Proof.
  cbv zeta. intros Hf. split; [reflexivity|].
  unfold set. unfold_monad. rewrite Hf. cbn [Z.eqb negb]. unfold_monad.
  case_print_board.
  assert (Hl : m_list (g_state w0) = m_list (set_cell (g_state w) (y - 1) (x - 1) z))
    by (unfold core in Hpb; congruence).
  destruct (mode_eqb (mode (g_state w0)) Solve) eqn:Hmode; cbn [andb]; [|now left].
  assert (Hs : mode (g_state w) = Solve).
  { rewrite Hpm in Hmode. cbn in Hmode. now destruct (mode (g_state w)). }
  destruct (empty_cells_num (g_board (g_state w0)) =? 0); [|now left].
  unfold check_filled_board. unfold_monad.
  repeat (case_branch; unfold_monad); try (now left).
  right. cbn. auto.
Qed.

Lemma set_records_every_change_witness :
  tget (fixed (g_board (g_state (example_after [cmd_file EDIT "empty1";
                                                cmd_ints SET [1; 1; 1]]))))
       (1 - 1) (1 - 1) = 0
  /\ m_list (set_cell (g_state (example_after [cmd_file EDIT "empty1";
                                               cmd_ints SET [1; 1; 1]]))
                      (1 - 1) (1 - 1) 1)
     = add_move_node_to_list
         (m_list (g_state (example_after [cmd_file EDIT "empty1";
                                          cmd_ints SET [1; 1; 1]])))
         [mk_change (1 - 1) (1 - 1)
                    (tget (board (g_board (g_state (example_after
                             [cmd_file EDIT "empty1"; cmd_ints SET [1; 1; 1]]))))
                          (1 - 1) (1 - 1)) 1].
Proof.
  assert (Hf : tget (fixed (g_board (g_state (example_after [cmd_file EDIT "empty1";
                                                             cmd_ints SET [1; 1; 1]]))))
                    (1 - 1) (1 - 1) = 0) by reflexivity.
  split; [exact Hf|].
  exact (proj1 (set_records_every_change (E := example_env)
                  (example_after [cmd_file EDIT "empty1"; cmd_ints SET [1; 1; 1]])
                  1 1 1 Hf)).
Defined.

(** C6 as stated fails: in Edit mode, on the 1x1 board whose cell holds 1,
    [set 1 1 1] adds to the history a move whose change has the same value
    before and after. *)
Lemma set_same_value_is_recorded :
  let w := example_after [cmd_file EDIT "empty1"; cmd_ints SET [1; 1; 1]] in
  let w' := snd (set (E := example_env) 1 1 1 w) in
  tget (board (g_board (g_state w))) 0 0 = 1
  /\ tget (board (g_board (g_state w'))) 0 0 = 1
  /\ m_list (g_state w) = mk_moves [[mk_change 0 0 0 1]] 1
  /\ m_list (g_state w') = mk_moves [[mk_change 0 0 0 1]; [mk_change 0 0 1 1]] 2.
Proof. vm_compute. repeat split. Qed.

(** ** The count of empty cells *)

(** C1 fails on the code: [guess] fills cells and leaves [empty_cells_num]
    as it was.  After [solve] of the 1x1 puzzle with an empty cell and
    [guess 1], the cell holds 1, no cell is empty and [empty_cells_num] is
    still 1. *)
Theorem guess_forgets_empty_cells_num :
  let w := example_after [cmd_file SOLVE "empty1"; cmd_guess 1] in
  reachable (E := example_env) w
  /\ board (g_board (g_state w)) = [[1]]
  /\ count_empty (board (g_board (g_state w))) (N (g_board (g_state w))) = 0
  /\ empty_cells_num (g_board (g_state w)) = 1.
Proof.
  cbv zeta. split.
  - apply example_after_reachable; [all_dispatched|vm_compute; discriminate].
  - vm_compute. repeat split.
Qed.

(** ** Undo followed by redo *)

(** C4 fails on the code.  In Edit mode on a 1x1 board, after [set 1 1 1]
    and [generate 0 0] the board is empty again but [generate] has recorded
    no move, so the move of the [set] is still the current one; [undo]
    followed by [redo] then writes 1 into the cell, and [undo] alone leaves
    [empty_cells_num] at 2 on a board of one cell. *)
Theorem undo_redo_after_generate :
  let w := example_after [cmd_file EDIT "empty1"; cmd_ints SET [1; 1; 1];
                          cmd_ints GENERATE [0; 0]] in
  let w_undo := snd (undo w) in
  let w_redo := snd (redo w_undo) in
  reachable (E := example_env) w
  /\ can_undo (m_list (g_state w)) = true
  /\ board (g_board (g_state w)) = [[0]]
  /\ board (g_board (g_state w_redo)) = [[1]]
  /\ empty_cells_num (g_board (g_state w_undo)) = 2
  /\ curr_pointer (m_list (g_state w_redo)) = curr_pointer (m_list (g_state w)).
Proof.
  cbv zeta. split.
  - apply example_after_reachable; [all_dispatched|vm_compute; discriminate].
  - vm_compute. repeat split.
Qed.

Lemma revert_changes_writes (changes : list change_node) (g : game_state) :
  core (revert_changes g changes)
  = (write_all z1 changes (board (g_board g)),
     empty_cells_num (g_board g) + filled_delta changes, m_list g).
Proof.
  unfold revert_changes, write_all, core. revert g.
  induction changes as [|c l IH]; intros g; cbn [fold_left fold_right filled_delta].
  - now rewrite Z.add_0_r.
  - rewrite IH. unfold change_cell. state_simpl. unfold filled_delta.
    f_equal. f_equal. lia.
Qed.

Lemma apply_changes_writes (changes : list change_node) (g : game_state) :
  core (apply_changes g changes)
  = (write_all z2 changes (board (g_board g)),
     empty_cells_num (g_board g) - filled_delta changes, m_list g).
Proof.
  unfold apply_changes, write_all, core. revert g.
  induction changes as [|c l IH]; intros g; cbn [fold_left fold_right filled_delta].
  - now rewrite Z.sub_0_r.
  - rewrite IH. unfold change_cell. state_simpl. unfold filled_delta.
    f_equal. f_equal. lia.
Qed.

Lemma table_of_dim_write_all (n : Z) (value : change_node -> Z)
      (changes : list change_node) (b : table) :
  table_of_dim n b -> table_of_dim n (write_all value changes b).
Proof.
  unfold write_all. revert b. induction changes as [|c l IH]; intros b Hb; [exact Hb|].
  cbn [fold_left]. apply IH. now apply table_of_dim_tset.
Qed.

(** A cell holds [v] after the writes when every write to it is of [v] and
    either it held [v] before or some write is to it. *)
Lemma tget_write_all (n : Z) (value : change_node -> Z) (i j v : Z)
      (changes : list change_node) :
  in_range n (i, j) ->
  (forall ch, In ch changes -> in_range n (cell_rows ch, cell_cols ch)) ->
  (forall ch, In ch changes -> (cell_rows ch, cell_cols ch) = (i, j) -> value ch = v) ->
  forall b, table_of_dim n b ->
    (tget b i j = v
     \/ exists ch, In ch changes /\ (cell_rows ch, cell_cols ch) = (i, j)) ->
    tget (write_all value changes b) i j = v.
Proof.
  intros Hij. unfold write_all.
  induction changes as [|c l IH]; intros Hr Hv b Hb H; cbn [fold_left].
  - destruct H as [H|[ch [[] _]]]. exact H.
  - assert (Hc : in_range n (cell_rows c, cell_cols c)) by (apply Hr; now left).
    unfold in_range in Hij, Hc. cbn [fst snd] in Hij, Hc.
    apply IH.
    + intros ch Hin. apply Hr. now right.
    + intros ch Hin. apply Hv. now right.
    + now apply table_of_dim_tset.
    + destruct (Z.eq_dec (cell_rows c) i) as [Hi|Hi];
        [destruct (Z.eq_dec (cell_cols c) j) as [Hj|Hj]|].
      * left. subst i j. rewrite (tget_tset_in n) by (assumption || lia).
        apply Hv; [now left|reflexivity].
      * destruct H as [H|[ch [[->|Hin] Hch]]].
        -- left. rewrite tget_tset_other by (try lia; congruence). exact H.
        -- congruence.
        -- right. exists ch. split; assumption.
      * destruct H as [H|[ch [[->|Hin] Hch]]].
        -- left. rewrite tget_tset_other by (try lia; congruence). exact H.
        -- congruence.
        -- right. exists ch. split; assumption.
Qed.

Lemma touched_or_not (changes : list change_node) (i j : Z) :
  (exists ch, In ch changes /\ (cell_rows ch, cell_cols ch) = (i, j))
  \/ (forall ch, In ch changes -> (cell_rows ch, cell_cols ch) <> (i, j)).
Proof.
  induction changes as [|c l [[ch [Hin Hch]]|IH]].
  - right. intros ch [].
  - left. exists ch. split; [now right|exact Hch].
  - destruct (Z.eq_dec (cell_rows c) i) as [Hi|Hi];
      [destruct (Z.eq_dec (cell_cols c) j) as [Hj|Hj]|].
    + left. exists c. split; [now left|congruence].
    + right. intros ch [->|Hin]; [congruence|now apply IH].
    + right. intros ch [->|Hin]; [congruence|now apply IH].
Qed.

(** Writing back the values a move left, over the board the move was
    reverted on, gives the board again when the move agrees with it. *)
Lemma write_all_back (n : Z) (changes : list change_node) (b : table) :
  table_of_dim n b ->
  (forall ch, In ch changes ->
              in_range n (cell_rows ch, cell_cols ch)
              /\ tget b (cell_rows ch) (cell_cols ch) = z2 ch) ->
  write_all z2 changes (write_all z1 changes b) = b.
Proof.
  intros Hb Hag. apply (table_ext n); [|exact Hb|].
  - now apply table_of_dim_write_all, table_of_dim_write_all.
  - intros i j Hij.
    apply (tget_write_all n); [exact Hij|intros ch Hin; now apply Hag| |
                               now apply table_of_dim_write_all|].
    + intros ch Hin Hch. destruct (Hag ch Hin) as [_ H]. inversion Hch. now subst.
    + destruct (touched_or_not changes i j) as [Ht|Hn]; [now right|left].
      apply (tget_write_all n); [exact Hij|intros ch Hin; now apply Hag| |exact Hb|now left].
      intros ch Hin Hch. now destruct (Hn ch Hin).
Qed.

Lemma apply_changes_core (changes : list change_node) :
  forall g g', core g = core g' ->
               core (apply_changes g changes) = core (apply_changes g' changes).
Proof.
  unfold apply_changes. induction changes as [|c changes IH]; intros g g' H; [exact H|].
  cbn [fold_left]. apply IH. now apply change_cell_core.
Qed.

Lemma redo_core (w : world) :
  can_redo (m_list (g_state w)) = true ->
  core (g_state (snd (redo w)))
  = core (apply_changes
            (with_m_list (g_state w) (inc_curr_pointer (m_list (g_state w))))
            (get_curr_pointer_changes_iter (inc_curr_pointer (m_list (g_state w))))).
Proof.
  intros Hc. unfold redo. unfold_monad. rewrite Hc. cbn [negb]. unfold_monad.
  match goal with
  | |- context [print_board ?w0] =>
      destruct (print_board_core w0) as [Hp _]; destruct (print_board w0) as [u w1]
  end.
  cbn [snd g_state] in *.
  case_print_all. cbn [snd]. rewrite Hp0. exact Hp.
Qed.

Lemma inc_dec_curr_pointer (l : moves_list) :
  can_undo l = true -> (curr_pointer l <= length (moves l))%nat ->
  can_redo (dec_curr_pointer l) = true /\ inc_curr_pointer (dec_curr_pointer l) = l.
Proof.
  destruct l as [ms [|k]];
    unfold inc_curr_pointer, dec_curr_pointer, can_undo, can_redo;
    cbn [moves curr_pointer Nat.eqb negb]; intros Hc Hle; [discriminate|].
  assert (H : (k <? length ms)%nat = true) by (apply Nat.ltb_lt; lia).
  rewrite H. split; reflexivity.
Qed.

(** Where the current move of the history agrees with the board, [undo]
    followed by [redo] gives back the board values, [empty_cells_num] and
    the history with its current pointer. *)
Lemma undo_then_redo_identity (w : world) :
  let g := g_state w in
  can_undo (m_list g) = true ->
  (curr_pointer (m_list g) <= length (moves (m_list g)))%nat ->
  table_of_dim (N (g_board g)) (board (g_board g)) ->
  move_agrees g ->
  core (g_state (snd (redo (snd (undo w))))) = core g.
Proof.
  cbv zeta. intros Hc Hle Hdim Hag.
  destruct (inc_dec_curr_pointer _ Hc Hle) as [Hr Hid].
  pose proof (undo_core w Hc) as Hu.
  set (changes := get_curr_pointer_changes_iter (m_list (g_state w))) in *.
  set (wu := snd (undo w)) in *.
  assert (Hl : m_list (g_state wu) = dec_curr_pointer (m_list (g_state w)))
    by exact (f_equal snd Hu).
  rewrite redo_core by (rewrite Hl; exact Hr).
  rewrite Hl, Hid. fold changes.
  rewrite (apply_changes_core changes _
             (with_m_list (revert_changes (g_state w) changes) (m_list (g_state w)))).
  - rewrite apply_changes_writes.
    pose proof (revert_changes_writes changes (g_state w)) as Hrv.
    unfold core in *. cbn [with_m_list g_board m_list] in *.
    inversion Hrv as [[Hb He Hm]]. rewrite Hb, He.
    rewrite (write_all_back (N (g_board (g_state w)))) by assumption.
    f_equal. f_equal. lia.
  - unfold core in *. cbn [with_m_list g_board m_list] in *.
    inversion Hu as [[Hb He Hm]]. reflexivity.
Qed.

Example undo_then_redo_identity_example :
  let w := example_after [cmd_file SOLVE "three2"; cmd_ints SET [2; 2; 2]] in
  can_undo (m_list (g_state w)) = true
  /\ core (g_state (snd (redo (snd (undo w))))) = core (g_state w).
Proof.
  cbv zeta. split; [vm_compute; reflexivity|].
  apply undo_then_redo_identity.
  - vm_compute. reflexivity.
  - vm_compute. lia.
  - apply table_of_dimb_spec. vm_compute. reflexivity.
  - intros ch Hin. vm_compute in Hin. destruct Hin as [<-|[]].
    vm_compute. repeat split; discriminate.
Qed.

(** ** What [generate] records *)

Lemma status_eqb_refl (a : RETURN_STATUS) : status_eqb a a = true.
Proof. now destruct a. Qed.

Lemma changes_fold_spec (select : Z -> Z -> bool) (old_board new_board : table)
      (cells : list (Z * Z)) :
  forall acc,
    fold_left (fun m_node c =>
                 let o := tget old_board (fst c) (snd c) in
                 let v := tget new_board (fst c) (snd c) in
                 if select o v then add_change_to_move m_node (fst c) (snd c) o v
                 else m_node)
              cells acc
    = acc ++ flat_map (fun c =>
                         let o := tget old_board (fst c) (snd c) in
                         let v := tget new_board (fst c) (snd c) in
                         if select o v then [mk_change (fst c) (snd c) o v] else [])
                      cells.
Proof.
  induction cells as [|c cells IH]; intros acc; cbn [fold_left flat_map].
  - now rewrite app_nil_r.
  - rewrite IH. cbv zeta. destruct (select _ _).
    + unfold add_change_to_move. now rewrite <- app_assoc.
    + reflexivity.
Qed.

(** The move built by the loops over the cells holds, row by row, one
    change for each selected cell. *)
Lemma changes_between_spec (n : Z) (select : Z -> Z -> bool) (old_board new_board : table) :
  changes_between n select old_board new_board
  = flat_map (fun c =>
                let o := tget old_board (fst c) (snd c) in
                let v := tget new_board (fst c) (snd c) in
                if select o v then [mk_change (fst c) (snd c) o v] else [])
             (all_cells n).
Proof.
  unfold changes_between. rewrite for2_all_cells.
  apply (changes_fold_spec select old_board new_board (all_cells n) []).
Qed.

Lemma filter_none {A : Type} (f : A -> bool) (l : list A) :
  (forall x, In x l -> f x = false) -> filter f l = [].
Proof.
  induction l as [|x l IH]; intros H; [reflexivity|]. cbn [filter].
  rewrite (H x (or_introl eq_refl)). apply IH. intros y Hy. apply H. now right.
Qed.

Lemma changes_of_cell_flat_map (g : Z * Z -> list change_node) (i j : Z)
      (cells : list (Z * Z)) :
  (forall c ch, In ch (g c) -> (cell_rows ch, cell_cols ch) = c) ->
  NoDup cells ->
  changes_of_cell (flat_map g cells) i j = if existsb (cell_eqb (i, j)) cells
                                           then g (i, j) else [].
Proof.
  intros Hg. unfold changes_of_cell.
  assert (Hother : forall c, c <> (i, j) ->
            filter (fun ch => cell_eqb (cell_rows ch, cell_cols ch) (i, j)) (g c) = []).
  { intros c Hne. apply filter_none. intros ch Hin. apply cell_eqb_neq.
    rewrite (Hg c ch Hin). exact Hne. }
  assert (Hsame : filter (fun ch => cell_eqb (cell_rows ch, cell_cols ch) (i, j)) (g (i, j))
                  = g (i, j)).
  { apply forallb_filter_id. apply forallb_forall. intros ch Hin.
    apply cell_eqb_eq. now apply Hg. }
  induction cells as [|c cells IH]; intros Hnd; [reflexivity|].
  inversion Hnd as [|? ? Hnotin Hnd']; subst.
  cbn [flat_map existsb]. rewrite filter_app, (IH Hnd').
  destruct (cell_eqb (i, j) c) eqn:Heq.
  - apply cell_eqb_eq in Heq. subst c. rewrite Hsame. cbn [orb].
    replace (existsb (cell_eqb (i, j)) cells) with false; [now rewrite app_nil_r|].
    symmetry. apply not_true_iff_false. intros Hex. apply Hnotin.
    apply existsb_exists in Hex. destruct Hex as [c' [Hin Hc']].
    apply cell_eqb_eq in Hc'. now subst c'.
  - apply cell_eqb_neq in Heq. rewrite Hother by congruence. reflexivity.
Qed.

Lemma changes_between_cell (n : Z) (select : Z -> Z -> bool) (old_board new_board : table)
      (i j : Z) :
  in_range n (i, j) ->
  changes_of_cell (changes_between n select old_board new_board) i j
  = if select (tget old_board i j) (tget new_board i j)
    then [mk_change i j (tget old_board i j) (tget new_board i j)]
    else [].
Proof.
  intros Hc. rewrite changes_between_spec.
  rewrite changes_of_cell_flat_map; [| |apply all_cells_nodup].
  - rewrite existsb_cell_eqb_in by (now apply in_all_cells). reflexivity.
  - intros c ch. cbv zeta. destruct (select _ _); [|contradiction].
    intros [<-|[]]. now destruct c.
Qed.

Lemma changes_between_in_range (n : Z) (select : Z -> Z -> bool)
      (old_board new_board : table) (ch : change_node) :
  In ch (changes_between n select old_board new_board) ->
  in_range n (cell_rows ch, cell_cols ch).
Proof.
  rewrite changes_between_spec, in_flat_map. intros [c [Hc Hin]].
  apply in_all_cells in Hc. cbv zeta in Hin.
  destruct (select _ _); [|contradiction]. destruct Hin as [<-|[]]. now destruct c.
Qed.

(** What a successful [generate] leaves in the history and on the board:
    the move [changes_between] builds from the board before and the board
    after, added when [y > 0]. *)
Lemma generate_history {E : Environment} (w : world) (x y : Z) :
  let g := g_state w in
  let g' := g_state (snd (generate x y w)) in
  x <= empty_cells_num (g_board g) ->
  fst (randomly_generate_board x w) = GENERATE_SUCCESS ->
  m_list g'
  = if y >? 0
    then add_move_node_to_list
           (m_list g)
           (changes_between (N (g_board g)) filled_before_or_after
                            (copy_table (alloc_table (N (g_board g))) (board (g_board g))
                                        (N (g_board g)))
                            (board (g_board g')))
    else m_list g.
Proof.
  cbv zeta. intros Hx Hs. unfold generate. unfold_monad.
  replace (empty_cells_num (g_board (g_state w)) <? x) with false
    by (symmetry; apply Z.ltb_ge; lia).
  unfold_monad.
  pose proof (randomly_generate_board_only_board x w) as Hg.
  destruct (randomly_generate_board x w) as [status w1]. cbn [fst snd] in Hs, Hg.
  subst status. cbn [status_eqb]. unfold_monad.
  match goal with
  | |- context [partially_clear_board ?b ?y0 ?n0 w1] =>
      pose proof (partially_clear_state b y0 n0 w1) as Hc;
      destruct (partially_clear_board b y0 n0 w1) as [r w2]
  end.
  cbn [snd] in Hc. unfold put_board. unfold_monad. rewrite Hc.
  unfold only_board in Hg.
  assert (Hl : m_list (g_state w1) = m_list (g_state w)) by (now rewrite Hg).
  fold filled_before_or_after.
  destruct (y >? 0); unfold_monad; case_print_board; unfold_monad;
    unfold core in Hpb; inversion Hpb as [[Hb He Hml]]; state_simpl;
    rewrite Hml; [rewrite Hb|]; congruence.
Qed.

(** C9, as the code has it.  After a successful [generate] with [y > 0]
    the history has gained one move; for every cell of the board the move
    holds exactly one change, from the value before to the value after,
    when the cell is filled before or after, so also when the two values
    are the same and not 0, and no change when the cell is empty before
    and after.  With [y = 0] the history is as it was. *)
Theorem generate_records_filled_cells {E : Environment} (w : world) (x y : Z) :
  let g := g_state w in
  let g' := g_state (snd (generate x y w)) in
  x <= empty_cells_num (g_board g) ->
  fst (randomly_generate_board x w) = GENERATE_SUCCESS ->
  (0 < y ->
   exists m_node,
     m_list g' = add_move_node_to_list (m_list g) m_node
     /\ (forall i j, in_range (N (g_board g)) (i, j) ->
           changes_of_cell m_node i j
           = if filled_before_or_after (tget (board (g_board g)) i j)
                                       (tget (board (g_board g')) i j)
             then [mk_change i j (tget (board (g_board g)) i j)
                             (tget (board (g_board g')) i j)]
             else [])
     /\ (forall ch, In ch m_node -> in_range (N (g_board g)) (cell_rows ch, cell_cols ch)))
  /\ (y <= 0 -> m_list g' = m_list g).
Proof.
  cbv zeta. intros Hx Hs. pose proof (generate_history w x y Hx Hs) as Hh.
  cbv zeta in Hh. split.
  - intros Hy. replace (y >? 0) with true in Hh by (symmetry; apply Z.gtb_lt; lia).
    eexists. split; [exact Hh|]. split.
    + intros i j Hc. rewrite changes_between_cell by assumption.
      now rewrite tget_copy_table by assumption.
    + intros ch. apply changes_between_in_range.
  - intros Hy. replace (y >? 0) with false in Hh; [exact Hh|].
    symmetry. apply not_true_iff_false. intros H. apply Z.gtb_lt in H. lia.
Qed.

Lemma generate_records_filled_cells_witness :
  (0 <= empty_cells_num (g_board (g_state (example_after [cmd_file EDIT "empty1";
                                                          cmd_ints SET [1; 1; 1]])))
   /\ fst (randomly_generate_board (E := example_env) 0
             (example_after [cmd_file EDIT "empty1"; cmd_ints SET [1; 1; 1]]))
      = GENERATE_SUCCESS
   /\ 0 < 1)
  /\ exists m_node,
       m_list (g_state (snd (generate (E := example_env) 0 1
                 (example_after [cmd_file EDIT "empty1"; cmd_ints SET [1; 1; 1]]))))
       = add_move_node_to_list
           (m_list (g_state (example_after [cmd_file EDIT "empty1";
                                            cmd_ints SET [1; 1; 1]])))
           m_node.
Proof.
  assert (Hx : 0 <= empty_cells_num (g_board (g_state (example_after
                       [cmd_file EDIT "empty1"; cmd_ints SET [1; 1; 1]]))))
    by (vm_compute; discriminate).
  assert (Hs : fst (randomly_generate_board (E := example_env) 0
                      (example_after [cmd_file EDIT "empty1"; cmd_ints SET [1; 1; 1]]))
               = GENERATE_SUCCESS) by (vm_compute; reflexivity).
  assert (Hy : 0 < 1) by lia.
  split; [split; [exact Hx|split; [exact Hs|exact Hy]]|].
  destruct (proj1 (generate_records_filled_cells (E := example_env)
                     (example_after [cmd_file EDIT "empty1"; cmd_ints SET [1; 1; 1]])
                     0 1 Hx Hs) Hy) as [m_node [Hm _]].
  exists m_node. exact Hm.
Defined.

(** C9 as stated fails: in Edit mode, on the 1x1 board whose cell holds 1,
    [generate 0 1] succeeds, leaves the 1 in the cell, and the move it adds
    to the history holds a change for that cell, from 1 to 1. *)
Lemma generate_records_unchanged_cell :
  let w := example_after [cmd_file EDIT "empty1"; cmd_ints SET [1; 1; 1]] in
  let w' := snd (generate (E := example_env) 0 1 w) in
  fst (randomly_generate_board (E := example_env) 0 w) = GENERATE_SUCCESS
  /\ tget (board (g_board (g_state w))) 0 0 = 1
  /\ tget (board (g_board (g_state w'))) 0 0 = 1
  /\ m_list (g_state w) = mk_moves [[mk_change 0 0 0 1]] 1
  /\ m_list (g_state w') = mk_moves [[mk_change 0 0 0 1]; [mk_change 0 0 1 1]] 2.
Proof. vm_compute. repeat split. Qed.

(** ** The check of a complete board *)

Lemma update_erroneous_same_but_err (g : game_state) :
  snd (update_erroneous g)
  = with_g_board g (with_err (g_board g) (err (g_board (snd (update_erroneous g))))).
Proof.
  pose proof (update_erroneous_frame g) as H. cbv zeta in H.
  destruct (snd (update_erroneous g)) as [m me l [b e f bc br n ec] v].
  destruct g as [m0 me0 l0 [b0 e0 f0 bc0 br0 n0 ec0] v0]. cbn in *.
  destruct H as [-> [-> [-> [-> [-> [-> [-> [-> [-> ->]]]]]]]]]. reflexivity.
Qed.

(** [print_board] refreshes [err] at most and prints the board. *)
Lemma print_board_spec (w : world) :
  exists e m,
    snd (print_board w)
    = mk_world (with_g_board (g_state w) (with_err (g_board (g_state w)) e))
               (files w) (rand_calls w)
               (stdout w ++ [Board_print (board (g_board (g_state w)))
                                         (fixed (g_board (g_state w))) e
                                         (block_rows (g_board (g_state w)))
                                         (block_cols (g_board (g_state w))) m]).
Proof.
  unfold print_board. unfold_monad.
  set (m := if mode_eqb (mode (g_state w)) Solve then mark_errors (g_state w) else 1).
  destruct (negb (m =? 0)).
  - exists (err (g_board (snd (update_erroneous (g_state w))))), m.
    pose proof (update_erroneous_frame (g_state w)) as H. cbv zeta in H.
    destruct H as [_ [_ [_ [_ [Hb [Hf [Hbc [Hbr _]]]]]]]].
    cbn [files rand_calls stdout g_state].
    rewrite Hb, Hf, Hbc, Hbr.
    rewrite <- (update_erroneous_same_but_err (g_state w)). reflexivity.
  - exists (err (g_board (g_state w))), m.
    destruct (g_state w) as [m0 me0 l0 [b0 e0 f0 bc0 br0 n0 ec0] v0]. reflexivity.
Qed.

Lemma is_valid_board_with_err {E : Environment} (g : game_state) (e : table) :
  is_valid_board (with_g_board g (with_err (g_board g) e)) = is_valid_board g.
Proof. reflexivity. Qed.

Lemma check_filled_board_spec {E : Environment} (w : world) :
  (is_valid_board (g_state w) = BOARD_SOLVABLE ->
   check_filled_board w
   = (PROCESS_SUCCESS,
      mk_world (free_game (g_state w)) (files w) (rand_calls w)
               (stdout w ++ [Printf "Puzzle solved successfully"])))
  /\ (is_valid_board (g_state w) = BOARD_UNSOLVABLE ->
      check_filled_board w
      = (PROCESS_SUCCESS,
         mk_world (g_state w) (files w) (rand_calls w)
                  (stdout w ++ [Printf "Puzzle solution erroneous"]))).
Proof.
  unfold check_filled_board. unfold_monad.
  split; intros ->; reflexivity.
Qed.

Lemma print_all_spec (l : list output) (w : world) :
  snd (print_all l w) = mk_world (g_state w) (files w) (rand_calls w) (stdout w ++ l).
Proof.
  revert w. induction l as [|o l IH]; intros w.
  - cbn. rewrite app_nil_r. now destruct w.
  - cbn [print_all]. unfold_monad. rewrite IH. cbn. now rewrite <- app_assoc.
Qed.

Lemma same_but_err_with_err (g : game_state) (e : table) :
  same_but_err g (with_g_board g (with_err (g_board g) e)).
Proof. reflexivity. Qed.

(** The check that follows [print_board] in [set] and [autofill]. *)
Lemma check_after_print_board {E : Environment} (w1 : world) :
  mode (g_state w1) = Solve ->
  check_outcome (g_state w1) (snd (check_filled_board (snd (print_board w1)))).
Proof.
  intros Hmode. destruct (print_board_spec w1) as [e [m Hpb]]. rewrite Hpb.
  match goal with |- context [check_filled_board ?w] => set (w2 := w) end.
  destruct (check_filled_board_spec w2) as [Hs Hu].
  split; intros Hv.
  - rewrite Hs by exact Hv. cbn [snd g_state].
    split; [reflexivity|]. split; [reflexivity|]. split.
    + exists (g_state w2). split; [apply same_but_err_with_err|reflexivity].
    + eexists. reflexivity.
  - rewrite Hu by exact Hv. cbn [snd g_state].
    split; [exact Hmode|]. split; [apply same_but_err_with_err|].
    eexists. reflexivity.
Qed.

Lemma print_board_mode_empty (w1 : world) :
  mode (g_state (snd (print_board w1))) = mode (g_state w1)
  /\ empty_cells_num (g_board (g_state (snd (print_board w1))))
     = empty_cells_num (g_board (g_state w1)).
Proof.
  destruct (print_board_spec w1) as [e [m ->]]. split; reflexivity.
Qed.

(** In Solve mode a [set] that leaves [empty_cells_num] at 0 ends with the
    check of the board. *)
Lemma set_checks {E : Environment} (w : world) (x y z : Z) :
  mode (g_state w) = Solve ->
  tget (fixed (g_board (g_state w))) (y - 1) (x - 1) = 0 ->
  empty_cells_num (g_board (set_cell (g_state w) (y - 1) (x - 1) z)) = 0 ->
  set x y z w
  = check_filled_board
      (snd (print_board (mk_world (set_cell (g_state w) (y - 1) (x - 1) z)
                                  (files w) (rand_calls w) (stdout w)))).
Proof.
  intros Hmode Hfixed Hempty. unfold set. unfold_monad. rewrite Hfixed.
  cbn [Z.eqb negb].
  match goal with |- context [print_board ?w0] => set (w1 := w0) end.
  destruct (print_board_mode_empty w1) as [Hm He].
  destruct (print_board w1) as [[] w2]. cbn [snd] in *.
  rewrite Hm, He. subst w1. cbn [g_state]. rewrite Hempty.
  replace (mode (set_cell (g_state w) (y - 1) (x - 1) z)) with Solve
    by (symmetry; exact Hmode).
  reflexivity.
Qed.

(** An [autofill] on a board without erroneous cells that leaves
    [empty_cells_num] at 0 ends with the check of the board. *)
Lemma autofill_checks {E : Environment} (w : world) :
  fst (update_erroneous (g_state w)) = 0 ->
  empty_cells_num
    (g_board (fst (autofill_changes (snd (update_erroneous (g_state w)))))) = 0 ->
  autofill w
  = check_filled_board
      (snd (print_board
              (mk_world (fst (autofill_changes (snd (update_erroneous (g_state w)))))
                        (files w) (rand_calls w)
                        (stdout w
                         ++ snd (autofill_changes (snd (update_erroneous (g_state w)))))))).
Proof.
  intros Herr Hempty. unfold autofill. unfold_monad.
  destruct (update_erroneous (g_state w)) as [is_erroneous g0]. cbn [fst snd] in *.
  subst is_erroneous. cbn [Z.eqb negb].
  destruct (autofill_changes g0) as [g1 out]. cbn [fst snd] in *.
  match goal with |- context [print_all out ?w0] => set (w0' := w0) end.
  pose proof (print_all_spec out w0') as Hp.
  destruct (print_all out w0') as [[] w1]. cbn [snd] in Hp. subst w1 w0'.
  cbn [g_state files rand_calls stdout].
  match goal with |- context [print_board ?w0] => set (w1 := w0) end.
  destruct (print_board_mode_empty w1) as [Hm He].
  destruct (print_board w1) as [[] w2]. cbn [snd] in *.
  rewrite He. subst w1. cbn [g_state]. rewrite Hempty. reflexivity.
Qed.

(** [redo] keeps the mode and prints neither verdict: it makes no check of
    the board it leaves. *)
Lemma redo_prints_no_verdict (w : world) :
  mode (g_state (snd (redo w))) = mode (g_state w)
  /\ exists out, stdout (snd (redo w)) = stdout w ++ out
                 /\ ~ In solved_message out /\ ~ In erroneous_message out.
Proof.
  unfold redo. unfold_monad. destruct (negb (can_redo (m_list (g_state w)))).
  - cbn [snd g_state stdout]. split; [reflexivity|].
    eexists. split; [reflexivity|].
    split; intros [H|[]]; discriminate H.
  - match goal with |- context [print_board ?w0] => set (w1 := w0) end.
    destruct (print_board_spec w1) as [e [m Hpb]].
    destruct (print_board w1) as [[] w2]. cbn [snd] in Hpb. subst w2.
    cbn [g_state].
    match goal with |- context [print_all ?l ?w0] =>
      pose proof (print_all_spec l w0) as Hp; destruct (print_all l w0) as [[] w3]
    end.
    cbn [snd] in *. subst w3. cbn [g_state stdout files rand_calls]. split.
    + subst w1. cbn [g_state mode with_g_board].
      apply (apply_changes_mode_fixed _ (with_m_list (g_state w) _)).
    + subst w1. cbn [stdout]. rewrite <- app_assoc. eexists. split; [reflexivity|].
      split; (intros [H|H]; [discriminate H|];
              apply in_map_iff in H; destruct H as [c [H _]]; discriminate H).
Qed.

(** C3, as the code has it: in Solve mode a [set] on a cell that is not
    fixed, or an [autofill] on a board without erroneous cells, that leaves
    [empty_cells_num] at 0 ends with the check of the board: when the board
    is solvable the game is freed and the mode is Init, when it is
    unsolvable the game stays in Solve mode, and the verdict is printed.
    [redo] makes no such check: it keeps the mode and prints no verdict. *)
Theorem completion_check_after_set_and_autofill {E : Environment}
        (w : world) (x y z : Z) :
  mode (g_state w) = Solve ->
  (tget (fixed (g_board (g_state w))) (y - 1) (x - 1) = 0 ->
   empty_cells_num (g_board (set_cell (g_state w) (y - 1) (x - 1) z)) = 0 ->
   check_outcome (set_cell (g_state w) (y - 1) (x - 1) z) (snd (set x y z w)))
  /\ (fst (update_erroneous (g_state w)) = 0 ->
      empty_cells_num
        (g_board (fst (autofill_changes (snd (update_erroneous (g_state w)))))) = 0 ->
      check_outcome (fst (autofill_changes (snd (update_erroneous (g_state w)))))
                    (snd (autofill w)))
  /\ (mode (g_state (snd (redo w))) = Solve
      /\ exists out, stdout (snd (redo w)) = stdout w ++ out
                     /\ ~ In solved_message out /\ ~ In erroneous_message out).
Proof.
  intros Hmode. split; [|split].
  - intros Hfixed Hempty. rewrite (set_checks w x y z Hmode Hfixed Hempty).
    apply (check_after_print_board (mk_world _ _ _ _)). exact Hmode.
  - intros Herr Hempty. rewrite (autofill_checks w Herr Hempty).
    apply (check_after_print_board (mk_world _ _ _ _)).
    pose proof (autofill_changes_mode_fixed (snd (update_erroneous (g_state w))))
      as [Hm1 _].
    pose proof (update_erroneous_frame (g_state w)) as Hm2. cbv zeta in Hm2.
    destruct Hm2 as [Hm2 _].
    change (mode (fst (autofill_changes (snd (update_erroneous (g_state w))))) = Solve).
    congruence.
  - destruct (redo_prints_no_verdict w) as [Hm Hout]. split; [|exact Hout].
    rewrite Hm. exact Hmode.
Qed.

Lemma completion_check_after_set_and_autofill_witness :
  let w := example_after [cmd_file SOLVE "three2"] in
  (mode (g_state w) = Solve
   /\ tget (fixed (g_board (g_state w))) (2 - 1) (2 - 1) = 0
   /\ empty_cells_num (g_board (set_cell (g_state w) (2 - 1) (2 - 1) 1)) = 0
   /\ is_valid_board (E := example_env) (set_cell (g_state w) (2 - 1) (2 - 1) 1)
      = BOARD_SOLVABLE)
  /\ mode (g_state (snd (set (E := example_env) 2 2 1 w))) = Init
  /\ check_outcome (E := example_env)
       (fst (autofill_changes (snd (update_erroneous (g_state w)))))
       (snd (autofill (E := example_env) w))
  /\ mode (g_state (snd (redo w))) = Solve.
Proof.
  cbv zeta.
  assert (Hmode : mode (g_state (example_after [cmd_file SOLVE "three2"])) = Solve)
    by (vm_compute; reflexivity).
  assert (Hfixed : tget (fixed (g_board (g_state (example_after
                      [cmd_file SOLVE "three2"])))) (2 - 1) (2 - 1) = 0)
    by (vm_compute; reflexivity).
  assert (Hempty : empty_cells_num (g_board (set_cell (g_state (example_after
                      [cmd_file SOLVE "three2"])) (2 - 1) (2 - 1) 1)) = 0)
    by (vm_compute; reflexivity).
  assert (Hvalid : is_valid_board (E := example_env)
                     (set_cell (g_state (example_after [cmd_file SOLVE "three2"]))
                               (2 - 1) (2 - 1) 1) = BOARD_SOLVABLE)
    by (vm_compute; reflexivity).
  destruct (completion_check_after_set_and_autofill (E := example_env)
              (example_after [cmd_file SOLVE "three2"]) 2 2 1 Hmode)
    as [Hset [Hauto [Hredo _]]].
  split; [split; [exact Hmode|split; [exact Hfixed|split; [exact Hempty|exact Hvalid]]]|].
  split; [exact (proj1 (proj1 (Hset Hfixed Hempty) Hvalid))|].
  split; [apply Hauto; vm_compute; reflexivity|exact Hredo].
Defined.

(** C3 fails for [redo].  After [solve] of the 1x1 puzzle with an empty
    cell, [guess 1] and [undo], the game is in Solve mode and [redo] fills
    the only cell with 1: no cell is empty and the board is solvable, yet
    the game stays in Solve mode.  After [solve] of the 2x2 puzzle,
    [set 2 2 2] and [undo], [redo] leaves [empty_cells_num] at 0 and prints
    the board and the change only, where [set 2 2 2] on the same game ends
    with the verdict. *)
Lemma redo_makes_no_completion_check :
  (let w := example_after [cmd_file SOLVE "empty1"; cmd_guess 1; cmd_ints UNDO []] in
   let g' := g_state (snd (redo w)) in
   reachable (E := example_env) w
   /\ mode (g_state w) = Solve
   /\ board (g_board g') = [[1]]
   /\ count_empty (board (g_board g')) (N (g_board g')) = 0
   /\ is_valid_board (E := example_env) g' = BOARD_SOLVABLE
   /\ mode g' = Solve)
  /\ (let w := quiet (example_after [cmd_file SOLVE "three2"; cmd_ints SET [2; 2; 2];
                                     cmd_ints UNDO []]) in
      let g' := g_state (snd (redo w)) in
      reachable (E := example_env)
                (example_after [cmd_file SOLVE "three2"; cmd_ints SET [2; 2; 2];
                                cmd_ints UNDO []])
      /\ mode (g_state w) = Solve
      /\ board (g_board g') = [[1; 2]; [2; 2]]
      /\ empty_cells_num (g_board g') = 0
      /\ count_empty (board (g_board g')) (N (g_board g')) = 0
      /\ is_valid_board (E := example_env) g' = BOARD_UNSOLVABLE
      /\ stdout (snd (redo w))
         = [Board_print [[1; 2]; [2; 2]] [[1; 1]; [1; 0]] [[0; 0]; [0; 1]] 1 2 1;
            Printf_d "Redo %d,%d: from %s to %s" [2; 2; 0; 2]]
      /\ stdout (snd (set (E := example_env) 2 2 2 w))
         = [Board_print [[1; 2]; [2; 2]] [[1; 1]; [1; 0]] [[0; 0]; [0; 1]] 1 2 1;
            erroneous_message]).
Proof.
  cbv zeta. split; (split; [|vm_compute; repeat split]);
    (apply example_after_reachable; [all_dispatched|vm_compute; discriminate]).
Qed.

(* ================================================================== *)
(** * Further properties of the code *)

(** ** The moves list (Moves_Linked_List.c) *)

(** X1. [add_move_node_to_list], on a list whose current pointer is on one
    of its nodes or on the sentinel: the moves up to the current one are
    kept, every move after it is deleted, the new move is the last and the
    current one, so that nothing can be redone and the new move can be
    undone. *)
Theorem add_move_node_discards_redo (l : moves_list) (m_node : move_node) :
  (curr_pointer l <= length (moves l))%nat ->
  let l' := add_move_node_to_list l m_node in
  can_redo l' = false
  /\ can_undo l' = true
  /\ get_curr_pointer_changes_iter l' = m_node
  /\ length (moves l') = S (curr_pointer l)
  /\ (forall k, (k < curr_pointer l)%nat -> nth k (moves l') [] = nth k (moves l) [])
  /\ dec_curr_pointer l' = mk_moves (moves l') (curr_pointer l).
Proof.
  intros Hle. cbv zeta.
  unfold add_move_node_to_list, can_redo, can_undo, get_curr_pointer_changes_iter,
    dec_curr_pointer.
  cbn [moves curr_pointer Nat.eqb negb].
  assert (Hlen : length (firstn (curr_pointer l) (moves l)) = curr_pointer l)
    by (rewrite length_firstn; lia).
  rewrite length_app, Hlen. cbn [length].
  split; [apply Nat.ltb_ge; lia|]. split; [reflexivity|]. split.
  - rewrite app_nth2 by lia. rewrite Hlen, Nat.sub_diag. reflexivity.
  - split; [lia|]. split; [|reflexivity].
    intros k Hk. rewrite app_nth1 by lia. rewrite nth_firstn.
    apply Nat.ltb_lt in Hk. now rewrite Hk.
Qed.

Lemma add_move_node_discards_redo_witness :
  (2 <= length [[mk_change 0 0 0 1]; [mk_change 0 1 0 2]; [mk_change 1 1 0 3]])%nat
  /\ can_redo (add_move_node_to_list
                 (mk_moves [[mk_change 0 0 0 1]; [mk_change 0 1 0 2]; [mk_change 1 1 0 3]] 2)
                 [mk_change 1 0 0 4]) = false.
Proof.
  assert (H : (curr_pointer (mk_moves [[mk_change 0 0 0 1]; [mk_change 0 1 0 2];
                                        [mk_change 1 1 0 3]] 2)
               <= length (moves (mk_moves [[mk_change 0 0 0 1]; [mk_change 0 1 0 2];
                                           [mk_change 1 1 0 3]] 2)))%nat)
    by (cbn; lia).
  split; [exact H|].
  exact (proj1 (add_move_node_discards_redo _ [mk_change 1 0 0 4] H)).
Defined.

(** X2. Moving the current pointer back and then forward, or forward and
    then back, leaves the moves list as it was, whenever the first of the
    two moves is allowed ([can_undo], respectively [can_redo]). *)
Theorem curr_pointer_moves_are_inverse (l : moves_list) :
  (curr_pointer l <= length (moves l))%nat ->
  (can_undo l = true ->
   can_redo (dec_curr_pointer l) = true /\ inc_curr_pointer (dec_curr_pointer l) = l)
  /\ (can_redo l = true ->
      can_undo (inc_curr_pointer l) = true /\ dec_curr_pointer (inc_curr_pointer l) = l).
Proof.
  intros Hle. split.
  - intros Hc. now apply inc_dec_curr_pointer.
  - intros Hc. destruct l as [ms k].
    unfold dec_curr_pointer, inc_curr_pointer, can_undo. rewrite Hc.
    cbn [moves curr_pointer Nat.eqb negb]. split; reflexivity.
Qed.

Lemma curr_pointer_moves_are_inverse_witness :
  (1 <= length [[mk_change 0 0 0 1]; [mk_change 0 1 0 2]])%nat
  /\ inc_curr_pointer
       (dec_curr_pointer (mk_moves [[mk_change 0 0 0 1]; [mk_change 0 1 0 2]] 1))
     = mk_moves [[mk_change 0 0 0 1]; [mk_change 0 1 0 2]] 1.
Proof.
  assert (H : (curr_pointer (mk_moves [[mk_change 0 0 0 1]; [mk_change 0 1 0 2]] 1)
               <= length (moves (mk_moves [[mk_change 0 0 0 1]; [mk_change 0 1 0 2]] 1)))%nat)
    by (cbn; lia).
  split; [exact H|].
  exact (proj2 (proj1 (curr_pointer_moves_are_inverse _ H) eq_refl)).
Defined.

(** ** The backtracking solver (Back_Tracking_Solver.c) *)

(** X3. [is_legal_value] answers [LEGAL_VALUE] exactly when no cell of the
    row, of the column or of the block of the cell holds the value, and
    [NOT_LEGAL_VALUE] exactly when one does. *)
Theorem is_legal_value_checks_row_column_block (b : table) (i j v br bc : Z) :
  0 < br -> 0 < bc -> in_range (br * bc) (i, j) ->
  (is_legal_value b i j v br bc = LEGAL_VALUE <->
   forall c', in_range (br * bc) c' -> same_unit br bc (i, j) c' = true ->
              tget b (fst c') (snd c') <> v)
  /\ (is_legal_value b i j v br bc = NOT_LEGAL_VALUE <->
      exists c', in_range (br * bc) c' /\ same_unit br bc (i, j) c' = true /\
                 tget b (fst c') (snd c') = v).
Proof.
  intros Hbr Hbc Hij. split.
  - now apply is_legal_value_legal.
  - now apply is_legal_value_spec.
Qed.

Lemma is_legal_value_checks_row_column_block_witness :
  (0 < 2 /\ 0 < 2 /\ in_range (2 * 2) (1, 2))
  /\ (is_legal_value example_board 1 2 1 2 2 = LEGAL_VALUE <->
      forall c', in_range (2 * 2) c' -> same_unit 2 2 (1, 2) c' = true ->
                 tget example_board (fst c') (snd c') <> 1).
Proof.
  assert (H1 : 0 < 2) by lia.
  assert (H2 : in_range (2 * 2) (1, 2)) by (unfold in_range; cbn; lia).
  split; [split; [exact H1|split; [exact H1|exact H2]]|].
  exact (proj1 (is_legal_value_checks_row_column_block example_board 1 2 1 2 2 H1 H1 H2)).
Defined.

Lemma empty_from_first (b : table) (n : Z) :
  0 < n ->
  forall k p, (p + k = Z.to_nat (n * n))%nat ->
    match empty_from b n p with
    | [] => forall q, (p <= q < Z.to_nat (n * n))%nat ->
                      tget b (fst (cell_of n q)) (snd (cell_of n q)) <> 0
    | c :: _ =>
        exists q, (p <= q < Z.to_nat (n * n))%nat /\ c = cell_of n q
                  /\ tget b (fst c) (snd c) = 0
                  /\ forall r, (p <= r < q)%nat ->
                               tget b (fst (cell_of n r)) (snd (cell_of n r)) <> 0
    end.
Proof.
  intros Hn. induction k as [|k IH]; intros p Hp.
  - rewrite empty_from_end by lia. intros q Hq. lia.
  - rewrite empty_from_step by lia.
    destruct (tget b (fst (cell_of n p)) (snd (cell_of n p)) =? 0) eqn:He.
    + exists p. split; [lia|]. split; [reflexivity|]. split; [now apply Z.eqb_eq|].
      intros r Hr. lia.
    + apply Z.eqb_neq in He. specialize (IH (S p) ltac:(lia)).
      destruct (empty_from b n (S p)) as [|c rest].
      * intros q Hq. destruct (Nat.eq_dec q p) as [->|Hne]; [exact He|apply IH; lia].
      * destruct IH as [q [Hq [Hc [Hz Hbefore]]]].
        exists q. split; [lia|]. split; [exact Hc|]. split; [exact Hz|].
        intros r Hr. destruct (Nat.eq_dec r p) as [->|Hne]; [exact He|apply Hbefore; lia].
Qed.

(** X4. [get_next_cell], started on the cell at position [p] of the
    row-by-row order (position [N*N] is the end mark [(N, 0)]), returns the
    first empty cell at or after that position, and [(-1, -1)] when every
    cell from there on is filled. *)
Theorem get_next_cell_finds_first_empty (b : table) (n : Z) (p : nat) :
  0 < n -> (p <= Z.to_nat (n * n))%nat ->
  exists c,
    get_next_cell b n (fst (cell_of n p)) (snd (cell_of n p)) = Some c
    /\ ((c = (-1, -1)
         /\ forall q, (p <= q < Z.to_nat (n * n))%nat ->
                      tget b (fst (cell_of n q)) (snd (cell_of n q)) <> 0)
        \/ (exists q, (p <= q < Z.to_nat (n * n))%nat /\ c = cell_of n q
                      /\ tget b (fst c) (snd c) = 0
                      /\ forall r, (p <= r < q)%nat ->
                                   tget b (fst (cell_of n r)) (snd (cell_of n r)) <> 0)).
Proof.
  intros Hn Hp. rewrite get_next_cell_spec by assumption.
  pose proof (empty_from_first b n Hn (Z.to_nat (n * n) - p) p ltac:(lia)) as H.
  destruct (empty_from b n p) as [|c rest].
  - exists (-1, -1). split; [reflexivity|]. left. split; [reflexivity|exact H].
  - exists c. split; [reflexivity|]. right. exact H.
Qed.

Lemma get_next_cell_finds_first_empty_witness :
  (0 < 4 /\ (5 <= Z.to_nat (4 * 4))%nat)
  /\ get_next_cell example_board 4 (fst (cell_of 4 5)) (snd (cell_of 4 5)) = Some (1, 2).
Proof.
  assert (H1 : 0 < 4) by lia.
  assert (H2 : (5 <= Z.to_nat (4 * 4))%nat) by (cbn; lia).
  split; [split; [exact H1|exact H2]|].
  destruct (get_next_cell_finds_first_empty example_board 4 5 H1 H2) as [c [Hc _]].
  rewrite Hc. vm_compute in Hc. exact (eq_sym Hc).
Defined.

Lemma empty_cells_full (b : table) (n : Z) :
  (forall c, in_range n c -> tget b (fst c) (snd c) <> 0) -> empty_cells b n = [].
Proof.
  intros H. unfold empty_cells. apply filter_none.
  intros c Hc. apply Z.eqb_neq. apply H. now apply in_all_cells.
Qed.

(** X5. On a board without empty cells [backTrack] does not look at the
    values: it returns with [BOARD_SOLVABLE] and a count of 1, whether or
    not a row, a column or a block holds a value twice. *)
Theorem backTrack_full_board_counts_one (b : table) (br bc : Z) :
  0 < br -> 0 < bc -> table_of_dim (br * bc) b ->
  (forall c, in_range (br * bc) c -> tget b (fst c) (snd c) <> 0) ->
  exists m, forall fuel, (m <= fuel)%nat ->
    backTrack fuel b br bc = Some (BOARD_SOLVABLE, 1, b).
Proof.
  intros Hbr Hbc Hdim Hfull.
  destruct (backTrack_runs br bc Hbr Hbc b Hdim) as [m Hm].
  exists m. intros fuel Hfuel. rewrite (Hm fuel Hfuel).
  rewrite (empty_cells_full b (br * bc) Hfull). reflexivity.
Qed.

Lemma backTrack_full_board_counts_one_witness :
  (0 < 1 /\ 0 < 2 /\ table_of_dim (1 * 2) [[1; 1]; [1; 1]]
   /\ no_duplicates [[1; 1]; [1; 1]] 1 2 = false)
  /\ exists m, forall fuel, (m <= fuel)%nat ->
       backTrack fuel [[1; 1]; [1; 1]] 1 2 = Some (BOARD_SOLVABLE, 1, [[1; 1]; [1; 1]]).
Proof.
  assert (H1 : 0 < 1) by lia.
  assert (H2 : 0 < 2) by lia.
  assert (Hd : table_of_dim (1 * 2) [[1; 1]; [1; 1]])
    by (apply table_of_dimb_spec; vm_compute; reflexivity).
  assert (Hf : forall c, in_range (1 * 2) c -> tget [[1; 1]; [1; 1]] (fst c) (snd c) <> 0).
  { intros [i j] [Hi Hj]. cbn [fst snd] in *.
    assert (Hi' : i = 0 \/ i = 1) by lia. assert (Hj' : j = 0 \/ j = 1) by lia.
    destruct Hi' as [-> | ->], Hj' as [-> | ->]; vm_compute; discriminate. }
  split; [split; [exact H1|split; [exact H2|split; [exact Hd|vm_compute; reflexivity]]]|].
  exact (backTrack_full_board_counts_one _ 1 2 H1 H2 Hd Hf).
Defined.

(** ** The game engine (Game.c) *)

(** X6. [find_all_legal_values] gives the board back as it was, the cell
    it clears being restored; the values it lists are exactly the values of
    [1..N] that no other cell of the row, the column or the block of the
    cell holds, and the number it returns is the number of values listed. *)
Theorem find_all_legal_values_lists_legal_values (b : table) (i j br bc : Z) :
  0 < br -> 0 < bc -> table_of_dim (br * bc) b -> in_range (br * bc) (i, j) ->
  let num := fst (fst (find_all_legal_values b i j br bc)) in
  let legal_values_list := snd (fst (find_all_legal_values b i j br bc)) in
  snd (find_all_legal_values b i j br bc) = b
  /\ num = Z.of_nat (length legal_values_list)
  /\ 0 <= num <= br * bc
  /\ forall v, In v legal_values_list <->
               1 <= v <= br * bc
               /\ forall c', in_range (br * bc) c' -> c' <> (i, j) ->
                             same_unit br bc (i, j) c' = true ->
                             tget b (fst c') (snd c') <> v.
Proof.
  intros Hbr Hbc Hdim Hij. cbv zeta. unfold find_all_legal_values. cbn [fst snd].
  split; [apply tset_restore|]. split; [reflexivity|]. split.
  - split; [lia|].
    match goal with |- Z.of_nat (length (filter ?f ?l)) <= _ =>
      pose proof (filter_length_le f l) as Hle end.
    rewrite length_map, zseq_length in Hle. nia.
  - intros v. rewrite filter_In. fold (values (br * bc)). rewrite in_values.
    assert (Hrow : 0 <= i < br * bc /\ 0 <= j < br * bc) by exact Hij.
    split.
    + intros [Hv Hl]. split; [exact Hv|].
      destruct (status_legal_cases (tset b i j 0) i j v br bc) as [Hs|Hs];
        [|rewrite Hs in Hl; discriminate].
      intros [i' j'] Hc' Hne Hu.
      pose proof (proj1 (is_legal_value_legal _ i j v br bc Hbr Hbc Hij) Hs (i', j') Hc' Hu)
        as H.
      destruct Hc' as [Hc1 Hc2]. cbn [fst snd] in *.
      rewrite tget_tset_other in H by (try lia; congruence). exact H.
    + intros [Hv Hfree]. split; [exact Hv|].
      assert (Hs : is_legal_value (tset b i j 0) i j v br bc = LEGAL_VALUE).
      { apply (is_legal_value_legal _ i j v br bc Hbr Hbc Hij).
        intros c' Hc' Hu. destruct c' as [i' j'].
        destruct (Z.eq_dec i' i) as [->|Hi]; [destruct (Z.eq_dec j' j) as [->|Hj]|].
        - cbn [fst snd]. rewrite (tget_tset_in (br * bc)) by (assumption || lia). lia.
        - destruct Hc' as [Hc1 Hc2]. cbn [fst snd] in *.
          rewrite tget_tset_other by (try lia; congruence).
          apply (Hfree (i, j')); [split; assumption|congruence|exact Hu].
        - destruct Hc' as [Hc1 Hc2]. cbn [fst snd] in *.
          rewrite tget_tset_other by (try lia; congruence).
          apply (Hfree (i', j')); [split; assumption|congruence|exact Hu]. }
      rewrite Hs. reflexivity.
Qed.

Lemma find_all_legal_values_lists_legal_values_witness :
  (0 < 2 /\ 0 < 2 /\ table_of_dim (2 * 2) example_board /\ in_range (2 * 2) (1, 2))
  /\ snd (find_all_legal_values example_board 1 2 2 2) = example_board
  /\ snd (fst (find_all_legal_values example_board 1 2 2 2)) = [1; 2].
Proof.
  assert (H1 : 0 < 2) by lia.
  assert (Hd : table_of_dim (2 * 2) example_board)
    by (apply table_of_dimb_spec; vm_compute; reflexivity).
  assert (H2 : in_range (2 * 2) (1, 2)) by (unfold in_range; cbn; lia).
  split; [split; [exact H1|split; [exact H1|split; [exact Hd|exact H2]]]|].
  split.
  - exact (proj1 (find_all_legal_values_lists_legal_values example_board 1 2 2 2
                    H1 H1 Hd H2)).
  - vm_compute. reflexivity.
Defined.

Lemma filter_length_update {A : Type} (f g : A -> bool) (x : A) (l : list A) :
  NoDup l -> (forall y, In y l -> y <> x -> g y = f y) ->
  (In x l -> Z.of_nat (length (filter g l))
             = Z.of_nat (length (filter f l)) + b2z (g x) - b2z (f x))
  /\ (~ In x l -> length (filter g l) = length (filter f l)).
Proof.
  induction l as [|a l IH]; intros Hnd Hag.
  - split; [intros []|reflexivity].
  - inversion Hnd as [|a' l' Hnotin Hnd']; subst.
    destruct (IH Hnd' (fun y Hy => Hag y (or_intror Hy))) as [IHin IHout].
    split.
    + intros [->|Hin].
      * cbn [filter]. specialize (IHout Hnotin).
        destruct (g x), (f x); cbn [length b2z]; lia.
      * assert (Hne : a <> x) by (intros ->; contradiction).
        cbn [filter]. rewrite (Hag a (or_introl eq_refl) Hne).
        specialize (IHin Hin). destruct (f a); cbn [length]; lia.
    + intros Hout.
      assert (Hne : a <> x) by (intros ->; apply Hout; now left).
      cbn [filter]. rewrite (Hag a (or_introl eq_refl) Hne).
      specialize (IHout (fun H => Hout (or_intror H))).
      destruct (f a); cbn [length]; lia.
Qed.

(** Writing [v] into a cell changes the number of empty cells by what the
    cell contributes before and after. *)
Lemma count_empty_tset (n : Z) (b : table) (i j v : Z) :
  table_of_dim n b -> in_range n (i, j) ->
  count_empty (tset b i j v) n
  = count_empty b n - (b2z (negb (v =? 0)) - b2z (negb (tget b i j =? 0))).
Proof.
  intros Hdim Hij. unfold count_empty, empty_cells.
  destruct (filter_length_update
              (fun c => tget b (fst c) (snd c) =? 0)
              (fun c => tget (tset b i j v) (fst c) (snd c) =? 0)
              (i, j) (all_cells n) (all_cells_nodup n)) as [Hin _].
  - intros [i' j'] Hy Hne. apply in_all_cells in Hy. destruct Hy as [Hy1 Hy2].
    destruct Hij as [Hi Hj]. cbn [fst snd] in *.
    rewrite tget_tset_other by (try lia; congruence). reflexivity.
  - rewrite (Hin (proj2 (in_all_cells n (i, j)) Hij)). cbn [fst snd].
    destruct Hij as [Hi Hj]. cbn [fst snd] in *.
    rewrite (tget_tset_in n) by assumption.
    destruct (v =? 0), (tget b i j =? 0); cbn [b2z negb]; lia.
Qed.

(** X7. [set_cell] and [change_cell] keep [empty_cells_num] right: when it
    is the number of empty cells of the board before the cell is written,
    it is the number of empty cells after; for [change_cell] the value
    [from] it is given must be the value the cell holds. *)
Theorem set_cell_keeps_empty_cells_num (g : game_state) (i j z : Z) :
  table_of_dim (N (g_board g)) (board (g_board g)) ->
  in_range (N (g_board g)) (i, j) ->
  empty_cells_num (g_board g) = count_empty (board (g_board g)) (N (g_board g)) ->
  (let g' := set_cell g i j z in
   empty_cells_num (g_board g') = count_empty (board (g_board g')) (N (g_board g')))
  /\ (forall from,
        tget (board (g_board g)) i j = from ->
        let g' := change_cell g i j from z in
        empty_cells_num (g_board g') = count_empty (board (g_board g')) (N (g_board g'))).
Proof.
  intros Hdim Hij He. split.
  - cbv zeta. unfold set_cell. state_simpl. rewrite count_empty_tset by assumption. lia.
  - intros from Hfrom. cbv zeta. unfold change_cell. state_simpl.
    rewrite count_empty_tset by assumption. rewrite Hfrom. lia.
Qed.

Lemma set_cell_keeps_empty_cells_num_witness :
  let g := g_state (example_after [cmd_file SOLVE "three2"]) in
  (table_of_dim (N (g_board g)) (board (g_board g))
   /\ in_range (N (g_board g)) (1, 1)
   /\ empty_cells_num (g_board g) = count_empty (board (g_board g)) (N (g_board g)))
  /\ empty_cells_num (g_board (set_cell g 1 1 2))
     = count_empty (board (g_board (set_cell g 1 1 2))) (N (g_board (set_cell g 1 1 2))).
Proof.
  cbv zeta.
  assert (Hd : table_of_dim (N (g_board (g_state (example_after [cmd_file SOLVE "three2"]))))
                 (board (g_board (g_state (example_after [cmd_file SOLVE "three2"])))))
    by (apply table_of_dimb_spec; vm_compute; reflexivity).
  assert (Hr : in_range (N (g_board (g_state (example_after [cmd_file SOLVE "three2"]))))
                        (1, 1)) by (vm_compute; repeat split; discriminate).
  assert (He : empty_cells_num (g_board (g_state (example_after [cmd_file SOLVE "three2"])))
               = count_empty (board (g_board (g_state (example_after
                                                         [cmd_file SOLVE "three2"]))))
                             (N (g_board (g_state (example_after
                                                     [cmd_file SOLVE "three2"])))))
    by (vm_compute; reflexivity).
  split; [split; [exact Hd|split; [exact Hr|exact He]]|].
  exact (proj1 (set_cell_keeps_empty_cells_num _ 1 1 2 Hd Hr He)).
Defined.

Lemma add_move_node_discards_redo_facts (l : moves_list) (m_node : move_node) :
  (curr_pointer l <= length (moves l))%nat ->
  can_undo (add_move_node_to_list l m_node) = true
  /\ get_curr_pointer_changes_iter (add_move_node_to_list l m_node) = m_node
  /\ dec_curr_pointer (add_move_node_to_list l m_node)
     = mk_moves (firstn (curr_pointer l) (moves l) ++ [m_node]) (curr_pointer l)
  /\ can_redo (dec_curr_pointer (add_move_node_to_list l m_node)) = true
  /\ inc_curr_pointer (dec_curr_pointer (add_move_node_to_list l m_node))
     = add_move_node_to_list l m_node.
Proof.
  intros Hle.
  assert (Hlen : length (firstn (curr_pointer l) (moves l)) = curr_pointer l)
    by (rewrite length_firstn; lia).
  assert (Hwf : (curr_pointer (add_move_node_to_list l m_node)
                 <= length (moves (add_move_node_to_list l m_node)))%nat).
  { unfold add_move_node_to_list. cbn [moves curr_pointer].
    rewrite length_app, Hlen. cbn [length]. lia. }
  assert (Hundo : can_undo (add_move_node_to_list l m_node) = true) by reflexivity.
  destruct (inc_dec_curr_pointer _ Hundo Hwf) as [Hredo Hid].
  split; [exact Hundo|]. split; [|split; [reflexivity|split; assumption]].
  unfold add_move_node_to_list, get_curr_pointer_changes_iter.
  cbn [moves curr_pointer].
  rewrite app_nth2 by lia. rewrite Hlen, Nat.sub_diag. reflexivity.
Qed.

(** [set] on a cell that is not fixed leaves what [set_cell] leaves, unless
    it ends the game. *)
Lemma set_core {E : Environment} (w : world) (x y z : Z) :
  tget (fixed (g_board (g_state w))) (y - 1) (x - 1) = 0 ->
  mode (g_state (snd (set x y z w))) <> Init ->
  core (g_state (snd (set x y z w))) = core (set_cell (g_state w) (y - 1) (x - 1) z).
Proof.
  intros Hf. unfold set. unfold_monad. rewrite Hf. cbn [Z.eqb negb]. unfold_monad.
  case_print_board.
  destruct (mode_eqb (mode (g_state w0)) Solve && (empty_cells_num (g_board (g_state w0)) =? 0));
    [|intros _; exact Hpb].
  unfold check_filled_board. unfold_monad.
  repeat (case_branch; unfold_monad); intros Hmode; try exact Hpb.
  exfalso. apply Hmode. reflexivity.
Qed.

Lemma core_with_m_list (g g' : game_state) (l : moves_list) :
  core g = core g' -> core (with_m_list g l) = core (with_m_list g' l).
Proof.
  unfold core, with_m_list. cbn [g_board m_list]. intros H.
  inversion H as [[Hb He Hl]]. reflexivity.
Qed.

(** X8. A [set] on a cell that is not fixed, when it does not end the
    game, is taken back by [undo]: the board values and [empty_cells_num]
    are those before the [set], the current pointer is where it was, and
    the [set] can be redone. *)
Theorem set_then_undo_restores {E : Environment} (w : world) (x y z : Z) :
  let g := g_state w in
  let g' := g_state (snd (undo (snd (set x y z w)))) in
  (curr_pointer (m_list g) <= length (moves (m_list g)))%nat ->
  tget (fixed (g_board g)) (y - 1) (x - 1) = 0 ->
  mode (g_state (snd (set x y z w))) <> Init ->
  board (g_board g') = board (g_board g)
  /\ empty_cells_num (g_board g') = empty_cells_num (g_board g)
  /\ curr_pointer (m_list g') = curr_pointer (m_list g)
  /\ can_redo (m_list g') = true
  /\ get_curr_pointer_changes_iter (inc_curr_pointer (m_list g'))
     = [mk_change (y - 1) (x - 1) (tget (board (g_board g)) (y - 1) (x - 1)) z].
Proof.
  cbv zeta. intros Hle Hf Hmode.
  pose proof (set_core w x y z Hf Hmode) as Hcore.
  set (ws := snd (set x y z w)) in *.
  set (gs := set_cell (g_state w) (y - 1) (x - 1) z) in *.
  set (ch := mk_change (y - 1) (x - 1) (tget (board (g_board (g_state w))) (y - 1) (x - 1)) z).
  assert (Hl : m_list (g_state ws) = add_move_node_to_list (m_list (g_state w)) [ch])
    by exact (f_equal snd Hcore).
  destruct (add_move_node_discards_redo_facts (m_list (g_state w)) [ch] Hle)
    as [Hundo [Hch [Hdec [Hredo Hid]]]].
  assert (Hu : core (g_state (snd (undo ws)))
               = (board (g_board (g_state w)), empty_cells_num (g_board (g_state w)),
                  dec_curr_pointer (m_list (g_state ws)))).
  { rewrite undo_core by (rewrite Hl; exact Hundo).
    rewrite (core_with_m_list _ (revert_changes gs [ch])).
    - unfold core, with_m_list, revert_changes, change_cell, gs, set_cell, ch.
      cbn [fold_left g_board m_list board empty_cells_num cell_rows cell_cols z1 z2
           with_g_board with_board with_empty_cells_num].
      rewrite tset_restore. f_equal. f_equal. lia.
    - rewrite Hl, Hch. apply revert_changes_core. exact Hcore. }
  assert (Hb : board (g_board (g_state (snd (undo ws)))) = board (g_board (g_state w)))
    by exact (f_equal (fun c => fst (fst c)) Hu).
  assert (He : empty_cells_num (g_board (g_state (snd (undo ws))))
               = empty_cells_num (g_board (g_state w)))
    by exact (f_equal (fun c => snd (fst c)) Hu).
  assert (Hm : m_list (g_state (snd (undo ws))) = dec_curr_pointer (m_list (g_state ws)))
    by exact (f_equal snd Hu).
  rewrite Hm, Hl. split; [exact Hb|]. split; [exact He|].
  split; [rewrite Hdec; reflexivity|]. split; [exact Hredo|].
  rewrite Hid. exact Hch.
Qed.

Lemma set_then_undo_restores_witness :
  let w := example_after [cmd_file SOLVE "three2"] in
  ((curr_pointer (m_list (g_state w)) <= length (moves (m_list (g_state w))))%nat
   /\ tget (fixed (g_board (g_state w))) (2 - 1) (2 - 1) = 0
   /\ mode (g_state (snd (set (E := example_env) 2 2 2 w))) <> Init)
  /\ board (g_board (g_state (snd (undo (snd (set (E := example_env) 2 2 2 w))))))
     = board (g_board (g_state w)).
Proof.
  cbv zeta.
  assert (H1 : (curr_pointer (m_list (g_state (example_after [cmd_file SOLVE "three2"])))
                <= length (moves (m_list (g_state (example_after
                                                     [cmd_file SOLVE "three2"])))))%nat)
    by (vm_compute; lia).
  assert (H2 : tget (fixed (g_board (g_state (example_after [cmd_file SOLVE "three2"]))))
                    (2 - 1) (2 - 1) = 0) by (vm_compute; reflexivity).
  assert (H3 : mode (g_state (snd (set (E := example_env) 2 2 2
                                       (example_after [cmd_file SOLVE "three2"])))) <> Init)
    by (vm_compute; discriminate).
  split; [split; [exact H1|split; [exact H2|exact H3]]|].
  exact (proj1 (set_then_undo_restores (E := example_env)
                  (example_after [cmd_file SOLVE "three2"]) 2 2 2 H1 H2 H3)).
Defined.

Lemma write_all_over (n : Z) (u v : change_node -> Z) (changes : list change_node)
      (b : table) :
  table_of_dim n b ->
  (forall ch, In ch changes ->
              in_range n (cell_rows ch, cell_cols ch)
              /\ tget b (cell_rows ch) (cell_cols ch) = u ch) ->
  write_all u changes (write_all v changes b) = b.
Proof.
  intros Hb Hag. apply (table_ext n); [|exact Hb|].
  - now apply table_of_dim_write_all, table_of_dim_write_all.
  - intros i j Hij.
    apply (tget_write_all n); [exact Hij|intros ch Hin; now apply Hag| |
                               now apply table_of_dim_write_all|].
    + intros ch Hin Hch. destruct (Hag ch Hin) as [_ H]. inversion Hch. now subst.
    + destruct (touched_or_not changes i j) as [Ht|Hn]; [now right|left].
      apply (tget_write_all n); [exact Hij|intros ch Hin; now apply Hag| |exact Hb|now left].
      intros ch Hin Hch. now destruct (Hn ch Hin).
Qed.

Lemma dec_inc_curr_pointer (l : moves_list) :
  can_redo l = true ->
  can_undo (inc_curr_pointer l) = true /\ dec_curr_pointer (inc_curr_pointer l) = l.
Proof.
  intros Hc. destruct l as [ms k].
  unfold dec_curr_pointer, inc_curr_pointer, can_undo. rewrite Hc.
  cbn [moves curr_pointer Nat.eqb negb]. split; reflexivity.
Qed.

Lemma revert_changes_parts (changes : list change_node) (g : game_state) :
  board (g_board (revert_changes g changes)) = write_all z1 changes (board (g_board g))
  /\ empty_cells_num (g_board (revert_changes g changes))
     = empty_cells_num (g_board g) + filled_delta changes.
Proof.
  pose proof (revert_changes_writes changes g) as H. unfold core in H.
  split; [exact (f_equal (fun c => fst (fst c)) H)|exact (f_equal (fun c => snd (fst c)) H)].
Qed.

Lemma apply_changes_parts (changes : list change_node) (g : game_state) :
  board (g_board (apply_changes g changes)) = write_all z2 changes (board (g_board g))
  /\ empty_cells_num (g_board (apply_changes g changes))
     = empty_cells_num (g_board g) - filled_delta changes
  /\ m_list (apply_changes g changes) = m_list g.
Proof.
  pose proof (apply_changes_writes changes g) as H. unfold core in H.
  split; [exact (f_equal (fun c => fst (fst c)) H)|].
  split; [exact (f_equal (fun c => snd (fst c)) H)|exact (f_equal snd H)].
Qed.

Lemma redo_then_undo_identity (w : world) :
  let g := g_state w in
  can_redo (m_list g) = true ->
  table_of_dim (N (g_board g)) (board (g_board g)) ->
  next_move_agrees g ->
  core (g_state (snd (undo (snd (redo w))))) = core g.
Proof.
  cbv zeta. intros Hc Hdim Hag.
  destruct (dec_inc_curr_pointer _ Hc) as [Hu Hid].
  pose proof (redo_core w Hc) as Hr.
  set (l' := inc_curr_pointer (m_list (g_state w))) in *.
  set (changes := get_curr_pointer_changes_iter l') in *.
  set (wr := snd (redo w)) in *.
  set (ga := apply_changes (with_m_list (g_state w) l') changes) in *.
  destruct (apply_changes_parts changes (with_m_list (g_state w) l')) as [Hb1 [He1 Hm1]].
  fold ga in Hb1, He1, Hm1. cbn [with_m_list g_board m_list] in Hb1, He1, Hm1.
  assert (Hl : m_list (g_state wr) = l').
  { transitivity (m_list ga); [exact (f_equal snd Hr)|exact Hm1]. }
  rewrite undo_core by (rewrite Hl; exact Hu).
  rewrite Hl. fold changes.
  rewrite (core_with_m_list _ (revert_changes ga changes))
    by (apply revert_changes_core; exact Hr).
  destruct (revert_changes_parts changes ga) as [Hb2 He2].
  unfold core. cbn [with_m_list g_board m_list].
  rewrite Hb2, He2, Hb1, He1, Hid.
  rewrite (write_all_over (N (g_board (g_state w)))) by assumption.
  f_equal. f_equal. lia.
Qed.

(** X9. [undo] and [redo] take each other back.  On a moves list whose
    current pointer is on one of its nodes or on the sentinel: when
    [can_undo] holds and the cells of the current move hold the values the
    move left there, [undo] followed by [redo] gives back the board values,
    [empty_cells_num] and the moves list; when [can_redo] holds and the
    cells of the next move hold the values it changes them from, so does
    [redo] followed by [undo]. *)
Theorem undo_and_redo_are_inverse (w : world) :
  let g := g_state w in
  (curr_pointer (m_list g) <= length (moves (m_list g)))%nat ->
  table_of_dim (N (g_board g)) (board (g_board g)) ->
  (can_undo (m_list g) = true -> move_agrees g ->
   core (g_state (snd (redo (snd (undo w))))) = core g)
  /\ (can_redo (m_list g) = true -> next_move_agrees g ->
      core (g_state (snd (undo (snd (redo w))))) = core g).
Proof.
  cbv zeta. intros Hle Hdim. split.
  - intros Hc Hag. now apply undo_then_redo_identity.
  - intros Hc Hag. now apply redo_then_undo_identity.
Qed.

Lemma undo_and_redo_are_inverse_witness :
  let w := example_after [cmd_file SOLVE "three2"; cmd_ints SET [2; 2; 2]] in
  ((curr_pointer (m_list (g_state w)) <= length (moves (m_list (g_state w))))%nat
   /\ table_of_dim (N (g_board (g_state w))) (board (g_board (g_state w)))
   /\ can_undo (m_list (g_state w)) = true)
  /\ core (g_state (snd (redo (snd (undo w))))) = core (g_state w).
Proof.
  cbv zeta.
  assert (H1 : le (curr_pointer (m_list (g_state (example_after
                     [cmd_file SOLVE "three2"; cmd_ints SET [2; 2; 2]]))))
                  (length (moves (m_list (g_state (example_after
                     [cmd_file SOLVE "three2"; cmd_ints SET [2; 2; 2]]))))))
    by (vm_compute; lia).
  assert (H2 : table_of_dim
                 (N (g_board (g_state (example_after
                       [cmd_file SOLVE "three2"; cmd_ints SET [2; 2; 2]]))))
                 (board (g_board (g_state (example_after
                       [cmd_file SOLVE "three2"; cmd_ints SET [2; 2; 2]])))))
    by (apply table_of_dimb_spec; vm_compute; reflexivity).
  assert (H3 : can_undo (m_list (g_state (example_after
                  [cmd_file SOLVE "three2"; cmd_ints SET [2; 2; 2]]))) = true)
    by (vm_compute; reflexivity).
  assert (H4 : move_agrees (g_state (example_after
                  [cmd_file SOLVE "three2"; cmd_ints SET [2; 2; 2]]))).
  { intros ch Hin. vm_compute in Hin. destruct Hin as [<-|[]].
    vm_compute. repeat split; discriminate. }
  split; [split; [exact H1|split; [exact H2|exact H3]]|].
  exact (proj1 (undo_and_redo_are_inverse _ H1 H2) H3 H4).
Defined.

Lemma reset_loop_m_list (n : nat) :
  forall g, (curr_pointer (m_list g) <= n)%nat ->
            m_list (reset_loop n g) = mk_moves (moves (m_list g)) 0.
Proof.
  induction n as [|n IH]; intros g Hn; cbn [reset_loop].
  - destruct (m_list g) as [ms k]. cbn [curr_pointer moves] in *.
    replace k with 0%nat by lia. reflexivity.
  - unfold can_undo. destruct (m_list g) as [ms [|k]] eqn:Hl; cbn [curr_pointer Nat.eqb negb].
    + rewrite Hl. reflexivity.
    + rewrite IH.
      * cbn [with_m_list m_list dec_curr_pointer moves]. rewrite revert_changes_m_list, Hl.
        reflexivity.
      * cbn [with_m_list m_list dec_curr_pointer curr_pointer].
        rewrite revert_changes_m_list, Hl. cbn [curr_pointer] in *. lia.
Qed.

(** X10. [reset] rewinds the moves list without deleting anything: the
    moves are those before the command and the current pointer is on the
    sentinel, so nothing is left to undo and every move can be redone. *)
Theorem reset_rewinds_the_moves_list (w : world) :
  let l := m_list (g_state w) in
  let l' := m_list (g_state (snd (reset w))) in
  moves l' = moves l
  /\ curr_pointer l' = 0%nat
  /\ can_undo l' = false
  /\ can_redo l' = negb (length (moves l) =? 0)%nat.
Proof.
  cbv zeta. unfold reset. unfold_monad.
  match goal with
  | |- context [print_board ?w0] =>
      destruct (print_board_core w0) as [Hp _]; destruct (print_board w0) as [u w1]
  end.
  cbn [snd g_state] in *.
  assert (Hl : m_list (g_state w1)
               = mk_moves (moves (m_list (g_state w))) 0).
  { transitivity (m_list (reset_loop (curr_pointer (m_list (g_state w))) (g_state w)));
      [exact (f_equal snd Hp)|apply reset_loop_m_list; lia]. }
  rewrite Hl. unfold can_undo, can_redo. cbn [moves curr_pointer Nat.eqb negb].
  repeat split. destruct (moves (m_list (g_state w))); reflexivity.
Qed.

Lemma forallb_negb_existsb {A : Type} (f : A -> bool) (l : list A) :
  forallb (fun x => negb (f x)) l = negb (existsb f l).
Proof.
  induction l as [|a l IH]; [reflexivity|]. cbn [forallb existsb].
  rewrite IH. now destruct (f a).
Qed.

Lemma forallb_pointwise {A : Type} (f g : A -> bool) (l : list A) :
  (forall x, f x = g x) -> forallb f l = forallb g l.
Proof.
  intros H. induction l as [|a l IH]; [reflexivity|]. cbn [forallb]. now rewrite H, IH.
Qed.

(** What [update_erroneous] returns, in terms of [no_duplicates]. *)
Lemma update_erroneous_fst (g : game_state) :
  board_wf (g_board g) ->
  fst (update_erroneous g)
  = if no_duplicates (board (g_board g)) (block_rows (g_board g)) (block_cols (g_board g))
    then 0 else 1.
Proof.
  intros [Hbr [Hbc [HN [Hb [He Hf]]]]].
  unfold update_erroneous. rewrite for2_all_cells. rewrite HN in *.
  destruct (update_erroneous_cells_spec (block_rows (g_board g)) (block_cols (g_board g))
              (fixed (g_board g)) (board (g_board g)) Hbr Hbc Hb
              (all_cells (block_rows (g_board g) * block_cols (g_board g)))
              (fun c H => proj1 (in_all_cells _ c) H) 0 (err (g_board g)) He)
    as [err' [Hfold _]].
  rewrite Hfold. cbn [fst].
  unfold no_duplicates.
  rewrite (forallb_pointwise _ (fun c => negb (negb (tget (board (g_board g)) (fst c) (snd c) =? 0)
                                         && conflicts (board (g_board g))
                                                      (block_rows (g_board g))
                                                      (block_cols (g_board g))
                                                      (fst c) (snd c)))).
  - rewrite forallb_negb_existsb. now destruct (existsb _ _).
  - intros c. now destruct (tget _ _ _ =? 0), (conflicts _ _ _ _ _).
Qed.

(** X11. [num_solutions] on a well-formed board: when some filled cell
    duplicates a value of its row, column or block it prints the error and
    nothing else; otherwise, given enough fuel, it prints the number of
    ways to fill the empty cells with values of [1..N] without a duplicate
    in any row, column or block, as the [int] it is counted in holds it:
    the number itself when it is [INT_MAX] at most. *)
Theorem num_solutions_prints_the_count (w : world) :
  let gb := g_board (g_state w) in
  board_wf gb ->
  (no_duplicates (board gb) (block_rows gb) (block_cols gb) = false ->
   forall fuel, exists w',
     num_solutions fuel w = Some (PROCESS_SUCCESS, w')
     /\ stdout w' = stdout w ++ [Printf "Error: board contains erroneous values"])
  /\ (no_duplicates (board gb) (block_rows gb) (block_cols gb) = true ->
      exists m, forall fuel, (m <= fuel)%nat -> exists w',
        num_solutions fuel w = Some (PROCESS_SUCCESS, w')
        /\ stdout w'
           = stdout w ++ [Printf_d "Number of solutions: %d"
                                   [int_wrap (count_completions (board gb) (block_rows gb)
                                                                (block_cols gb))]]
        /\ (count_completions (board gb) (block_rows gb) (block_cols gb) <= INT_MAX ->
            stdout w'
            = stdout w ++ [Printf_d "Number of solutions: %d"
                                    [count_completions (board gb) (block_rows gb)
                                                       (block_cols gb)]])).
Proof.
  cbv zeta. intros Hwf.
  pose proof (update_erroneous_fst (g_state w) Hwf) as He.
  destruct Hwf as [Hbr [Hbc [HN [Hb _]]]].
  pose proof (update_erroneous_frame (g_state w)) as Hf. cbv zeta in Hf.
  unfold num_solutions. unfold_monad.
  destruct (update_erroneous (g_state w)) as [e g']. cbn [fst snd] in He, Hf.
  destruct Hf as [_ [_ [_ [_ [Hboard [_ [Hbc' [Hbr' [HN' _]]]]]]]]].
  split; intros Hnd; rewrite Hnd in He; subst e; cbn [Z.eqb negb].
  - intros fuel. eexists. split; reflexivity.
  - rewrite Hboard, Hbc', Hbr', HN', HN.
    rewrite copy_table_id by (rewrite <- HN; exact Hb).
    destruct (backTrack_runs _ _ Hbr Hbc (board (g_board (g_state w)))
                             ltac:(rewrite <- HN; exact Hb)) as [m Hm].
    exists m. intros fuel Hfuel. rewrite (Hm fuel Hfuel).
    rewrite (count_from_fillings _ _ Hbr Hbc)
      by (try (rewrite <- HN; exact Hb); try apply fillable_empty_cells; assumption).
    rewrite <- count_completions_fillings.
    eexists. split; [reflexivity|]. split; [reflexivity|].
    intros Hmax. cbn [snd stdout].
    pose proof (count_completions_nonneg (board (g_board (g_state w)))
                  (block_rows (g_board (g_state w))) (block_cols (g_board (g_state w)))).
    rewrite int_wrap_small by lia. reflexivity.
Qed.

Lemma num_solutions_prints_the_count_witness :
  let w := example_after [cmd_file SOLVE "three2"] in
  let gb := g_board (g_state w) in
  (board_wf gb /\ no_duplicates (board gb) (block_rows gb) (block_cols gb) = true
   /\ count_completions (board gb) (block_rows gb) (block_cols gb) <= INT_MAX)
  /\ exists m, forall fuel, (m <= fuel)%nat -> exists w',
       num_solutions fuel w = Some (PROCESS_SUCCESS, w')
       /\ stdout w' = stdout w ++ [Printf_d "Number of solutions: %d" [1]].
Proof.
  cbv zeta.
  assert (Hwf : board_wf (g_board (g_state (example_after [cmd_file SOLVE "three2"]))))
    by (apply board_wfb_spec; vm_compute; reflexivity).
  assert (Hnd : no_duplicates
                  (board (g_board (g_state (example_after [cmd_file SOLVE "three2"]))))
                  (block_rows (g_board (g_state (example_after [cmd_file SOLVE "three2"]))))
                  (block_cols (g_board (g_state (example_after [cmd_file SOLVE "three2"]))))
                = true) by (vm_compute; reflexivity).
  assert (Hmax : count_completions
                   (board (g_board (g_state (example_after [cmd_file SOLVE "three2"]))))
                   (block_rows (g_board (g_state (example_after [cmd_file SOLVE "three2"]))))
                   (block_cols (g_board (g_state (example_after [cmd_file SOLVE "three2"]))))
                 = 1) by (vm_compute; reflexivity).
  split; [split; [exact Hwf|split; [exact Hnd|rewrite Hmax; unfold INT_MAX; lia]]|].
  destruct (proj2 (num_solutions_prints_the_count _ Hwf) Hnd) as [m Hm].
  exists m. intros fuel Hfuel. destruct (Hm fuel Hfuel) as [w' [Hr [_ Hout]]].
  exists w'. split; [exact Hr|].
  rewrite Hmax in Hout. apply Hout. unfold INT_MAX. lia.
Defined.

(** ** Puzzle files (File_IO.c) *)

(** What the loops of [load_game] leave, for cells that are all different:
    the tables keep their dimension, the cells that are not read keep their
    values, every cell read holds the integer read for it and is fixed when
    a dot follows the integer and [set_fixed] is set, and the count of
    empty cells grows by the number of cells read as 0. *)
Lemma load_cells_spec (n : Z) (set_fixed : bool) (cells : list (Z * Z)) :
  NoDup cells -> (forall c, In c cells -> in_range n c) ->
  forall tokens b f e b' f' e',
    table_of_dim n b -> table_of_dim n f ->
    load_cells tokens cells set_fixed (b, f, e) = Some (b', f', e') ->
    table_of_dim n b' /\ table_of_dim n f'
    /\ (forall c, in_range n c -> ~ In c cells ->
                  tget b' (fst c) (snd c) = tget b (fst c) (snd c)
                  /\ tget f' (fst c) (snd c) = tget f (fst c) (snd c))
    /\ (forall c v ch, In (c, (v, ch)) (combine cells tokens) ->
                       tget b' (fst c) (snd c) = v
                       /\ tget f' (fst c) (snd c)
                          = if negb (ch =? EOF) && (set_fixed && (ch =? dot))
                            then 1 else tget f (fst c) (snd c))
    /\ e' = e + Z.of_nat (length (filter (fun c => tget b' (fst c) (snd c) =? 0) cells)).
Proof.
  induction cells as [|[i j] cells IH]; intros Hnd Hin tokens b f e b' f' e' Hb Hf Hload.
  - cbn [load_cells] in Hload. inversion Hload; subst.
    split; [exact Hb|]. split; [exact Hf|]. split; [intros c _ _; split; reflexivity|].
    split; [intros c v ch []|cbn [filter length]; lia].
  - cbn [load_cells] in Hload. destruct tokens as [|[v ch] tokens]; [discriminate|].
    inversion Hnd as [|c0 l0 Hnotin Hnd']; subst.
    assert (Hc : in_range n (i, j)) by (apply Hin; now left).
    set (f1 := if negb (ch =? EOF) && (set_fixed && (ch =? dot)) then tset f i j 1 else f)
      in Hload.
    assert (Hf1 : table_of_dim n f1)
      by (unfold f1; destruct (negb _ && _); [now apply table_of_dim_tset|exact Hf]).
    destruct (IH Hnd' (fun c H => Hin c (or_intror H)) tokens _ _ _ b' f' e'
                 (table_of_dim_tset n b i j v Hb) Hf1 Hload)
      as [Hb' [Hf' [Hout [Hread He]]]].
    assert (Hij : tget b' i j = v
                  /\ tget f' i j = if negb (ch =? EOF) && (set_fixed && (ch =? dot))
                                   then 1 else tget f i j).
    { destruct (Hout (i, j) Hc Hnotin) as [H1 H2]. cbn [fst snd] in H1, H2.
      destruct Hc as [Hi Hj]. cbn [fst snd] in Hi, Hj.
      rewrite H1, H2. split; [now apply (tget_tset_in n)|].
      unfold f1. destruct (negb _ && _); [now apply (tget_tset_in n)|reflexivity]. }
    split; [exact Hb'|]. split; [exact Hf'|]. split; [|split].
    + intros [i' j'] Hc' Hnot.
      assert (Hne : (i, j) <> (i', j')) by (intros Heq; apply Hnot; now left).
      destruct (Hout (i', j') Hc' (fun H => Hnot (or_intror H))) as [H1 H2].
      cbn [fst snd] in *. rewrite H1, H2.
      destruct Hc as [Hi Hj], Hc' as [Hi' Hj']. cbn [fst snd] in *.
      split; [apply tget_tset_other; try lia; exact Hne|].
      unfold f1. destruct (negb _ && _); [|reflexivity].
      apply tget_tset_other; try lia; exact Hne.
    + intros c v' ch' [Heq|Hin'].
      * inversion Heq; subst. exact Hij.
      * destruct (Hread c v' ch' Hin') as [H1 H2]. split; [exact H1|].
        rewrite H2. destruct (negb (ch' =? EOF) && _); [reflexivity|].
        assert (Hne : (i, j) <> c).
        { intros <-. apply Hnotin. apply (in_combine_l _ _ _ _ Hin'). }
        assert (Hc' : in_range n c) by (apply Hin; right; apply (in_combine_l _ _ _ _ Hin')).
        destruct c as [i' j']. destruct Hc as [Hi Hj], Hc' as [Hi' Hj']. cbn [fst snd] in *.
        unfold f1. destruct (negb _ && _); [|reflexivity].
        apply tget_tset_other; try lia; exact Hne.
    + rewrite He. cbn [filter fst snd]. rewrite (proj1 Hij).
      destruct (v =? 0); cbn [length]; lia.
Qed.

Lemma in_combine_nth {A B : Type} (l : list A) (l' : list B) (a : A) (b : B) :
  forall k, (k < length l)%nat -> (k < length l')%nat ->
            In (nth k l a, nth k l' b) (combine l l').
Proof.
  revert l'. induction l as [|x l IH]; intros [|y l'] k Hk Hk'; cbn [length] in *; try lia.
  destruct k as [|k]; cbn [nth combine]; [now left|]. right. apply IH; lia.
Qed.

Lemma load_cells_length (set_fixed : bool) (cells : list (Z * Z)) :
  forall tokens s r, load_cells tokens cells set_fixed s = Some r ->
                     (length cells <= length tokens)%nat.
Proof.
  induction cells as [|[i j] cells IH]; intros tokens s r Hload; cbn [length]; [lia|].
  cbn [load_cells] in Hload. destruct tokens as [|[v ch] tokens]; [discriminate|].
  destruct s as [[b f] e]. apply IH in Hload. cbn [length]. lia.
Qed.

(** X12. A board that [load_game] has read is counted: [N] is the product
    [block_rows * block_cols] as an [int] holds it (the product itself when
    that lies in [0..INT_MAX]) and it is not negative, the three tables have
    dimension [N], [err] is clear, a cell is fixed only when [set_fixed] is
    set, and [empty_cells_num] is the number of cells that hold 0. *)
Theorem load_game_builds_a_counted_board (path : string) (set_fixed : bool) (w : world)
        (gb : game_board) :
  fst (load_game path set_fixed w) = inl gb ->
  N gb = int_wrap (block_rows gb * block_cols gb)
  /\ 0 <= N gb <= INT_MAX
  /\ (0 <= block_rows gb * block_cols gb <= INT_MAX ->
      N gb = block_rows gb * block_cols gb)
  /\ table_of_dim (N gb) (board gb)
  /\ table_of_dim (N gb) (err gb)
  /\ table_of_dim (N gb) (fixed gb)
  /\ (forall i j, tget (err gb) i j = 0)
  /\ (forall i j, in_range (N gb) (i, j) ->
                  tget (fixed gb) i j = 0 \/ (tget (fixed gb) i j = 1 /\ set_fixed = true))
  /\ empty_cells_num gb = count_empty (board gb) (N gb).
Proof.
  unfold load_game, fopen_r. unfold_monad.
  destruct (lookup_file (files w) path) as [[|[br x1] [|[bc x2] tokens]]|];
    unfold_monad; try discriminate.
  unfold alloc_table_fails.
  destruct (int_wrap (br * bc) <? 0) eqn:Hneg; unfold_monad; [discriminate|].
  apply Z.ltb_ge in Hneg. pose proof (int_wrap_range (br * bc)) as Hrange.
  set (n := int_wrap (br * bc)) in *.
  destruct (load_cells tokens (all_cells n) set_fixed (alloc_table n, alloc_table n, 0))
    as [[[b' f'] e']|] eqn:Hload; unfold_monad; [|discriminate].
  intros Heq. inversion Heq; subst gb. clear Heq.
  cbn [N block_rows block_cols board err fixed empty_cells_num].
  destruct (load_cells_spec n set_fixed (all_cells n)
              (all_cells_nodup _) (fun c H => proj1 (in_all_cells _ c) H)
              tokens _ _ _ _ _ _
              (table_of_dim_alloc _) (table_of_dim_alloc _) Hload)
    as [Hb' [Hf' [_ [Hread He]]]].
  split; [reflexivity|]. split; [lia|].
  split; [intros Hsmall; subst n; apply int_wrap_small; unfold INT_MAX in *; lia|].
  split; [exact Hb'|]. split; [apply table_of_dim_alloc|].
  split; [exact Hf'|]. split; [intros i j; apply tget_alloc|]. split.
  - intros i j Hij.
    assert (Hin : In (i, j) (all_cells n)) by (now apply in_all_cells).
    destruct (In_nth _ _ (0, 0) Hin) as [k [Hk Hnth]].
    pose proof (load_cells_length _ _ _ _ _ Hload) as Hlen.
    assert (Hcomb : In ((i, j), nth k tokens (0, 0))
                       (combine (all_cells n) tokens)).
    { rewrite <- Hnth. apply in_combine_nth; lia. }
    destruct (nth k tokens (0, 0)) as [v ch].
    destruct (Hread (i, j) v ch Hcomb) as [_ Hfix]. cbn [fst snd] in Hfix.
    rewrite tget_alloc in Hfix. rewrite Hfix.
    destruct set_fixed; cbn [andb]; [|rewrite andb_false_r; now left].
    destruct (negb (ch =? EOF) && (ch =? dot)); [right; split; reflexivity|now left].
  - rewrite He. reflexivity.
Qed.

Lemma load_game_builds_a_counted_board_witness :
  fst (load_game "three2" true example_start) = inl three2_board
  /\ empty_cells_num three2_board = count_empty (board three2_board) (N three2_board).
Proof.
  assert (H : fst (load_game "three2" true example_start) = inl three2_board)
    by (vm_compute; reflexivity).
  split; [exact H|].
  destruct (load_game_builds_a_counted_board "three2" true example_start three2_board H)
    as [_ [_ [_ [_ [_ [_ [_ [_ He]]]]]]]].
  exact He.
Defined.

Lemma load_cells_map (tok : Z * Z -> Z * Z) (set_fixed : bool) (cells : list (Z * Z)) :
  forall s, exists r, load_cells (map tok cells) cells set_fixed s = Some r.
Proof.
  induction cells as [|[i j] cells IH]; intros [[b f] e]; cbn [load_cells map].
  - eexists. reflexivity.
  - destruct (tok (i, j)) as [v ch]. apply IH.
Qed.

Lemma in_combine_map {A B : Type} (tok : A -> B) (l : list A) (a : A) :
  In a l -> In (a, tok a) (combine l (map tok l)).
Proof.
  induction l as [|x l IH]; intros Hin; [destruct Hin|].
  cbn [map combine]. destruct Hin as [->|Hin]; [now left|right; now apply IH].
Qed.

Lemma save_game_load_game_aux {E : Environment} (gb : game_board) (path : string)
      (set_fixed : bool) (w : world) :
  N gb = block_rows gb * block_cols gb -> 0 <= N gb <= INT_MAX ->
  table_of_dim (N gb) (board gb) ->
  fopen_w path = true ->
  fst (save_game gb path w) = IO_SUCCESS
  /\ exists gb',
       fst (load_game path set_fixed (snd (save_game gb path w))) = inl gb'
       /\ board gb' = board gb
       /\ block_rows gb' = block_rows gb
       /\ block_cols gb' = block_cols gb
       /\ N gb' = N gb
       /\ empty_cells_num gb' = count_empty (board gb) (N gb)
       /\ forall i j, in_range (N gb) (i, j) ->
                      tget (fixed gb') i j
                      = if set_fixed then b2z (negb (tget (fixed gb) i j =? 0)) else 0.
Proof.
  intros HN Hint Hb Hopen.
  unfold save_game. rewrite Hopen. unfold write_file. unfold_monad.
  split; [reflexivity|].
  unfold load_game, fopen_r. unfold_monad. cbn [files lookup_file].
  rewrite String.eqb_refl. rewrite <- HN.
  rewrite int_wrap_small by (unfold INT_MAX in *; lia).
  unfold alloc_table_fails.
  replace (N gb <? 0) with false by (symmetry; apply Z.ltb_ge; lia).
  set (tok := fun c : Z * Z =>
                (tget (board gb) (fst c) (snd c),
                 if negb (tget (fixed gb) (fst c) (snd c) =? 0) then dot else space)).
  destruct (load_cells_map tok set_fixed (all_cells (N gb))
                           (alloc_table (N gb), alloc_table (N gb), 0))
    as [[[b' f'] e'] Hload].
  rewrite Hload. unfold_monad.
  destruct (load_cells_spec (N gb) set_fixed (all_cells (N gb))
              (all_cells_nodup _) (fun c H => proj1 (in_all_cells _ c) H)
              _ _ _ _ b' f' e'
              (table_of_dim_alloc _) (table_of_dim_alloc _) Hload)
    as [Hb' [Hf' [_ [Hread He']]]].
  assert (Hcell : forall c, in_range (N gb) c ->
                            tget b' (fst c) (snd c) = tget (board gb) (fst c) (snd c)
                            /\ tget f' (fst c) (snd c)
                               = if set_fixed
                                 then b2z (negb (tget (fixed gb) (fst c) (snd c) =? 0))
                                 else 0).
  { intros c Hc.
    destruct (Hread c _ _ (in_combine_map tok _ c (proj2 (in_all_cells _ c) Hc)))
      as [H1 H2].
    split; [exact H1|]. rewrite H2, tget_alloc.
    destruct set_fixed; cbn [andb]; [|now rewrite andb_false_r].
    destruct (tget (fixed gb) (fst c) (snd c) =? 0); reflexivity. }
  assert (Hboard : b' = board gb).
  { apply (table_ext (N gb)); [exact Hb'|exact Hb|].
    intros i j Hij. exact (proj1 (Hcell (i, j) Hij)). }
  eexists. split; [reflexivity|].
  cbn [board block_rows block_cols N empty_cells_num fixed].
  split; [exact Hboard|]. split; [reflexivity|]. split; [reflexivity|].
  split; [reflexivity|]. split.
  - rewrite He', Hboard. reflexivity.
  - intros i j Hij. exact (proj2 (Hcell (i, j) Hij)).
Qed.


(** X13. What [save_game] writes, [load_game] reads back: for a
    well-formed board, its [N] an [int], and a file that can be opened for
    writing, loading the saved file succeeds and gives the block dimensions
    and the board values that were saved, [empty_cells_num] as the number
    of cells that hold 0, and, when [set_fixed] is set, exactly the saved
    fixed cells as fixed (none when it is not set). *)
Theorem save_game_then_load_game {E : Environment} (gb : game_board) (path : string)
        (set_fixed : bool) (w : world) :
  board_wf gb -> N gb <= INT_MAX -> fopen_w path = true ->
  fst (save_game gb path w) = IO_SUCCESS
  /\ exists gb',
       fst (load_game path set_fixed (snd (save_game gb path w))) = inl gb'
       /\ board gb' = board gb
       /\ block_rows gb' = block_rows gb
       /\ block_cols gb' = block_cols gb
       /\ N gb' = N gb
       /\ empty_cells_num gb' = count_empty (board gb) (N gb)
       /\ forall i j, in_range (N gb) (i, j) ->
                      tget (fixed gb') i j
                      = if set_fixed then b2z (negb (tget (fixed gb) i j =? 0)) else 0.
Proof.
  intros [Hbr [Hbc [HN [Hb _]]]] Hint Hopen.
  apply save_game_load_game_aux; try assumption. nia.
Qed.

Lemma save_game_then_load_game_witness :
  (board_wf three2_board /\ N three2_board <= INT_MAX
   /\ fopen_w (Environment := example_env) "saved" = true)
  /\ exists gb',
       fst (load_game "saved" true
                      (snd (save_game (E := example_env) three2_board "saved"
                                      example_start))) = inl gb'
       /\ board gb' = board three2_board.
Proof.
  assert (Hwf : board_wf three2_board) by (apply board_wfb_spec; vm_compute; reflexivity).
  assert (Ho : fopen_w (Environment := example_env) "saved" = true) by reflexivity.
  assert (Hi : N three2_board <= INT_MAX) by (vm_compute; discriminate).
  split; [split; [exact Hwf|split; [exact Hi|exact Ho]]|].
  destruct (proj2 (save_game_then_load_game (E := example_env) three2_board "saved" true
                     example_start Hwf Hi Ho)) as [gb' [Hl [Hb _]]].
  exists gb'. split; [exact Hl|exact Hb].
Defined.

(** ** Saving (Game.c) *)

Lemma is_valid_board_update_erroneous {E : Environment} (g : game_state) :
  is_valid_board (snd (update_erroneous g)) = is_valid_board g.
Proof. rewrite update_erroneous_same_but_err. apply is_valid_board_with_err. Qed.

Lemma save_frame {E : Environment} (path : string) (w : world) :
  frame_kept (g_state w) (g_state (snd (save path w))).
Proof.
  pose proof (update_erroneous_frame_kept (g_state w)) as H.
  unfold save, save_game, write_file. unfold_monad.
  destruct (update_erroneous (g_state w)) as [e g']. cbn [snd] in H.
  unfold frame_kept in *. destruct H as [Hb [Hf [He [Hm Hl]]]].
  repeat (case_branch; unfold_monad); state_simpl; auto.
Qed.

(** X14. [save] never changes the game: the board values, the fixed
    table, [empty_cells_num], the mode and the moves list are after the
    command what they were before.  In Edit mode a board on which
    [update_erroneous] finds a conflict, or that the optimiser finds
    unsolvable, is not written: the files are as they were; and so they
    are when the file cannot be opened for writing. *)
Theorem save_keeps_the_game {E : Environment} (path : string) (w : world) :
  frame_kept (g_state w) (g_state (snd (save path w)))
  /\ (mode (g_state w) = Edit ->
      fst (update_erroneous (g_state w)) <> 0
      \/ is_valid_board (g_state w) = BOARD_UNSOLVABLE ->
      files (snd (save path w)) = files w)
  /\ (fopen_w path = false -> files (snd (save path w)) = files w).
Proof.
  split; [apply save_frame|]. split.
  - intros Hmode Hbad.
    pose proof (is_valid_board_update_erroneous (g_state w)) as Hv.
    unfold save. unfold_monad. rewrite Hmode. cbn [mode_eqb].
    destruct (update_erroneous (g_state w)) as [e g']. cbn [fst snd] in *.
    unfold_monad.
    destruct (e =? 0) eqn:He; cbn [negb]; unfold_monad; [|reflexivity].
    apply Z.eqb_eq in He. destruct Hbad as [Hbad|Hbad]; [contradiction|].
    rewrite Hv, Hbad. cbn [status_eqb]. unfold_monad. reflexivity.
  - intros Hopen. unfold save, save_game. rewrite Hopen. unfold_monad.
    destruct (update_erroneous (g_state w)) as [e g'].
    repeat (case_branch; unfold_monad); reflexivity.
Qed.

Lemma save_keeps_the_game_witness :
  let w := example_after [cmd_file EDIT "three2"; cmd_ints SET [2; 2; 2]] in
  (mode (g_state w) = Edit /\ fst (update_erroneous (g_state w)) <> 0)
  /\ files (snd (save (E := example_env) "saved" w)) = files w.
Proof.
  cbv zeta.
  assert (Hm : mode (g_state (example_after [cmd_file EDIT "three2";
                                             cmd_ints SET [2; 2; 2]])) = Edit)
    by (vm_compute; reflexivity).
  assert (He : fst (update_erroneous (g_state (example_after
                      [cmd_file EDIT "three2"; cmd_ints SET [2; 2; 2]]))) <> 0)
    by (vm_compute; discriminate).
  split; [split; [exact Hm|exact He]|].
  exact (proj1 (proj2 (save_keeps_the_game (E := example_env) "saved" _)) Hm
               (or_introl He)).
Defined.

Lemma load_game_files (path : string) (set_fixed : bool) (w1 w2 : world) :
  files w1 = files w2 -> fst (load_game path set_fixed w1) = fst (load_game path set_fixed w2).
Proof.
  intros H. unfold load_game, fopen_r. unfold_monad. rewrite H.
  destruct (lookup_file (files w2) path) as [[|[br x1] [|[bc x2] tokens]]|];
    unfold_monad; try reflexivity.
  destruct (alloc_table_fails _); unfold_monad; [reflexivity|].
  destruct (load_cells _ _ _ _) as [[[b f] e]|]; reflexivity.
Qed.

(** X15. A puzzle saved in Edit mode is a puzzle whose filled cells are
    the clues: when the board is well-formed, its [N] an [int], has no
    conflict, is found solvable and the file can be written, loading the
    saved file as [solve] does gives the board values back with exactly the
    filled cells fixed. *)
Theorem save_in_edit_fixes_the_filled_cells {E : Environment} (path : string) (w : world) :
  let gb := g_board (g_state w) in
  mode (g_state w) = Edit ->
  board_wf gb ->
  N gb <= INT_MAX ->
  fst (update_erroneous (g_state w)) = 0 ->
  is_valid_board (g_state w) = BOARD_SOLVABLE ->
  fopen_w path = true ->
  exists gb',
    fst (load_game path true (snd (save path w))) = inl gb'
    /\ board gb' = board gb
    /\ empty_cells_num gb' = count_empty (board gb) (N gb)
    /\ forall i j, in_range (N gb) (i, j) ->
                   tget (fixed gb') i j = b2z (negb (tget (board gb) i j =? 0)).
Proof.
  cbv zeta. intros Hmode Hwf Hint He Hvalid Hopen.
  pose proof (is_valid_board_update_erroneous (g_state w)) as Hv.
  set (gb1 := with_fixed (g_board (g_state w)) (board (g_board (g_state w)))).
  destruct Hwf as [Hbr [Hbc [HN [Hb _]]]].
  assert (Hint1 : 0 <= N gb1 <= INT_MAX) by (unfold gb1; cbn [N with_fixed]; nia).
  destruct (save_game_load_game_aux gb1 path true w HN Hint1 Hb Hopen)
    as [_ [gb' [Hload [Hb' [_ [_ [_ [He' Hfix]]]]]]]].
  exists gb'. split; [|split; [exact Hb'|split; [exact He'|exact Hfix]]].
  rewrite <- Hload. apply load_game_files.
  pose proof (update_erroneous_frame (g_state w)) as Hfr. cbv zeta in Hfr.
  unfold save. unfold_monad. rewrite Hmode. cbn [mode_eqb].
  destruct (update_erroneous (g_state w)) as [e g'] eqn:Hu. cbn [fst snd] in *. subst e.
  destruct Hfr as [_ [_ [_ [_ [Hboard [_ [Hbc' [Hbr' [HN' _]]]]]]]]].
  cbn [Z.eqb negb]. unfold_monad. rewrite Hv, Hvalid. cbn [status_eqb]. unfold_monad.
  unfold save_game. rewrite Hopen. unfold write_file. unfold_monad.
  unfold gb1. state_simpl. cbn [files]. rewrite Hboard, Hbc', Hbr', HN'. reflexivity.
Qed.

Lemma save_in_edit_fixes_the_filled_cells_witness :
  let w := example_after [cmd_file EDIT "three2"] in
  (mode (g_state w) = Edit
   /\ board_wf (g_board (g_state w))
   /\ N (g_board (g_state w)) <= INT_MAX
   /\ fst (update_erroneous (g_state w)) = 0
   /\ is_valid_board (E := example_env) (g_state w) = BOARD_SOLVABLE
   /\ fopen_w (Environment := example_env) "saved" = true)
  /\ exists gb',
       fst (load_game "saved" true (snd (save (E := example_env) "saved" w))) = inl gb'
       /\ board gb' = board (g_board (g_state w)).
Proof.
  cbv zeta.
  assert (H1 : mode (g_state (example_after [cmd_file EDIT "three2"])) = Edit)
    by (vm_compute; reflexivity).
  assert (H2 : board_wf (g_board (g_state (example_after [cmd_file EDIT "three2"]))))
    by (apply board_wfb_spec; vm_compute; reflexivity).
  assert (H3 : fst (update_erroneous (g_state (example_after [cmd_file EDIT "three2"]))) = 0)
    by (vm_compute; reflexivity).
  assert (H4 : is_valid_board (E := example_env)
                 (g_state (example_after [cmd_file EDIT "three2"])) = BOARD_SOLVABLE)
    by (vm_compute; reflexivity).
  assert (H5 : fopen_w (Environment := example_env) "saved" = true) by reflexivity.
  assert (H6 : N (g_board (g_state (example_after [cmd_file EDIT "three2"]))) <= INT_MAX)
    by (vm_compute; discriminate).
  split; [split; [exact H1|split; [exact H2|split; [exact H6|split;
    [exact H3|split; [exact H4|exact H5]]]]]|].
  destruct (save_in_edit_fixes_the_filled_cells (E := example_env) "saved" _ H1 H2 H6 H3 H4 H5)
    as [gb' [Hl [Hb _]]].
  exists gb'. split; [exact Hl|exact Hb].
Defined.

(** ** The command dispatch (Game_Operator.c) *)

(** X16. A command that is not available in the current mode does
    nothing to the game: [process_command] returns [PROCESS_SUCCESS], the
    game state, the files and the random stream are as they were, and two
    lines are printed, the first being the complaint. *)
Theorem unavailable_commands_change_nothing {E : Environment} (fuel : nat) (cmd : command)
        (w : world) :
  available (mode (g_state w)) (cmd_type cmd) = false ->
  exists where_available,
    process_command fuel cmd w
    = Some (PROCESS_SUCCESS,
            mk_world (g_state w) (files w) (rand_calls w)
                     (stdout w
                      ++ [Printf "ERROR: command unavailable in current mode, it is ";
                          Printf where_available])).
Proof.
  intros Hav. unfold process_command, process_command_init, only_in, total, print_invalid_mode.
  destruct (mode (g_state w)) eqn:Hm; destruct (cmd_type cmd) eqn:Ht;
    cbn [available mode_eqb negb] in Hav; try discriminate Hav;
    cbn [mode_eqb]; unfold_monad; rewrite ?Hm, ?Ht; cbn [mode_eqb negb];
    unfold_monad; rewrite ?Ht; unfold_monad;
    cbn [files rand_calls stdout]; rewrite <- app_assoc; eexists; reflexivity.
Qed.

Lemma unavailable_commands_change_nothing_witness :
  let w := example_after [cmd_file EDIT "three2"] in
  available (mode (g_state w)) (cmd_type (cmd_ints AUTOFILL [])) = false
  /\ exists where_available,
       process_command (E := example_env) 0 (cmd_ints AUTOFILL []) w
       = Some (PROCESS_SUCCESS,
               mk_world (g_state w) (files w) (rand_calls w)
                        (stdout w
                         ++ [Printf "ERROR: command unavailable in current mode, it is ";
                             Printf where_available])).
Proof.
  cbv zeta.
  assert (H : available (mode (g_state (example_after [cmd_file EDIT "three2"])))
                        (cmd_type (cmd_ints AUTOFILL [])) = false)
    by (vm_compute; reflexivity).
  split; [exact H|].
  exact (unavailable_commands_change_nothing (E := example_env) 0 (cmd_ints AUTOFILL []) _ H).
Defined.

Lemma parameters_in_range_spec (cmd : command) (count : nat) (lo : nat -> Z) (hi : Z) :
  parameters_in_range cmd count lo hi = true
  <-> forall i, (i < count)%nat -> lo i <= parameter cmd i <= hi.
Proof.
  unfold parameters_in_range. rewrite forallb_forall. split.
  - intros H i Hi. specialize (H i ltac:(apply in_seq; lia)).
    apply andb_true_iff in H. destruct H as [H1 H2].
    apply negb_true_iff in H1, H2. apply Z.ltb_ge in H1. rewrite Z.gtb_ltb in H2.
    apply Z.ltb_ge in H2. lia.
  - intros H i Hi. apply in_seq in Hi. specialize (H i ltac:(lia)).
    apply andb_true_iff. split; apply negb_true_iff.
    + apply Z.ltb_ge. lia.
    + rewrite Z.gtb_ltb. apply Z.ltb_ge. lia.
Qed.

(** X17. [process_set] lets a [set] through exactly when the column and
    the row lie in [1..N] and the value in [0..N], so that [set] always
    works on a cell of the board; otherwise it prints the range error and
    changes nothing. *)
Theorem process_set_checks_the_range {E : Environment} (cmd : command) (w : world) :
  let n := N (g_board (g_state w)) in
  let x := parameter cmd 0 in
  let y := parameter cmd 1 in
  let z := parameter cmd 2 in
  (1 <= x <= n /\ 1 <= y <= n /\ 0 <= z <= n ->
   process_set cmd w = set x y z w /\ in_range n (y - 1, x - 1))
  /\ (~ (1 <= x <= n /\ 1 <= y <= n /\ 0 <= z <= n) ->
      process_set cmd w
      = (PROCESS_SUCCESS,
         mk_world (g_state w) (files w) (rand_calls w)
                  (stdout w ++ [Printf_d "Error: value not in range 0-%d" [n]]))).
Proof.
  cbv zeta. unfold process_set. unfold_monad.
  pose proof (parameters_in_range_spec cmd 3 (fun i => 1 - Z.quot (Z.of_nat i) 2)
                (N (g_board (g_state w)))) as Hspec.
  split.
  - intros [Hx [Hy Hz]].
    assert (Hin : parameters_in_range cmd 3 (fun i => 1 - Z.quot (Z.of_nat i) 2)
                                      (N (g_board (g_state w))) = true).
    { apply Hspec. intros i Hi.
      destruct i as [|[|[|i]]]; [| | |lia]; cbn [Z.of_nat Z.quot]; vm_compute Z.quot;
        cbn; lia. }
    rewrite Hin. split; [reflexivity|]. unfold in_range. cbn [fst snd]. lia.
  - intros Hout.
    destruct (parameters_in_range cmd 3 _ _) eqn:Hin; [|reflexivity].
    exfalso. apply Hout.
    pose proof (proj1 Hspec eq_refl 0%nat ltac:(lia)) as H0.
    pose proof (proj1 Hspec eq_refl 1%nat ltac:(lia)) as H1.
    pose proof (proj1 Hspec eq_refl 2%nat ltac:(lia)) as H2.
    cbn in H0, H1, H2. lia.
Qed.

Lemma process_set_checks_the_range_witness :
  let w := example_after [cmd_file SOLVE "three2"] in
  let cmd := cmd_ints SET [3; 1; 1] in
  ~ (1 <= parameter cmd 0 <= N (g_board (g_state w))
     /\ 1 <= parameter cmd 1 <= N (g_board (g_state w))
     /\ 0 <= parameter cmd 2 <= N (g_board (g_state w)))
  /\ process_set (E := example_env) cmd w
     = (PROCESS_SUCCESS,
        mk_world (g_state w) (files w) (rand_calls w)
                 (stdout w ++ [Printf_d "Error: value not in range 0-%d"
                                        [N (g_board (g_state w))]])).
Proof.
  cbv zeta.
  assert (H : ~ (1 <= parameter (cmd_ints SET [3; 1; 1]) 0
                   <= N (g_board (g_state (example_after [cmd_file SOLVE "three2"])))
                 /\ 1 <= parameter (cmd_ints SET [3; 1; 1]) 1
                    <= N (g_board (g_state (example_after [cmd_file SOLVE "three2"])))
                 /\ 0 <= parameter (cmd_ints SET [3; 1; 1]) 2
                    <= N (g_board (g_state (example_after [cmd_file SOLVE "three2"]))))).
  { vm_compute. intros [[_ H] _]. apply H. reflexivity. }
  split; [exact H|].
  exact (proj2 (process_set_checks_the_range (E := example_env) (cmd_ints SET [3; 1; 1]) _) H).
Defined.

(** ** Autofill (Game.c) *)

Lemma find_all_legal_values_board (b : table) (i j br bc : Z) :
  snd (find_all_legal_values b i j br bc) = b.
Proof. unfold find_all_legal_values. cbn [snd]. apply tset_restore. Qed.

Lemma find_all_legal_values_positive (b : table) (i j br bc : Z) :
  fst (fst (find_all_legal_values b i j br bc)) = 1 ->
  nth 0 (snd (fst (find_all_legal_values b i j br bc))) 0 <> 0.
Proof.
  unfold find_all_legal_values. cbn [fst snd]. intros Hlen.
  match goal with |- nth 0 ?l 0 <> 0 => destruct l as [|v l'] eqn:Hl end;
    [cbn in Hlen; lia|].
  cbn [nth]. assert (Hin : In v (v :: l')) by now left. rewrite <- Hl in Hin.
  apply filter_In in Hin. destruct Hin as [Hin _]. fold (values (br * bc)) in Hin.
  apply in_values in Hin. lia.
Qed.

(** One iteration of the loops of [autofill]. *)
Lemma autofill_cell_eq (g : game_state) (old : table) (m : move_node) (out : list output)
      (i j : Z) :
  autofill_cell i j (g, old, m, out)
  = if (tget old i j =? 0)
       && (fst (fst (find_all_legal_values old i j (block_rows (g_board g))
                                           (block_cols (g_board g)))) =? 1)
    then let v := nth 0 (snd (fst (find_all_legal_values
                                     old i j (block_rows (g_board g))
                                     (block_cols (g_board g))))) 0 in
         (change_cell g i j 0 v, old, add_change_to_move m i j 0 v,
          out ++ [Printf_d "Cell <%d,%d> set to %d" [j + 1; i + 1; v]])
    else (g, old, m, out).
Proof.
  unfold autofill_cell.
  pose proof (find_all_legal_values_board
                old i j (block_rows (g_board g)) (block_cols (g_board g))) as Hrestore.
  destruct (find_all_legal_values old i j (block_rows (g_board g))
                                  (block_cols (g_board g))) as [[num l] old'].
  cbn [fst snd] in *. subst old'.
  destruct (tget old i j =? 0); [|reflexivity]. cbn [andb].
  destruct (num =? 1); reflexivity.
Qed.

(** The loops of [autofill] over cells that are all different: the
    snapshot is left alone, every cell visited holds its [autofill_value],
    the others are untouched, and [empty_cells_num] moves with the number
    of empty cells. *)
Lemma autofill_cells_spec (n br bc : Z) (old : table) (cells : list (Z * Z)) :
  NoDup cells -> (forall c, In c cells -> in_range n c) ->
  forall g m out,
    block_rows (g_board g) = br -> block_cols (g_board g) = bc ->
    table_of_dim n (board (g_board g)) ->
    (forall c, In c cells -> tget (board (g_board g)) (fst c) (snd c)
                             = tget old (fst c) (snd c)) ->
    let s' := fold_left (fun s c => autofill_cell (fst c) (snd c) s) cells (g, old, m, out) in
    let g' := fst (fst (fst s')) in
    snd (fst (fst s')) = old
    /\ table_of_dim n (board (g_board g'))
    /\ N (g_board g') = N (g_board g)
    /\ (forall c, in_range n c ->
                  tget (board (g_board g')) (fst c) (snd c)
                  = if existsb (cell_eqb c) cells
                    then autofill_value old br bc (fst c) (snd c)
                    else tget (board (g_board g)) (fst c) (snd c))
    /\ empty_cells_num (g_board g') - count_empty (board (g_board g')) n
       = empty_cells_num (g_board g) - count_empty (board (g_board g)) n.
Proof.
  induction cells as [|[i j] cells IH]; intros Hnd Hin g m out Hbr Hbc Hdim Hsame;
    cbv zeta in *.
  - cbn [fold_left fst snd existsb].
    split; [reflexivity|]. split; [exact Hdim|]. split; [reflexivity|].
    split; [intros; reflexivity|reflexivity].
  - inversion Hnd as [|c0 l0 Hnotin Hnd']; subst c0 l0.
    assert (Hc0 : in_range n (i, j)) by (apply Hin; now left).
    pose proof (Hsame (i, j) (or_introl eq_refl)) as Hcur. cbn [fst snd] in Hcur.
    assert (Hrest : forall c, In c cells -> in_range n c)
      by (intros c H; apply Hin; now right).
    cbn [fold_left fst snd]. rewrite autofill_cell_eq, Hbr, Hbc.
    pose proof (find_all_legal_values_positive old i j br bc) as Hpos.
    assert (Hval : autofill_value old br bc i j
                   = if (tget old i j =? 0)
                        && (fst (fst (find_all_legal_values old i j br bc)) =? 1)
                     then nth 0 (snd (fst (find_all_legal_values old i j br bc))) 0
                     else tget old i j) by reflexivity.
    destruct ((tget old i j =? 0)
              && (fst (fst (find_all_legal_values old i j br bc)) =? 1)) eqn:Hcond.
    + apply andb_true_iff in Hcond. destruct Hcond as [Hz Hone].
      apply Z.eqb_eq in Hone. specialize (Hpos Hone). cbv zeta.
      set (v := nth 0 (snd (fst (find_all_legal_values old i j br bc))) 0) in *.
      set (g1 := change_cell g i j 0 v).
      assert (Hdim1 : table_of_dim n (board (g_board g1)))
        by (unfold g1, change_cell; state_simpl; now apply table_of_dim_tset).
      assert (Hsame1 : forall c, In c cells ->
                                 tget (board (g_board g1)) (fst c) (snd c)
                                 = tget old (fst c) (snd c)).
      { intros [i' j'] Hc. rewrite <- (Hsame (i', j') (or_intror Hc)).
        assert (Hne : (i, j) <> (i', j')) by (intros Heq; apply Hnotin; now rewrite Heq).
        destruct Hc0 as [Hi Hj], (Hrest _ Hc) as [Hi' Hj']. cbn [fst snd] in *.
        unfold g1, change_cell. state_simpl. apply tget_tset_other; try lia. exact Hne. }
      destruct (IH Hnd' Hrest g1 (add_change_to_move m i j 0 v)
                   (out ++ [Printf_d "Cell <%d,%d> set to %d" [j + 1; i + 1; v]])
                   Hbr Hbc Hdim1 Hsame1)
        as [Hold [Hdim' [HN' [Hget Hcount]]]].
      split; [exact Hold|]. split; [exact Hdim'|]. split; [exact HN'|]. split.
      * intros c Hc. rewrite (Hget c Hc). cbn [existsb].
        destruct (existsb (cell_eqb c) cells); [now rewrite orb_true_r|].
        rewrite orb_false_r. destruct (cell_eqb c (i, j)) eqn:Heq.
        -- apply cell_eqb_eq in Heq. subst c. cbn [fst snd]. rewrite Hval.
           destruct Hc0 as [Hi Hj]. cbn [fst snd] in *.
           unfold g1, change_cell. state_simpl. now apply (tget_tset_in n).
        -- apply cell_eqb_neq in Heq. destruct c as [i' j'].
           destruct Hc0 as [Hi Hj], Hc as [Hi' Hj']. cbn [fst snd] in *.
           unfold g1, change_cell. state_simpl. apply tget_tset_other; try lia. congruence.
      * rewrite Hcount. unfold g1, change_cell. state_simpl.
        rewrite count_empty_tset by assumption. rewrite Hcur, Hz.
        apply Z.eqb_neq in Hpos. rewrite Hpos. cbn [Z.eqb negb b2z]. lia.
    + destruct (IH Hnd' Hrest g m out Hbr Hbc Hdim
                   (fun c H => Hsame c (or_intror H)))
        as [Hold [Hdim' [HN' [Hget Hcount]]]].
      split; [exact Hold|]. split; [exact Hdim'|]. split; [exact HN'|]. split; [|exact Hcount].
      intros c Hc. rewrite (Hget c Hc). cbn [existsb].
      destruct (existsb (cell_eqb c) cells); [now rewrite orb_true_r|].
      rewrite orb_false_r. destruct (cell_eqb c (i, j)) eqn:Heq; [|reflexivity].
      apply cell_eqb_eq in Heq. subst c. cbn [fst snd]. rewrite Hval. exact Hcur.
Qed.

(** What the loops of [autofill] leave, against the board they were
    started on. *)
Lemma autofill_changes_spec (g : game_state) :
  table_of_dim (N (g_board g)) (board (g_board g)) ->
  let gb := g_board g in
  let g' := fst (autofill_changes g) in
  (forall i j, in_range (N gb) (i, j) ->
     tget (board (g_board g')) i j
     = autofill_value (board gb) (block_rows gb) (block_cols gb) i j)
  /\ empty_cells_num (g_board g') - count_empty (board (g_board g')) (N gb)
     = empty_cells_num gb - count_empty (board gb) (N gb).
Proof.
  intros Hb. cbv zeta.
  unfold autofill_changes. rewrite for2_all_cells.
  rewrite copy_table_id by exact Hb.
  pose proof (autofill_cells_spec (N (g_board g)) (block_rows (g_board g))
                (block_cols (g_board g)) (board (g_board g)) (all_cells (N (g_board g)))
                (all_cells_nodup _) (fun c H => proj1 (in_all_cells _ c) H)
                g alloc_move_node [] eq_refl eq_refl Hb (fun c _ => eq_refl)) as H.
  cbv zeta in H.
  destruct (fold_left _ _ _) as [[[g1 o1] m1] out1]. cbn [fst snd] in *.
  destruct H as [_ [_ [HN' [Hget Hcount]]]].
  assert (Hgb : g_board (match m1 with
                         | [] => g1
                         | _ :: _ => with_m_list g1 (add_move_node_to_list (m_list g1) m1)
                         end) = g_board g1) by (destruct m1; reflexivity).
  rewrite Hgb. split.
  - intros i j Hij. pose proof (Hget (i, j) Hij) as H. cbn [fst snd] in H. rewrite H.
    rewrite existsb_cell_eqb_in by (now apply in_all_cells). reflexivity.
  - exact Hcount.
Qed.

(** The board and the count [autofill] leaves are those its loops leave:
    the printing and the check of a filled board change neither. *)
Lemma autofill_board {E : Environment} (w : world) :
  fst (update_erroneous (g_state w)) = 0 ->
  let g1 := fst (autofill_changes (snd (update_erroneous (g_state w)))) in
  let g' := g_state (snd (autofill w)) in
  board (g_board g') = board (g_board g1)
  /\ empty_cells_num (g_board g') = empty_cells_num (g_board g1).
Proof.
  intros He. cbv zeta. unfold autofill. unfold_monad.
  destruct (update_erroneous (g_state w)) as [e g0]. cbn [fst snd] in *. subst e.
  cbn [Z.eqb negb].
  destruct (autofill_changes g0) as [g1 out]. cbn [fst snd].
  match goal with |- context [print_all out ?w0] =>
    pose proof (print_all_spec out w0) as Hp; destruct (print_all out w0) as [[] w1] end.
  cbn [snd] in Hp. subst w1. cbn [g_state files rand_calls stdout].
  case_print_board.
  assert (Hb : board (g_board (g_state w0)) = board (g_board g1))
    by exact (f_equal (fun c => fst (fst c)) Hpb).
  assert (Hc : empty_cells_num (g_board (g_state w0)) = empty_cells_num (g_board g1))
    by exact (f_equal (fun c => snd (fst c)) Hpb).
  destruct (empty_cells_num (g_board (g_state w0)) =? 0).
  - rewrite check_filled_board_g_board. split; assumption.
  - unfold_monad. split; assumption.
Qed.

(** X18. [autofill] decides every cell against the board as it was before
    the command.  On a well-formed board in which some filled cell repeats
    a value of its row, column or block it fills nothing: it prints the
    error and leaves the board values, [empty_cells_num] and the moves list
    as they were.  On a well-formed board without such a conflict, when
    the command does not end the game, a cell that was empty and had
    exactly one legal value holds that value afterwards, every other cell
    keeps its value; and [empty_cells_num], when it was the number of empty
    cells before, is the number of empty cells after. *)
Theorem autofill_fills_the_single_choice_cells {E : Environment} (w : world) :
  let g := g_state w in
  let gb := g_board g in
  let g' := g_state (snd (autofill w)) in
  board_wf gb ->
  (fst (update_erroneous g) <> 0 ->
   fst (autofill w) = PROCESS_SUCCESS
   /\ stdout (snd (autofill w))
      = stdout w ++ [Printf "Error: board contains erroneous values"]
   /\ board (g_board g') = board gb
   /\ empty_cells_num (g_board g') = empty_cells_num gb
   /\ m_list g' = m_list g)
  /\ (fst (update_erroneous g) = 0 -> mode g' <> Init ->
      (forall i j, in_range (N gb) (i, j) ->
         tget (board (g_board g')) i j
         = autofill_value (board gb) (block_rows gb) (block_cols gb) i j)
      /\ (empty_cells_num gb = count_empty (board gb) (N gb) ->
          empty_cells_num (g_board g') = count_empty (board (g_board g')) (N gb))).
Proof.
  cbv zeta. intros [Hbr [Hbc [HN [Hb _]]]].
  pose proof (update_erroneous_frame (g_state w)) as Hf. cbv zeta in Hf.
  destruct Hf as [_ [_ [Hl [_ [Hboard [_ [Hbc' [Hbr' [HN' Hcnt]]]]]]]]].
  split.
  - intros He. unfold autofill. unfold_monad.
    destruct (update_erroneous (g_state w)) as [e g0]. cbn [fst snd] in *.
    replace (e =? 0) with false by (symmetry; apply Z.eqb_neq; exact He).
    cbn [negb]. unfold_monad. cbn [fst snd g_state stdout].
    repeat split; assumption.
  - intros He _.
    destruct (autofill_board w He) as [Hab Hae]. cbv zeta in Hab, Hae.
    rewrite Hab, Hae.
    pose proof (autofill_changes_spec (snd (update_erroneous (g_state w)))) as Hs.
    cbv zeta in Hs. rewrite HN', Hboard, Hbr', Hbc', Hcnt in Hs.
    destruct (Hs Hb) as [Hget Hcount].
    split; [exact Hget|]. intros Hexact. lia.
Qed.

Lemma autofill_fills_the_single_choice_cells_witness :
  let w := example_after [cmd_file EDIT "three2"; cmd_ints SET [2; 1; 0];
                          cmd_ints SET [1; 2; 0]] in
  let w2 := example_after [cmd_file SOLVE "three2"; cmd_ints SET [2; 2; 2]] in
  (board_wf (g_board (g_state w2))
   /\ fst (update_erroneous (g_state w2)) <> 0
   /\ board (g_board (g_state (snd (autofill (E := example_env) w2))))
      = board (g_board (g_state w2)))
  /\ (board_wf (g_board (g_state w))
      /\ fst (update_erroneous (g_state w)) = 0
      /\ mode (g_state (snd (autofill (E := example_env) w))) <> Init
      /\ in_range (N (g_board (g_state w))) (0, 1))
  /\ board (g_board (g_state w)) = [[1; 0]; [0; 0]]
  /\ tget (board (g_board (g_state (snd (autofill (E := example_env) w))))) 0 1 = 2
  /\ tget (board (g_board (g_state (snd (autofill (E := example_env) w))))) 1 1 = 0.
Proof.
  cbv zeta.
  set (w2 := example_after [cmd_file SOLVE "three2"; cmd_ints SET [2; 2; 2]]).
  set (w := example_after [cmd_file EDIT "three2"; cmd_ints SET [2; 1; 0];
                           cmd_ints SET [1; 2; 0]]).
  assert (Hwf2 : board_wf (g_board (g_state w2)))
    by (apply board_wfb_spec; vm_compute; reflexivity).
  assert (He2 : fst (update_erroneous (g_state w2)) <> 0) by (vm_compute; discriminate).
  assert (Hwf : board_wf (g_board (g_state w)))
    by (apply board_wfb_spec; vm_compute; reflexivity).
  assert (He : fst (update_erroneous (g_state w)) = 0) by (vm_compute; reflexivity).
  assert (Hm : mode (g_state (snd (autofill (E := example_env) w))) <> Init)
    by (vm_compute; discriminate).
  assert (Hr : in_range (N (g_board (g_state w))) (0, 1))
    by (vm_compute; repeat split; discriminate).
  assert (Hr1 : in_range (N (g_board (g_state w))) (1, 1))
    by (vm_compute; repeat split; discriminate).
  pose proof (autofill_fills_the_single_choice_cells (E := example_env) w2 Hwf2) as [H2 _].
  pose proof (autofill_fills_the_single_choice_cells (E := example_env) w Hwf) as [_ H1].
  destruct (H2 He2) as [_ [_ [Hb2 _]]].
  destruct (H1 He Hm) as [Hget _].
  split; [split; [exact Hwf2|split; [exact He2|exact Hb2]]|].
  split; [split; [exact Hwf|split; [exact He|split; [exact Hm|exact Hr]]]|].
  split; [vm_compute; reflexivity|].
  split; [rewrite (Hget 0 1 Hr)|rewrite (Hget 1 1 Hr1)]; vm_compute; reflexivity.
Defined.

(** ** Printing the board (Board_Print.c) *)

Lemma string_length_append (a b : string) :
  String.length (String.append a b) = (String.length a + String.length b)%nat.
Proof. induction a as [|c a IH]; [reflexivity|]. cbn. now rewrite IH. Qed.

Lemma string_length_of_list (l : list ascii) :
  String.length (string_of_list_ascii l) = length l.
Proof. induction l as [|c l IH]; [reflexivity|]. cbn. now rewrite IH. Qed.

Lemma string_length_concat (k : nat) (l : list string) :
  (forall s, In s l -> String.length s = k) ->
  String.length (String.concat "" l) = (k * length l)%nat.
Proof.
  induction l as [|s l IH]; intros H; [cbn; lia|].
  assert (Hs : String.length s = k) by (apply H; now left).
  specialize (IH (fun s' Hs' => H s' (or_intror Hs'))).
  destruct l as [|s' l'].
  - cbn [String.concat length]. lia.
  - change (String.concat "" (s :: s' :: l'))
      with (String.append s (String.append "" (String.concat "" (s' :: l')))).
    rewrite !string_length_append, IH, Hs. cbn [String.length length]. lia.
Qed.

Lemma print_2d_length (v : Z) : 1 <= v <= 99 -> String.length (print_2d v) = 2%nat.
Proof.
  intros Hv.
  assert (Hall : forallb (fun k => (String.length (print_2d (k + 1)) =? 2)%nat) (zseq 99)
                 = true) by (vm_compute; reflexivity).
  rewrite forallb_forall in Hall.
  specialize (Hall (v - 1) ltac:(apply in_zseq; lia)).
  replace (v - 1 + 1) with v in Hall by lia. now apply Nat.eqb_eq.
Qed.

Lemma cell_row_length (board fixed_tabel err_tabel : table) (row col mark_err : Z) :
  0 <= tget board row col <= 99 ->
  String.length (cell_row board fixed_tabel err_tabel row col mark_err) = 4%nat.
Proof.
  intros Hv. unfold cell_row. rewrite !string_length_append.
  assert (H2 : String.length (if negb (tget board row col =? 0)
                              then print_2d (tget board row col) else "  ") = 2%nat).
  { destruct (tget board row col =? 0) eqn:Hz; cbn [negb]; [reflexivity|].
    apply Z.eqb_neq in Hz. apply print_2d_length. lia. }
  rewrite H2.
  destruct (negb (tget fixed_tabel row col =? 0) && negb (tget board row col =? 0));
    [reflexivity|].
  destruct (negb (tget err_tabel row col =? 0) && (tget fixed_tabel row col =? 0)
            && negb (mark_err =? 0) && negb (tget board row col =? 0)); reflexivity.
Qed.

Lemma board_row_length (board fixed_tabel err_tabel : table) (br bc mark_err row : Z) :
  0 < br -> 0 < bc -> 0 <= row < br * bc ->
  (forall c, in_range (br * bc) c -> 0 <= tget board (fst c) (snd c) <= 99) ->
  String.length (board_row board fixed_tabel err_tabel br bc mark_err row)
  = Z.to_nat (4 * (bc * br) + br + 1).
Proof.
  intros Hbr Hbc Hrow Hval. unfold board_row. rewrite string_length_append.
  rewrite (string_length_concat (1 + 4 * Z.to_nat bc)).
  - rewrite length_map, zseq_length. cbn [String.length]. nia.
  - intros s Hs. apply in_map_iff in Hs. destruct Hs as [i [<- Hi]]. apply in_zseq in Hi.
    rewrite string_length_append. cbn [String.length].
    rewrite (string_length_concat 4).
    + rewrite length_map, zseq_length. lia.
    + intros s Hs. apply in_map_iff in Hs. destruct Hs as [col [<- Hcol]].
      apply in_zseq in Hcol. apply cell_row_length.
      apply (Hval (row, bc * i + col)). split; cbn [fst snd]; nia.
Qed.

Lemma seprator_row_length (n br : Z) :
  String.length (seprator_row n br) = Z.to_nat (4 * n + br + 1).
Proof. unfold seprator_row. now rewrite string_length_of_list, repeat_length. Qed.

Lemma div_succ (n br : Z) :
  0 < br -> 0 <= n ->
  (n + 1) / br = n / br + (if Z.rem (n + 1) br =? 0 then 1 else 0).
Proof.
  intros Hbr Hn. rewrite Z.rem_mod_nonneg by lia.
  pose proof (Z.div_mod n br ltac:(lia)) as Hdm.
  pose proof (Z.mod_pos_bound n br Hbr) as Hr.
  destruct (Z.eq_dec (n mod br + 1) br) as [Heq|Hne].
  - assert (Hm : (n + 1) mod br = 0).
    { symmetry. apply (Z.mod_unique_pos _ _ (n / br + 1)); lia. }
    rewrite Hm. cbn [Z.eqb]. symmetry. apply (Z.div_unique_pos _ _ _ 0); lia.
  - assert (Hm : (n + 1) mod br = n mod br + 1).
    { symmetry. apply (Z.mod_unique_pos _ _ (n / br)); lia. }
    rewrite Hm. destruct (n mod br + 1 =? 0) eqn:Hz; [apply Z.eqb_eq in Hz; lia|].
    symmetry. apply (Z.div_unique_pos _ _ _ (n mod br + 1)); lia.
Qed.

Lemma count_lines {A : Type} (x : Z -> A) (y : A) (br : Z) :
  0 < br ->
  forall k : nat,
    Z.of_nat (length (flat_map (fun row => x row :: (if Z.rem (row + 1) br =? 0
                                                     then [y] else []))
                               (zseq (Z.of_nat k))))
    = Z.of_nat k + Z.of_nat k / br.
Proof.
  intros Hbr. induction k as [|k IH].
  - change (Z.of_nat 0) with 0. rewrite Z.div_0_l by lia. reflexivity.
  - rewrite Nat2Z.inj_succ, <- Z.add_1_r.
    rewrite zseq_succ by lia. rewrite flat_map_app, length_app, Nat2Z.inj_add, IH.
    rewrite (div_succ (Z.of_nat k) br) by lia. cbn [flat_map app].
    destruct (Z.rem (Z.of_nat k + 1) br =? 0); cbn [app length]; lia.
Qed.

(** X19. [board_print] draws a grid: on a board whose values lie in
    [0..99], every line it writes, separator or row, is
    [4*N + block_rows + 1] characters long, and it writes
    [N + block_cols + 1] lines: the [N] rows, a separator before the first
    and one after every [block_rows] rows. *)
Theorem board_print_draws_a_grid (board fixed_tabel err_tabel : table)
        (br bc mark_err : Z) :
  0 < br -> 0 < bc ->
  (forall c, in_range (br * bc) c -> 0 <= tget board (fst c) (snd c) <= 99) ->
  let lines := board_print board fixed_tabel err_tabel br bc mark_err in
  Forall (fun line => String.length line = Z.to_nat (4 * (bc * br) + br + 1)) lines
  /\ Z.of_nat (length lines) = br * bc + bc + 1.
Proof.
  intros Hbr Hbc Hval. cbv zeta. unfold board_print. split.
  - constructor; [apply seprator_row_length|].
    apply Forall_forall. intros line Hin. apply in_flat_map in Hin.
    destruct Hin as [row [Hrow Hline]]. apply in_zseq in Hrow.
    destruct Hline as [<-|Hline].
    + apply board_row_length; try assumption. lia.
    + destruct (Z.rem (row + 1) br =? 0); [|destruct Hline].
      destruct Hline as [<-|[]]. apply seprator_row_length.
  - cbn [length]. rewrite Nat2Z.inj_succ.
    pose proof (count_lines
                  (fun row => board_row board fixed_tabel err_tabel br bc mark_err row)
                  (seprator_row (bc * br) br) br Hbr (Z.to_nat (bc * br))) as Hc.
    rewrite Z2Nat.id in Hc by nia. rewrite Hc.
    rewrite Z.div_mul by lia. lia.
Qed.

Lemma board_print_draws_a_grid_witness :
  (0 < 2 /\ 0 < 2
   /\ forall c, in_range (2 * 2) c -> 0 <= tget example_board (fst c) (snd c) <= 99)
  /\ Z.of_nat (length (board_print example_board example_board (alloc_table 4) 2 2 1))
     = 2 * 2 + 2 + 1.
Proof.
  assert (H1 : 0 < 2) by lia.
  assert (Hv : forall c, in_range (2 * 2) c -> 0 <= tget example_board (fst c) (snd c) <= 99).
  { intros c Hc. apply in_all_cells in Hc.
    assert (Hall : forallb (fun c => (0 <=? tget example_board (fst c) (snd c))
                                     && (tget example_board (fst c) (snd c) <=? 99))
                           (all_cells (2 * 2)) = true) by (vm_compute; reflexivity).
    rewrite forallb_forall in Hall. specialize (Hall c Hc).
    apply andb_true_iff in Hall. destruct Hall as [Ha Hb].
    apply Z.leb_le in Ha, Hb. lia. }
  split; [split; [exact H1|split; [exact H1|exact Hv]]|].
  exact (proj2 (board_print_draws_a_grid example_board example_board (alloc_table 4)
                  2 2 1 H1 H1 Hv)).
Defined.

(** ** Guessing (Game.c) *)

Lemma fold_left_fixed {A S : Type} (f : S -> A -> S) (l : list A) (s : S) :
  (forall s' a, f s' a = s') -> fold_left f l s = s.
Proof.
  intros H. induction l as [|a l IH]; [reflexivity|]. cbn [fold_left]. now rewrite H.
Qed.

(** One cell of [random_guess]: the board is left alone or, when the cell
    is empty, the cell is written. *)
Lemma random_guess_cell_cases {E : Environment} (br bc : Z) (sol : list double) (x : double)
      (i j : Z) (board : table) (calls : nat) :
  fst (random_guess_cell br bc sol x i j (board, calls)) = board
  \/ (tget board i j = 0
      /\ exists v, fst (random_guess_cell br bc sol x i j (board, calls)) = tset board i j v).
Proof.
  unfold random_guess_cell.
  destruct (tget board i j =? 0) eqn:Hz.
  - apply Z.eqb_eq in Hz.
    destruct (fold_left _ (zseq (bc * br)) _) as [[cnt tmp] p_tmp].
    destruct (cnt =? 0); [now left|]. destruct (cnt =? 1); cbn [fst].
    + clear - Hz. generalize (zseq (bc * br)). intros ks.
      assert (Hgen : forall b0, b0 = board \/ (exists v, b0 = tset board i j v) ->
                       let b' := fold_left (fun b k => if PrimFloat.ltb PrimFloat.zero
                                                            (nth (Z.to_nat k) tmp PrimFloat.zero)
                                                       then tset b i j (k + 1) else b) ks b0 in
                       b' = board \/ (exists v, b' = tset board i j v)).
      { induction ks as [|k ks IH]; intros b0 Hb0; cbv zeta; cbn [fold_left]; [exact Hb0|].
        apply IH. destruct (PrimFloat.ltb PrimFloat.zero (nth (Z.to_nat k) tmp PrimFloat.zero));
          [|exact Hb0].
        right. exists (k + 1). destruct Hb0 as [->|[v ->]]; [reflexivity|apply tset_tset]. }
      destruct (Hgen board (or_introl eq_refl)) as [H|H]; [now left|right; now split].
    + right. split; [exact Hz|]. eexists. reflexivity.
  - rewrite fold_left_fixed
      by (intros [[cnt tmp] p_tmp] k; cbv zeta; rewrite andb_false_r; reflexivity).
    cbn [Z.eqb fst]. now left.
Qed.

Lemma random_guess_cells_keep_filled {E : Environment} (n br bc : Z) (sol : list double) (x : double)
      (cells : list (Z * Z)) :
  (forall c, In c cells -> in_range n c) ->
  forall board calls,
    table_of_dim n board ->
    let r := fold_left (fun s c => random_guess_cell br bc sol x (fst c) (snd c) s)
                       cells (board, calls) in
    table_of_dim n (fst r)
    /\ forall c, in_range n c -> tget board (fst c) (snd c) <> 0 ->
                 tget (fst r) (fst c) (snd c) = tget board (fst c) (snd c).
Proof.
  induction cells as [|[i j] cells IH]; intros Hin board calls Hdim; cbv zeta.
  - cbn [fold_left fst]. split; [exact Hdim|reflexivity].
  - cbn [fold_left fst snd].
    pose proof (random_guess_cell_cases br bc sol x i j board calls) as Hcase.
    destruct (random_guess_cell br bc sol x i j (board, calls)) as [b1 calls1].
    cbn [fst] in Hcase.
    assert (Hc0 : in_range n (i, j)) by (apply Hin; now left).
    assert (Hdim1 : table_of_dim n b1).
    { destruct Hcase as [->|[_ [v ->]]]; [exact Hdim|now apply table_of_dim_tset]. }
    destruct (IH (fun c H => Hin c (or_intror H)) b1 calls1 Hdim1) as [Hdim' Hkeep].
    split; [exact Hdim'|].
    intros [i' j'] Hc Hfilled. cbn [fst snd] in *.
    assert (H1 : tget b1 i' j' = tget board i' j').
    { destruct Hcase as [->|[Hz [v ->]]]; [reflexivity|].
      destruct Hc0 as [Hi Hj], Hc as [Hi' Hj']. cbn [fst snd] in *.
      apply tget_tset_other; try lia. intros Heq. inversion Heq; subst. contradiction. }
    rewrite <- H1. apply (Hkeep (i', j') Hc). cbn [fst snd]. now rewrite H1.
Qed.

(** X20. [random_guess] writes into empty cells only: the board it leaves
    has the dimension of the board it was given and every cell that was
    filled holds the value it held, whatever the scores, the threshold and
    the random numbers are. *)
Theorem random_guess_keeps_the_filled_cells {E : Environment} (board : table) (br bc : Z)
        (sol : list double) (x : double) (calls : nat) :
  table_of_dim (bc * br) board ->
  let board' := fst (random_guess board br bc sol x calls) in
  table_of_dim (bc * br) board'
  /\ forall i j, in_range (bc * br) (i, j) -> tget board i j <> 0 ->
                 tget board' i j = tget board i j.
Proof.
  intros Hdim. cbv zeta. unfold random_guess. rewrite for2_all_cells.
  destruct (random_guess_cells_keep_filled (bc * br) br bc sol x (all_cells (bc * br))
              (fun c H => proj1 (in_all_cells _ c) H) board calls Hdim) as [Hd Hk].
  split; [exact Hd|]. intros i j Hij Hf. exact (Hk (i, j) Hij Hf).
Qed.

Lemma random_guess_keeps_the_filled_cells_witness :
  table_of_dim (2 * 1) [[1; 2]; [2; 0]]
  /\ tget (fst (random_guess (E := example_env) [[1; 2]; [2; 0]] 1 2
                             (snd (exact_LP [[1; 2]; [2; 0]] 1 2)) 1 0)) 0 1 = 2.
Proof.
  assert (Hd : table_of_dim (2 * 1) [[1; 2]; [2; 0]])
    by (apply table_of_dimb_spec; vm_compute; reflexivity).
  split; [exact Hd|].
  assert (Hr : in_range (2 * 1) (0, 1)) by (unfold in_range; cbn; lia).
  rewrite (proj2 (random_guess_keeps_the_filled_cells (E := example_env) _ 1 2
                    (snd (exact_LP [[1; 2]; [2; 0]] 1 2)) 1%float 0%nat Hd) 0 1 Hr).
  - reflexivity.
  - vm_compute. discriminate.
Defined.

Lemma in_changes_between (n : Z) (select : Z -> Z -> bool) (old_board new_board : table)
      (ch : change_node) :
  In ch (changes_between n select old_board new_board)
  <-> exists c, in_range n c
                /\ select (tget old_board (fst c) (snd c)) (tget new_board (fst c) (snd c))
                   = true
                /\ ch = mk_change (fst c) (snd c) (tget old_board (fst c) (snd c))
                                  (tget new_board (fst c) (snd c)).
Proof.
  rewrite changes_between_spec, in_flat_map. split.
  - intros [c [Hc Hin]]. apply in_all_cells in Hc. cbv zeta in Hin.
    exists c. destruct (select _ _); [|contradiction].
    destruct Hin as [<-|[]]. auto.
  - intros [c [Hc [Hsel ->]]]. exists c. split; [now apply in_all_cells|].
    cbv zeta. rewrite Hsel. now left.
Qed.

Lemma filled_delta_fills (changes : list change_node) :
  (forall ch, In ch changes -> z1 ch = 0 /\ z2 ch <> 0) ->
  filled_delta changes = Z.of_nat (length changes).
Proof.
  induction changes as [|ch l IH]; intros H; [reflexivity|].
  cbn [filled_delta fold_right length]. fold (filled_delta l).
  rewrite IH by (intros c Hc; apply H; now right).
  destruct (H ch (or_introl eq_refl)) as [H1 H2].
  rewrite H1. apply Z.eqb_neq in H2. rewrite H2. cbn [Z.eqb negb b2z]. lia.
Qed.

(** What a [guess] that gets a solution from the optimiser leaves: the
    board of [random_guess] and, added to the moves list, the cells it
    filled. *)
Lemma guess_core {E : Environment} (x : double) (w : world) :
  let g := g_state w in
  let gb := g_board g in
  board_wf gb ->
  fst (update_erroneous g) = 0 ->
  (let status := fst (fst (solve_board_with_LP (board gb) (block_rows gb) (block_cols gb))) in
   status_eqb status ALLOC_FAIL || status_eqb status LP_FAIL = false) ->
  let sol := snd (solve_board_with_LP (board gb) (block_rows gb) (block_cols gb)) in
  let board' := fst (random_guess (board gb) (block_rows gb) (block_cols gb) sol x
                                  (rand_calls w)) in
  core (g_state (snd (guess x w)))
  = (board', empty_cells_num gb,
     add_move_node_to_list
       (m_list g)
       (changes_between (N gb) (fun o v => (o =? 0) && negb (v =? 0)) (board gb) board')).
Proof.
  cbv zeta. intros [Hbr [Hbc [HN [Hb _]]]] Herr Hlp.
  pose proof (update_erroneous_frame (g_state w)) as Hfr. cbv zeta in Hfr.
  unfold guess. unfold_monad.
  destruct (update_erroneous (g_state w)) as [e g1]. cbn [fst snd] in Herr, Hfr. subst e.
  destruct Hfr as [_ [_ [Hml [_ [Hboard [_ [Hbc' [Hbr' [HN' He']]]]]]]]].
  cbn [Z.eqb negb]. unfold_monad.
  rewrite Hboard, HN'. rewrite <- HN. rewrite !copy_table_id by exact Hb.
  destruct (solve_board_with_LP (board (g_board (g_state w)))
                                (block_rows (g_board (g_state w)))
                                (block_cols (g_board (g_state w)))) as [[status b0] sol].
  cbn [fst snd] in Hlp |- *. rewrite Hlp. unfold_monad.
  cbn [rand_calls files stdout].
  destruct (random_guess _ _ _ sol x (rand_calls w)) as [b calls]. cbn [fst]. unfold_monad.
  case_print_board. unfold_monad. unfold core in *. state_simpl.
  inversion Hpb as [[Hb1 He1 Hm1]]. rewrite Hb1, He1, Hm1, He', Hml. reflexivity.
Qed.

(** X21. The move [guess] records is the cells it filled, so [undo] takes
    the guess back on the board.  When the board is well-formed and without
    conflict and the optimiser answers, [guess] followed by [undo] leaves
    the board values and the current pointer as they were before the
    [guess]; [empty_cells_num], which [guess] does not touch, ends larger
    than it was by the number of cells the guess had filled. *)
Theorem guess_then_undo_restores_the_board {E : Environment} (x : double) (w : world) :
  let g := g_state w in
  let gb := g_board g in
  let w1 := snd (guess x w) in
  let g' := g_state (snd (undo w1)) in
  board_wf gb ->
  (curr_pointer (m_list g) <= length (moves (m_list g)))%nat ->
  fst (update_erroneous g) = 0 ->
  (let status := fst (fst (solve_board_with_LP (board gb) (block_rows gb) (block_cols gb))) in
   status_eqb status ALLOC_FAIL || status_eqb status LP_FAIL = false) ->
  board (g_board g') = board gb
  /\ curr_pointer (m_list g') = curr_pointer (m_list g)
  /\ empty_cells_num (g_board g')
     = empty_cells_num gb
       + Z.of_nat (length (get_curr_pointer_changes_iter (m_list (g_state w1)))).
Proof.
  cbv zeta. intros Hwf Hle Herr Hlp.
  pose proof (guess_core x w Hwf Herr Hlp) as Hcore. cbv zeta in Hcore.
  destruct Hwf as [Hbr [Hbc [HN [Hb _]]]].
  assert (HN2 : N (g_board (g_state w))
                = block_cols (g_board (g_state w)) * block_rows (g_board (g_state w)))
    by lia.
  set (sol := snd (solve_board_with_LP _ _ _)) in *.
  set (b := board (g_board (g_state w))) in *.
  assert (Hguess : table_of_dim (N (g_board (g_state w)))
                     (fst (random_guess b (block_rows (g_board (g_state w)))
                                        (block_cols (g_board (g_state w))) sol x
                                        (rand_calls w)))
                   /\ forall c, in_range (N (g_board (g_state w))) c ->
                                tget b (fst c) (snd c) <> 0 ->
                                tget (fst (random_guess b (block_rows (g_board (g_state w)))
                                                        (block_cols (g_board (g_state w)))
                                                        sol x (rand_calls w)))
                                     (fst c) (snd c) = tget b (fst c) (snd c)).
  { unfold random_guess. rewrite for2_all_cells. rewrite HN2 in Hb |- *.
    apply random_guess_cells_keep_filled; [|exact Hb].
    intros c H. now apply in_all_cells. }
  destruct Hguess as [Hdim' Hkeep].
  set (b' := fst (random_guess _ _ _ _ _ _)) in *.
  set (m := changes_between _ _ b b') in *.
  set (w1 := snd (guess x w)) in *.
  assert (Hb1 : board (g_board (g_state w1)) = b')
    by exact (f_equal (fun c => fst (fst c)) Hcore).
  assert (He1 : empty_cells_num (g_board (g_state w1))
                = empty_cells_num (g_board (g_state w)))
    by exact (f_equal (fun c => snd (fst c)) Hcore).
  assert (Hl1 : m_list (g_state w1) = add_move_node_to_list (m_list (g_state w)) m)
    by exact (f_equal snd Hcore).
  destruct (add_move_node_discards_redo_facts (m_list (g_state w)) m Hle)
    as [Hundo [Hch [Hdec _]]].
  pose proof (undo_core w1 ltac:(rewrite Hl1; exact Hundo)) as Hu.
  rewrite Hl1, Hch, Hdec in Hu.
  destruct (revert_changes_parts m (g_state w1)) as [Hrb Hre].
  assert (Hb2 : board (g_board (g_state (snd (undo w1))))
                = write_all z1 m (board (g_board (g_state w1)))).
  { rewrite <- Hrb. exact (f_equal (fun c => fst (fst c)) Hu). }
  assert (He2 : empty_cells_num (g_board (g_state (snd (undo w1))))
                = empty_cells_num (g_board (g_state w1)) + filled_delta m).
  { rewrite <- Hre. exact (f_equal (fun c => snd (fst c)) Hu). }
  assert (Hm2 : m_list (g_state (snd (undo w1)))
                = mk_moves (firstn (curr_pointer (m_list (g_state w)))
                                   (moves (m_list (g_state w))) ++ [m])
                           (curr_pointer (m_list (g_state w))))
    by exact (f_equal snd Hu).
  assert (Hin : forall ch, In ch m ->
                  exists c, in_range (N (g_board (g_state w))) c
                            /\ tget b (fst c) (snd c) = 0 /\ tget b' (fst c) (snd c) <> 0
                            /\ ch = mk_change (fst c) (snd c) 0 (tget b' (fst c) (snd c))).
  { intros ch Hch'. apply in_changes_between in Hch'.
    destruct Hch' as [c [Hc [Hsel ->]]]. apply andb_true_iff in Hsel.
    destruct Hsel as [H1 H2]. apply Z.eqb_eq in H1. apply negb_true_iff, Z.eqb_neq in H2.
    exists c. rewrite H1. auto. }
  split; [|split].
  - rewrite Hb2, Hb1. apply (table_ext (N (g_board (g_state w)))).
    + now apply table_of_dim_write_all.
    + exact Hb.
    + intros i j Hij. apply (tget_write_all (N (g_board (g_state w)))).
      * exact Hij.
      * intros ch Hch'. destruct (Hin ch Hch') as [c [Hc [_ [_ ->]]]]. now destruct c.
      * intros ch Hch' Hcell. destruct (Hin ch Hch') as [c [Hc [Hz [_ ->]]]].
        cbn [cell_rows cell_cols z1] in *. destruct c. cbn [fst snd] in *.
        inversion Hcell; subst. now rewrite Hz.
      * exact Hdim'.
      * destruct (Z.eq_dec (tget b i j) 0) as [Hz|Hnz].
        -- destruct (Z.eq_dec (tget b' i j) 0) as [Hz'|Hnz']; [left; congruence|].
           right. exists (mk_change i j (tget b i j) (tget b' i j)). split; [|reflexivity].
           apply in_changes_between. exists (i, j). cbn [fst snd].
           split; [exact Hij|]. split; [|reflexivity].
           apply andb_true_iff. split; [now apply Z.eqb_eq|].
           now apply negb_true_iff, Z.eqb_neq.
        -- left. exact (Hkeep (i, j) Hij Hnz).
  - rewrite Hm2. reflexivity.
  - rewrite He2, He1, Hl1, Hch. rewrite filled_delta_fills; [reflexivity|].
    intros ch Hch'. destruct (Hin ch Hch') as [c [_ [_ [Hnz ->]]]]. split; [reflexivity|exact Hnz].
Qed.

Lemma guess_then_undo_restores_the_board_witness :
  let w := example_after [cmd_file SOLVE "three2"] in
  let gb := g_board (g_state w) in
  (board_wf gb
   /\ le (curr_pointer (m_list (g_state w))) (length (moves (m_list (g_state w))))
   /\ fst (update_erroneous (g_state w)) = 0
   /\ status_eqb (fst (fst (solve_board_with_LP (Environment := example_env)
                              (board gb) (block_rows gb) (block_cols gb)))) ALLOC_FAIL
      || status_eqb (fst (fst (solve_board_with_LP (Environment := example_env)
                                 (board gb) (block_rows gb) (block_cols gb)))) LP_FAIL
      = false)
  /\ board (g_board (g_state (snd (guess (E := example_env) 1 w)))) = [[1; 2]; [2; 1]]
  /\ board (g_board (g_state (snd (undo (snd (guess (E := example_env) 1 w)))))) = board gb.
Proof.
  cbv zeta.
  assert (H1 : board_wf (g_board (g_state (example_after [cmd_file SOLVE "three2"]))))
    by (apply board_wfb_spec; vm_compute; reflexivity).
  assert (H2 : le (curr_pointer (m_list (g_state (example_after [cmd_file SOLVE "three2"]))))
                  (length (moves (m_list (g_state (example_after
                                                     [cmd_file SOLVE "three2"]))))))
    by (vm_compute; lia).
  assert (H3 : fst (update_erroneous (g_state (example_after [cmd_file SOLVE "three2"]))) = 0)
    by (vm_compute; reflexivity).
  assert (H4 : status_eqb
                 (fst (fst (solve_board_with_LP (Environment := example_env)
                              (board (g_board (g_state (example_after
                                                          [cmd_file SOLVE "three2"]))))
                              (block_rows (g_board (g_state (example_after
                                                               [cmd_file SOLVE "three2"]))))
                              (block_cols (g_board (g_state (example_after
                                                               [cmd_file SOLVE "three2"])))))))
                 ALLOC_FAIL
               || status_eqb
                    (fst (fst (solve_board_with_LP (Environment := example_env)
                                 (board (g_board (g_state (example_after
                                                             [cmd_file SOLVE "three2"]))))
                                 (block_rows (g_board (g_state (example_after
                                                                  [cmd_file SOLVE "three2"]))))
                                 (block_cols (g_board (g_state (example_after
                                                                  [cmd_file SOLVE "three2"])))))))
                    LP_FAIL
               = false) by (vm_compute; reflexivity).
  split; [split; [exact H1|split; [exact H2|split; [exact H3|exact H4]]]|].
  split; [vm_compute; reflexivity|].
  exact (proj1 (guess_then_undo_restores_the_board (E := example_env) 1%float _ H1 H2 H3 H4)).
Defined.

(** *** Choosing the cells to keep *)

Lemma upd_swap_remove {A : Type} (a : list A) (idx : nat) (x d : A) :
  (idx < length a)%nat -> Permutation (nth idx a d :: upd a idx x) (x :: a).
Proof.
  revert idx. induction a as [|h t IH]; intros [|idx] H; cbn [length nth upd] in *;
    try lia.
  - apply perm_swap.
  - eapply perm_trans; [apply perm_swap|].
    eapply perm_trans; [apply perm_skip, IH; lia|]. apply perm_swap.
Qed.

Lemma firstn_upd {A : Type} (l : list A) (k idx : nat) (x : A) :
  firstn k (upd l idx x) = upd (firstn k l) idx x.
Proof.
  revert k idx. induction l as [|h t IH]; intros [|k] [|idx]; cbn [firstn upd];
    try reflexivity.
  f_equal. apply IH.
Qed.

Lemma firstn_snoc {A : Type} (l : list A) (k : nat) (d : A) :
  (k < length l)%nat -> firstn (S k) l = firstn k l ++ [nth k l d].
Proof.
  revert k. induction l as [|h t IH]; intros k H; cbn [length] in H; [lia|].
  destruct k as [|k]; [reflexivity|].
  cbn [firstn nth app]. f_equal. apply IH. lia.
Qed.

Lemma map_nth_firstn {A : Type} (l : list A) (d : A) (k : nat) :
  (k <= length l)%nat -> map (fun i => nth i l d) (seq 0 k) = firstn k l.
Proof.
  induction k as [|k IH]; intros H; [reflexivity|].
  rewrite seq_S, map_app, IH by lia. cbn [map Nat.add].
  symmetry. apply firstn_snoc. lia.
Qed.

Lemma filter_length_perm {A : Type} (f : A -> bool) (l l' : list A) :
  Permutation l l' -> length (filter f l) = length (filter f l').
Proof.
  induction 1 as [|x l l' _ IH|x y l|l l' l'' _ IH1 _ IH2]; cbn [filter].
  - reflexivity.
  - destruct (f x); cbn [length]; lia.
  - destruct (f x), (f y); reflexivity.
  - lia.
Qed.

Lemma filter_all {A : Type} (f : A -> bool) (l : list A) :
  (forall x, In x l -> f x = true) -> filter f l = l.
Proof.
  induction l as [|h t IH]; intros H; cbn [filter]; [reflexivity|].
  rewrite (H h (or_introl eq_refl)). f_equal. apply IH. intros x Hx. apply H. right. exact Hx.
Qed.

Lemma filter_nothing {A : Type} (f : A -> bool) (l : list A) :
  (forall x, In x l -> f x = false) -> filter f l = [].
Proof.
  induction l as [|h t IH]; intros H; cbn [filter]; [reflexivity|].
  rewrite (H h (or_introl eq_refl)). apply IH. intros x Hx. apply H. right. exact Hx.
Qed.

Lemma all_cells_length (n : Z) : 0 <= n -> length (all_cells n) = Z.to_nat (n * n).
Proof.
  intros Hn. destruct (Z.eq_dec n 0) as [->|Hz]; [reflexivity|].
  rewrite all_cells_positions by lia. rewrite length_map, length_seq. reflexivity.
Qed.

(** [randomly_extract_a_cell] takes one cell out of the first [len] entries
    of the array: the chosen cell and the first [len - 1] entries it leaves
    are the first [len] entries it was given. *)
Lemma randomly_extract_a_cell_prefix {E : Environment} (l : list (Z * Z)) (len : Z)
      (w : world) :
  0 < len -> (Z.to_nat len <= length l)%nat -> 0 <= rand (rand_calls w) ->
  let r := fst (randomly_extract_a_cell l len w) in
  snd r = len - 1
  /\ length (snd (fst r)) = length l
  /\ Permutation (fst (fst r) :: firstn (Z.to_nat (len - 1)) (snd (fst r)))
                 (firstn (Z.to_nat len) l).
Proof.
  intros Hlen Hl Hr. cbv zeta. unfold randomly_extract_a_cell, call_rand. unfold_monad.
  cbn [fst snd].
  pose proof (Z.rem_bound_pos (rand (rand_calls w)) len Hr Hlen) as Hb.
  set (idx := Z.rem (rand (rand_calls w)) len) in *.
  assert (Hk : Z.to_nat len = S (Z.to_nat (len - 1))) by lia.
  split; [reflexivity|].
  destruct (idx <? len - 1) eqn:Hlt.
  - apply Z.ltb_lt in Hlt. split; [apply length_upd|].
    rewrite firstn_upd.
    rewrite Hk, (firstn_snoc l (Z.to_nat (len - 1)) (0, 0)) by lia.
    replace (nth (Z.to_nat idx) l (0, 0))
      with (nth (Z.to_nat idx) (firstn (Z.to_nat (len - 1)) l) (0, 0)).
    + eapply perm_trans.
      * apply upd_swap_remove. rewrite length_firstn. lia.
      * apply Permutation_cons_append.
    + rewrite nth_firstn.
      destruct (Nat.ltb_spec (Z.to_nat idx) (Z.to_nat (len - 1))); [reflexivity|lia].
  - apply Z.ltb_ge in Hlt. split; [reflexivity|].
    assert (Hi : idx = len - 1) by lia. rewrite Hi.
    rewrite Hk, (firstn_snoc l (Z.to_nat (len - 1)) (0, 0)) by lia.
    apply Permutation_cons_append.
Qed.

Lemma choose_cells_to_keep_prefix {E : Environment} (y : nat) :
  (forall k, 0 <= rand k) ->
  forall (l : list (Z * Z)) (len : Z) (w : world),
    Z.of_nat y <= len -> (Z.to_nat len <= length l)%nat ->
    let l' := fst (choose_cells_to_keep y l len w) in
    length l' = length l
    /\ exists kept,
         length kept = y
         /\ Permutation (kept ++ firstn (Z.to_nat (len - Z.of_nat y)) l')
                        (firstn (Z.to_nat len) l).
Proof.
  intros Hrand. induction y as [|y IH]; intros l len w Hy Hl; cbv zeta.
  - cbn [choose_cells_to_keep]. unfold_monad. cbn [fst]. split; [reflexivity|].
    exists []. split; [reflexivity|]. rewrite Z.sub_0_r. apply Permutation_refl.
  - cbn [choose_cells_to_keep]. unfold_monad.
    pose proof (randomly_extract_a_cell_prefix l len w ltac:(lia) Hl (Hrand _)) as Hx.
    cbv zeta in Hx.
    destruct (randomly_extract_a_cell l len w) as [[[cell l1] len1] w1].
    cbn [fst snd] in Hx. destruct Hx as [Hlen1 [Hl1 Hp]]. subst len1.
    specialize (IH l1 (len - 1) w1 ltac:(lia) ltac:(lia)). cbv zeta in IH.
    destruct IH as [Hl' [kept [Hk Hp']]].
    split; [lia|].
    exists (cell :: kept). split; [cbn [length]; lia|].
    replace (len - Z.of_nat (S y)) with (len - 1 - Z.of_nat y) by lia.
    cbn [app]. eapply perm_trans; [apply perm_skip, Hp'|exact Hp].
Qed.

Lemma clear_cells_spec (n : Z) (cells : list (Z * Z)) :
  (forall c, In c cells -> in_range n c) ->
  forall b, table_of_dim n b ->
    let b' := fold_left (fun b c => tset b (fst c) (snd c) 0) cells b in
    table_of_dim n b'
    /\ forall i j, in_range n (i, j) ->
         tget b' i j = if existsb (cell_eqb (i, j)) cells then 0 else tget b i j.
Proof.
  induction cells as [|c rest IH]; intros Hin b Hb; cbv zeta; cbn [fold_left existsb].
  - split; [exact Hb|]. intros; reflexivity.
  - assert (Hc : in_range n c) by (apply Hin; left; reflexivity).
    specialize (IH (fun c' H => Hin c' (or_intror H)) (tset b (fst c) (snd c) 0)
                   (table_of_dim_tset n b (fst c) (snd c) 0 Hb)).
    cbv zeta in IH. destruct IH as [Hd Hv]. split; [exact Hd|].
    intros i j Hij. rewrite (Hv i j Hij).
    destruct (existsb (cell_eqb (i, j)) rest); [rewrite orb_true_r; reflexivity|].
    rewrite orb_false_r. destruct c as [i' j']. destruct Hc as [Hi' Hj'].
    destruct Hij as [Hi Hj]. cbn [fst snd] in *.
    destruct (cell_eqb (i, j) (i', j')) eqn:He.
    + apply cell_eqb_eq in He. inversion He; subst i' j'.
      apply (tget_tset_in n); assumption.
    + apply tget_tset_other; try lia.
      intros Heq. inversion Heq; subst i' j'.
      unfold cell_eqb in He. cbn [fst snd] in He. rewrite !Z.eqb_refl in He. discriminate He.
Qed.

Lemma clear_loop_firstn (l : list (Z * Z)) (k : Z) (b : table) :
  (Z.to_nat k <= length l)%nat ->
  fold_left (fun b i => let c := nth (Z.to_nat i) l (0, 0) in tset b (fst c) (snd c) 0)
            (zseq k) b
  = fold_left (fun b c => tset b (fst c) (snd c) 0) (firstn (Z.to_nat k) l) b.
Proof.
  intros Hk. rewrite <- (map_nth_firstn l (0, 0)) by exact Hk.
  unfold zseq. rewrite !fold_left_map. apply fold_left_ext.
  intros s x. cbv zeta. rewrite Nat2Z.id. reflexivity.
Qed.

(** X22. [partially_clear_board] clears the cells it did not choose to
    keep, and no cell twice: for [0 <= y <= N*N] and a random source that
    gives no negative number, every cell of the board it returns holds the
    value it had or 0, and of a board that was full exactly [N*N - y] cells
    are empty, which is the number [generate] then stores in
    [empty_cells_num]. *)
Theorem partially_clear_board_leaves_y_filled {E : Environment} (board : table)
        (y n : Z) (w : world) :
  0 <= n -> table_of_dim n board -> 0 <= y <= n * n -> (forall k, 0 <= rand k) ->
  let r := fst (partially_clear_board board y n w) in
  fst r = PROCESS_SUCCESS
  /\ table_of_dim n (snd r)
  /\ (forall i j, in_range n (i, j) ->
        tget (snd r) i j = tget board i j \/ tget (snd r) i j = 0)
  /\ ((forall i j, in_range n (i, j) -> tget board i j <> 0) ->
      count_empty (snd r) n = n * n - y).
Proof.
  intros Hn Hdim Hy Hrand. cbv zeta. unfold partially_clear_board.
  destruct (y =? n * n) eqn:Hyn.
  - apply Z.eqb_eq in Hyn. unfold_monad. cbn [fst snd].
    split; [reflexivity|]. split; [exact Hdim|]. split; [intros; left; reflexivity|].
    intros Hfull. unfold count_empty. rewrite empty_cells_full.
    + cbn [length]. lia.
    + intros [i j] Hc. apply Hfull. exact Hc.
  - apply Z.eqb_neq in Hyn. unfold_monad.
    pose proof (all_cells_length n Hn) as Hlen.
    pose proof (choose_cells_to_keep_prefix (Z.to_nat y) Hrand (all_cells n) (n * n) w
                  ltac:(lia) ltac:(lia)) as Hc.
    cbv zeta in Hc.
    destruct (choose_cells_to_keep (Z.to_nat y) (all_cells n) (n * n) w) as [l' w'].
    cbn [fst snd] in *. destruct Hc as [Hl' [kept [Hk Hp]]].
    rewrite Z2Nat.id in Hp by lia.
    rewrite <- Hlen, firstn_all in Hp.
    rewrite clear_loop_firstn by lia.
    set (cleared := firstn (Z.to_nat (n * n - y)) l') in *.
    assert (Hin : forall c, In c (kept ++ cleared) -> in_range n c).
    { intros c Hc. apply in_all_cells. apply (Permutation_in c Hp). exact Hc. }
    assert (Hnd : NoDup (kept ++ cleared)).
    { apply (Permutation_NoDup (Permutation_sym Hp)). apply all_cells_nodup. }
    pose proof (clear_cells_spec n cleared
                  (fun c H => Hin c (in_or_app kept cleared c (or_intror H)))
                  board Hdim) as Hclear.
    cbv zeta in Hclear. destruct Hclear as [Hd Hv].
    split; [reflexivity|]. split; [exact Hd|]. split.
    + intros i j Hij. rewrite (Hv i j Hij).
      destruct (existsb (cell_eqb (i, j)) cleared); [right|left]; reflexivity.
    + intros Hfull. unfold count_empty, empty_cells.
      rewrite (filter_length_perm _ _ _ (Permutation_sym Hp)).
      rewrite filter_app, length_app.
      rewrite (filter_nothing _ kept), (filter_all _ cleared).
      * cbn [length]. subst cleared. rewrite length_firstn. lia.
      * intros [i j] Hc. cbn [fst snd]. apply Z.eqb_eq.
        rewrite Hv by (apply Hin, in_or_app; right; exact Hc).
        rewrite existsb_cell_eqb_in by exact Hc. reflexivity.
      * intros [i j] Hc. cbn [fst snd]. apply Z.eqb_neq.
        assert (Hr : in_range n (i, j)) by (apply Hin, in_or_app; left; exact Hc).
        rewrite Hv by exact Hr.
        destruct (existsb (cell_eqb (i, j)) cleared) eqn:He; [|apply Hfull; exact Hr].
        exfalso. apply existsb_exists in He. destruct He as [c' [Hc' He]].
        apply cell_eqb_eq in He. subst c'.
        apply NoDup_app_remove_l in Hnd as Hnd'.
        clear - Hnd Hc Hc'. induction kept as [|h t IH]; [destruct Hc|].
        cbn [app] in Hnd. inversion Hnd as [|? ? Hnot Hrest]; subst.
        destruct Hc as [->|Hc].
        -- apply Hnot. apply in_or_app. right. exact Hc'.
        -- apply IH; assumption.
Qed.

Lemma partially_clear_board_leaves_y_filled_witness :
  (0 <= 2 /\ table_of_dim 2 [[1; 2]; [2; 1]] /\ 0 <= 1 <= 2 * 2
   /\ forall k, 0 <= rand (Environment := example_env) k)
  /\ snd (fst (partially_clear_board (E := example_env) [[1; 2]; [2; 1]] 1 2 example_start))
     = [[1; 0]; [0; 0]]
  /\ count_empty
       (snd (fst (partially_clear_board (E := example_env) [[1; 2]; [2; 1]] 1 2
                                        example_start))) 2
     = 2 * 2 - 1.
Proof.
  assert (H1 : 0 <= 2) by lia.
  assert (H2 : table_of_dim 2 [[1; 2]; [2; 1]])
    by (apply table_of_dimb_spec; vm_compute; reflexivity).
  assert (H3 : 0 <= 1 <= 2 * 2) by lia.
  assert (H4 : forall k, 0 <= rand (Environment := example_env) k)
    by (intros k; cbn [rand example_env]; lia).
  split; [split; [exact H1|split; [exact H2|split; [exact H3|exact H4]]]|].
  split; [vm_compute; reflexivity|].
  apply (partially_clear_board_leaves_y_filled (E := example_env) [[1; 2]; [2; 1]] 1 2
           example_start H1 H2 H3 H4).
  intros i j [Hi Hj]. cbn [fst snd] in Hi, Hj.
  assert (Hc : (i = 0 \/ i = 1) /\ (j = 0 \/ j = 1)) by lia.
  destruct Hc as [[-> | ->] [-> | ->]]; vm_compute; discriminate.
Defined.

(** *** Filling cells at random *)

Lemma no_duplicates_clear (br bc : Z) (b : table) (i j : Z) :
  0 < br -> 0 < bc -> table_of_dim (br * bc) b -> in_range (br * bc) (i, j) ->
  no_duplicates b br bc = true -> no_duplicates (tset b i j 0) br bc = true.
Proof.
  intros Hbr Hbc Hdim Hij Hnd.
  rewrite (no_duplicates_spec br bc) in Hnd |- *.
  assert (Hz : tget (tset b i j 0) i j = 0)
    by (apply (tget_tset_in (br * bc)); [exact Hdim|apply Hij|apply Hij]).
  assert (Ho : forall c, in_range (br * bc) c -> c <> (i, j) ->
                         tget (tset b i j 0) (fst c) (snd c) = tget b (fst c) (snd c)).
  { intros [i' j'] [H1 H2] Hne. destruct Hij as [H3 H4]. cbn [fst snd] in *.
    apply tget_tset_other; try lia. congruence. }
  intros c1 c2 Hc1 Hc2 Hne Hu Hv.
  assert (Hc1' : c1 <> (i, j)) by (intros ->; cbn [fst snd] in Hv; congruence).
  rewrite (Ho c1 Hc1 Hc1') in Hv |- *.
  destruct c2 as [i2 j2]. destruct (cell_eqb (i2, j2) (i, j)) eqn:He.
  - apply cell_eqb_eq in He. rewrite He. cbn [fst snd]. rewrite Hz. congruence.
  - apply cell_eqb_neq in He. rewrite (Ho (i2, j2) Hc2 He).
    apply Hnd; assumption.
Qed.

(** Writing one of the values [find_all_legal_values] lists, as
    [randomly_fill_a_legal_board] does, brings in no duplicate. *)
Lemma legal_value_no_duplicates (br bc : Z) (b : table) (i j val : Z) :
  0 < br -> 0 < bc -> table_of_dim (br * bc) b -> in_range (br * bc) (i, j) ->
  no_duplicates b br bc = true ->
  In val (snd (fst (find_all_legal_values b i j br bc))) ->
  no_duplicates (tset b i j val) br bc = true.
Proof.
  intros Hbr Hbc Hdim Hij Hnd Hin.
  unfold find_all_legal_values in Hin. cbn [fst snd] in Hin.
  apply filter_In in Hin. destruct Hin as [Hv Hl].
  fold (values (br * bc)) in Hv. apply in_values in Hv.
  destruct (status_legal_cases (tset b i j 0) i j val br bc) as [Hs|Hs];
    [|rewrite Hs in Hl; discriminate].
  rewrite <- (tset_tset b i j 0 val).
  apply (no_duplicates_tset br bc Hbr Hbc).
  - apply table_of_dim_tset. exact Hdim.
  - exact Hij.
  - apply (tget_tset_in (br * bc)); [exact Hdim|apply Hij|apply Hij].
  - lia.
  - split; [apply no_duplicates_clear; assumption|exact Hs].
Qed.

Lemma randomly_fill_loop_no_duplicates {E : Environment} (br bc : Z) (x : nat) :
  0 < br -> 0 < bc -> (forall k, 0 <= rand k) ->
  forall (board : table) (l : list (Z * Z)) (len : Z) (w : world),
    Z.of_nat x <= len -> (Z.to_nat len <= length l)%nat ->
    (forall c, In c (firstn (Z.to_nat len) l) -> in_range (br * bc) c) ->
    table_of_dim (br * bc) board -> no_duplicates board br bc = true ->
    let r := fst (randomly_fill_loop x br bc board l len w) in
    table_of_dim (br * bc) (snd r) /\ no_duplicates (snd r) br bc = true.
Proof.
  intros Hbr Hbc Hrand. induction x as [|x IH]; intros board l len w Hx Hl Hin Hdim Hnd;
    cbv zeta.
  - cbn [randomly_fill_loop]. unfold_monad. cbn [fst snd]. split; assumption.
  - cbn [randomly_fill_loop]. unfold_monad.
    pose proof (randomly_extract_a_cell_prefix l len w ltac:(lia) Hl (Hrand _)) as Hp.
    cbv zeta in Hp.
    destruct (randomly_extract_a_cell l len w) as [[[cell l1] len1] w1].
    cbn [fst snd] in Hp. destruct Hp as [Hlen1 [Hl1 Hp]]. subst len1.
    assert (Hcell : in_range (br * bc) cell).
    { apply Hin. apply (Permutation_in cell Hp). left. reflexivity. }
    assert (Hin1 : forall c, In c (firstn (Z.to_nat (len - 1)) l1) -> in_range (br * bc) c).
    { intros c Hc. apply Hin. apply (Permutation_in c Hp). right. exact Hc. }
    pose proof (find_all_legal_values_board board (fst cell) (snd cell) br bc) as Hb.
    assert (Hnum : fst (fst (find_all_legal_values board (fst cell) (snd cell) br bc))
                   = Z.of_nat (length (snd (fst (find_all_legal_values
                                                   board (fst cell) (snd cell) br bc)))))
      by reflexivity.
    pose proof (legal_value_no_duplicates br bc board (fst cell) (snd cell)) as Hlegal.
    destruct (find_all_legal_values board (fst cell) (snd cell) br bc)
      as [[num legal_values_list] board1].
    cbn [fst snd] in Hb, Hnum, Hlegal. subst board1.
    destruct (num =? 0) eqn:Hz.
    + cbn [fst snd]. split; assumption.
    + apply Z.eqb_neq in Hz. unfold call_rand. cbn [rand_calls].
      apply IH; try assumption; try lia.
      * apply table_of_dim_tset. exact Hdim.
      * apply Hlegal; try assumption.
        apply nth_In.
        pose proof (Z.rem_bound_pos (rand (rand_calls w1)) num (Hrand _) ltac:(lia)).
        lia.
Qed.

(** X23. [randomly_fill_a_legal_board] brings no conflict into the board:
    for [0 <= x <= N*N] and a random source that gives no negative number,
    a board in which no filled cell repeats a value of its row, column or
    block is such a board again when the function returns, with
    [FILL_SUCCESS] or with [FILL_FAIL]. *)
Theorem randomly_fill_a_legal_board_adds_no_conflict {E : Environment} (board : table)
        (x br bc : Z) (w : world) :
  0 < br -> 0 < bc -> table_of_dim (br * bc) board ->
  0 <= x <= (br * bc) * (br * bc) -> (forall k, 0 <= rand k) ->
  no_duplicates board br bc = true ->
  let r := fst (randomly_fill_a_legal_board board x br bc w) in
  table_of_dim (br * bc) (snd r) /\ no_duplicates (snd r) br bc = true.
Proof.
  intros Hbr Hbc Hdim Hx Hrand Hnd. cbv zeta. unfold randomly_fill_a_legal_board.
  destruct (x =? 0).
  - unfold_monad. cbn [fst snd]. split; assumption.
  - pose proof (all_cells_length (br * bc) ltac:(nia)) as Hlen.
    apply randomly_fill_loop_no_duplicates; try assumption; try lia.
    intros c Hc. rewrite <- Hlen, firstn_all in Hc. apply in_all_cells. exact Hc.
Qed.

Lemma randomly_fill_a_legal_board_adds_no_conflict_witness :
  (0 < 1 /\ 0 < 2 /\ table_of_dim (1 * 2) [[1; 0]; [0; 0]]
   /\ 0 <= 2 <= (1 * 2) * (1 * 2)
   /\ (forall k, 0 <= rand (Environment := example_env) k)
   /\ no_duplicates [[1; 0]; [0; 0]] 1 2 = true)
  /\ fst (randomly_fill_a_legal_board (E := example_env) [[1; 0]; [0; 0]] 2 1 2
                                      example_start)
     = (FILL_SUCCESS, [[1; 0]; [0; 1]])
  /\ no_duplicates
       (snd (fst (randomly_fill_a_legal_board (E := example_env) [[1; 0]; [0; 0]] 2 1 2
                                              example_start))) 1 2 = true.
Proof.
  assert (H1 : 0 < 1) by lia.
  assert (H2 : 0 < 2) by lia.
  assert (H3 : table_of_dim (1 * 2) [[1; 0]; [0; 0]])
    by (apply table_of_dimb_spec; vm_compute; reflexivity).
  assert (H4 : 0 <= 2 <= (1 * 2) * (1 * 2)) by lia.
  assert (H5 : forall k, 0 <= rand (Environment := example_env) k)
    by (intros k; cbn [rand example_env]; lia).
  assert (H6 : no_duplicates [[1; 0]; [0; 0]] 1 2 = true) by (vm_compute; reflexivity).
  split; [split; [exact H1|split; [exact H2|split; [exact H3|split;
    [exact H4|split; [exact H5|exact H6]]]]]|].
  split; [vm_compute; reflexivity|].
  exact (proj2 (randomly_fill_a_legal_board_adds_no_conflict (E := example_env)
                  [[1; 0]; [0; 0]] 2 1 2 example_start H1 H2 H3 H4 H5 H6)).
Defined.

(** *** Starting a game *)




